(** * ai-image-pipeline: validated image metadata, the ProcessingJob state
      machine and the EnhanceImageUseCase orchestrator.

    The TypeScript sources are embedded shallowly:
    - a JavaScript [number] is an IEEE 754 binary64 value, taken from the
      specification of floating-point arithmetic of the Standard Library
      ([SpecFloat], precision 53, [emax] 1024);
    - a [throw] is the [Throw] case of a [completion]; code that mutates an object
      or reads the clock runs in a state-and-exception monad in which the
      state written before a [throw] is kept, as in JavaScript;
    - the two ports are functions that settle with a value or a rejection. *)

From Stdlib Require Import ZArith Lia Bool List String Ascii.
From Stdlib Require Import SpecFloat DecimalString.
Import ListNotations.

Local Open Scope Z_scope.

(** ** JavaScript numbers *)

Module Number.

Definition prec : Z := 53.
Definition emax : Z := 1024.

(** A [number] is a binary64 datum.  [S754_finite s m e] stands for
    [(-1)^s * m * 2^e]; the values a JavaScript engine can hold are those
    accepted by [is_number]. *)
Definition number : Type := spec_float.

Definition is_number (x : number) : bool := valid_binary prec emax x.

Definition NaN : number := S754_nan.
Definition Infinity : number := S754_infinity false.

(** Numeric literal with an integral value. *)
Definition of_Z (n : Z) : number := binary_normalize prec emax n 0 false.

(** Numeric literal [n / 2^k]. *)
Definition of_dyadic (n : Z) (k : Z) : number :=
  binary_normalize prec emax n (- k) false.

(** [x * y] *)
Definition mul (x y : number) : number := SFmul prec emax x y.
(** [x / y] *)
Definition div (x y : number) : number := SFdiv prec emax x y.
(** [x - y] *)
Definition sub (x y : number) : number := SFsub prec emax x y.

(** [x < y], [x <= y], [x > y]: all false as soon as an operand is NaN. *)
Definition lt (x y : number) : bool := SFltb x y.
Definition le (x y : number) : bool := SFleb x y.
Definition gt (x y : number) : bool := SFltb y x.

(** [Number.isFinite(x)] *)
Definition isFinite (x : number) : bool :=
  match x with
  | S754_zero _ | S754_finite _ _ _ => true
  | S754_infinity _ | S754_nan => false
  end.

(** [Number.isInteger(x)]: finite and without fractional part. *)
Definition isInteger (x : number) : bool :=
  match x with
  | S754_zero _ => true
  | S754_finite _ m e =>
      (0 <=? e) || (Z.pos m mod 2 ^ (- e) =? 0)
  | S754_infinity _ | S754_nan => false
  end.

(** [Math.round(x)]: the integral number closest to [x], the one towards
    +Infinity when two are equally close; NaN, the infinities and the
    zeros are returned unchanged, and a result of zero keeps the sign of
    [x].  For [x = (-1)^s * m * 2^e] with [e < 0] the integer is
    [floor (x + 1/2) = floor ((+-m + 2^(-e-1)) / 2^(-e))]. *)
Definition Math_round (x : number) : number :=
  match x with
  | S754_finite s m e =>
      if 0 <=? e then x
      else
        let n := (cond_Zopp s (Z.pos m) + 2 ^ (- e - 1)) / 2 ^ (- e) in
        binary_normalize prec emax n 0 s
  | _ => x
  end.

(** Integral part of a finite number (zero otherwise); used to print the
    integral numbers that appear in messages. *)
Definition trunc (x : number) : Z :=
  match x with
  | S754_finite s m e =>
      cond_Zopp s (if 0 <=? e then Z.pos m * 2 ^ e else Z.pos m / 2 ^ (- e))
  | _ => 0
  end.

End Number.
Export Number.



(** ** JavaScript values, thrown values and completions *)

Inductive JSValue : Type :=
| VUndefined
| VNull
| VBoolean (b : bool)
| VNumber (n : number)
| VString (s : string).

(** [!!v] *)
Definition truthy (v : JSValue) : bool :=
  match v with
  | VUndefined | VNull => false
  | VBoolean b => b
  | VNumber n =>
      match n with
      | S754_zero _ | S754_nan => false
      | _ => true
      end
  | VString s => negb (s =? "")%string
  end.

(** [typeof v] *)
Definition typeof (v : JSValue) : string :=
  match v with
  | VUndefined => "undefined"
  | VNull => "object"
  | VBoolean _ => "boolean"
  | VNumber _ => "number"
  | VString _ => "string"
  end.

(** What a [throw] or a rejected promise carries: an [Error] object with
    its [message], or any other value. *)
Inductive Thrown : Type :=
| ErrorObject (message : string)
| NonError (v : JSValue).

Definition Error (message : string) : Thrown := ErrorObject message.

Inductive completion (A : Type) : Type :=
| Return (a : A)
| Throw (e : Thrown).
Arguments Return {A} a.
Arguments Throw {A} e.

(** Sequencing of statements that may throw. *)
Definition andThen {A B : Type} (c : completion A) (k : A -> completion B)
  : completion B :=
  match c with
  | Return a => k a
  | Throw e => Throw e
  end.

Declare Scope js_scope.
Delimit Scope js_scope with js.
Notation "c1 ;;; c2" := (andThen c1 (fun _ => c2))
  (at level 61, right associativity) : js_scope.

(** ** Strings *)

Definition lower_char (c : ascii) : ascii :=
  let n := N_of_ascii c in
  if ((65 <=? n) && (n <=? 90))%N then ascii_of_N (n + 32) else c.

(** [s.toLowerCase()].  Code units outside A-Z are left as they are; the
    characters beyond ASCII that JavaScript would change never lower-case to
    a letter of a supported format name. *)
Fixpoint toLowerCase (s : string) : string :=
  match s with
  | EmptyString => EmptyString
  | String c s' => String (lower_char c) (toLowerCase s')
  end.

(** [xs.includes(x)] *)
Definition includes (xs : list string) (x : string) : bool :=
  existsb (String.eqb x) xs.

(** [xs.join(sep)] *)
Definition join (sep : string) (xs : list string) : string :=
  String.concat sep xs.

(** Decimal rendering of an integer, as template literals print integral
    numbers. *)
Definition string_of_Z (z : Z) : string :=
  DecimalString.NilZero.string_of_int (Z.to_int z).

(** ** ImageValidation *)

Module ImageValidation.

Definition dimensionsNotPositive : string :=
  "Image dimensions must be positive numbers".
Definition dimensionsNotIntegers : string :=
  "Image dimensions must be integers".
Definition dimensionsTooLarge : string :=
  "Image dimensions exceed maximum allowed size (10000px)".

Definition validateDimensions (width height : number) : completion unit :=
  if le width (of_Z 0) || le height (of_Z 0) then
    Throw (Error dimensionsNotPositive)
  else if negb (isInteger width) || negb (isInteger height) then
    Throw (Error dimensionsNotIntegers)
  else if gt width (of_Z 10000) || gt height (of_Z 10000) then
    Throw (Error dimensionsTooLarge)
  else Return tt.

Definition supportedFormats : list string :=
  ["jpeg"; "jpg"; "png"; "webp"; "bmp"]%string.

Definition formatNotAString : string :=
  "Image format must be a non-empty string".

Definition unsupportedFormat (format : string) : string :=
  "Unsupported image format: " ++ format ++ ". Supported: "
    ++ join ", " supportedFormats.

(** The parameter is typed [string] but the first guard also handles the
    values a caller can pass through [as any]. *)
Definition validateFormat (format : JSValue) : completion unit :=
  if negb (truthy format) || negb (typeof format =? "string")%string then
    Throw (Error formatNotAString)
  else
    match format with
    | VString s =>
        if negb (includes supportedFormats (toLowerCase s)) then
          Throw (Error (unsupportedFormat s))
        else Return tt
    | _ => Throw (Error "format.toLowerCase is not a function")
    end.

Definition maxSizeInBytes : number :=
  mul (mul (of_Z 50) (of_Z 1024)) (of_Z 1024).

Definition fileSizeNotPositive : string := "File size must be positive".

Definition fileSizeTooLarge : string :=
  "File size exceeds maximum allowed ("
    ++ string_of_Z (trunc (div (div maxSizeInBytes (of_Z 1024)) (of_Z 1024)))
    ++ "MB)".

Definition validateFileSize (sizeInBytes : number) : completion unit :=
  if le sizeInBytes (of_Z 0) then Throw (Error fileSizeNotPositive)
  else if gt sizeInBytes maxSizeInBytes then Throw (Error fileSizeTooLarge)
  else Return tt.

Definition factorNotFinite : string :=
  "Upscale factor must be a finite number".
Definition factorTooSmall : string :=
  "Upscale factor must be greater than 1".
Definition factorTooLarge : string :=
  "Upscale factor cannot exceed 4x for performance reasons".

Definition validateUpscaleFactor (factor : number) : completion unit :=
  if negb (isFinite factor) then Throw (Error factorNotFinite)
  else if le factor (of_Z 1) then Throw (Error factorTooSmall)
  else if gt factor (of_Z 4) then Throw (Error factorTooLarge)
  else Return tt.

End ImageValidation.

(** ** ImageDimensions *)

Module ImageDimensions.

Record t : Type := mk { _width : number; _height : number }.

(** The constructor: validation, then the two assignments. *)
Definition new (width height : number) : completion t :=
  (ImageValidation.validateDimensions width height ;;;
   Return {| _width := width; _height := height |})%js.

Definition width (this : t) : number := _width this.
Definition height (this : t) : number := _height this.

Definition aspectRatio (this : t) : number :=
  div (_width this) (_height this).

Definition equals (this other : t) : bool :=
  SFeqb (_width this) (width other) && SFeqb (_height this) (height other).

(** Both fields are validated integers, which print in decimal. *)
Definition toString (this : t) : string :=
  string_of_Z (trunc (_width this)) ++ "x" ++ string_of_Z (trunc (_height this)).

End ImageDimensions.

(** ** The outside world: clock, randomness, port calls *)

Definition Buffer : Type := list Byte.byte.

(** [File | string | Buffer] *)
Inductive ImageInput : Type :=
| InputFile (name : string) (content : Buffer)
| InputUrl (url : string)
| InputBuffer (bytes : Buffer).

(** A [Date] is its time value, in milliseconds. *)
Definition Date : Type := Z.

(** [clock] and [entropy] are what successive readings of the clock and of
    the random generator return; [ticks] and [draws] count the readings
    made so far.  The two logs record the calls made on the ports. *)
Record World : Type := {
  clock : nat -> Z;
  ticks : nat;
  entropy : nat -> string;
  draws : nat;
  loaderCalls : list ImageInput;
  enhancerCalls : list (Buffer * number)
}.

(** ** Statements: state and exceptions *)

(** A statement run in state [S] completes normally or abruptly and leaves a
    state; what was written before a [throw] stays written. *)
Definition M (S A : Type) : Type := S -> completion A * S.

Definition ret {S A : Type} (a : A) : M S A := fun s => (Return a, s).

Definition bind {S A B : Type} (m : M S A) (k : A -> M S B) : M S B :=
  fun s =>
    match m s with
    | (Return a, s') => k a s'
    | (Throw e, s') => (Throw e, s')
    end.

Definition throw {S A : Type} (e : Thrown) : M S A := fun s => (Throw e, s).

Definition gets {S A : Type} (f : S -> A) : M S A := fun s => (Return (f s), s).

Definition modify {S : Type} (f : S -> S) : M S unit :=
  fun s => (Return tt, f s).

(** A pure computation that may throw, used as a statement. *)
Definition eval {S A : Type} (c : completion A) : M S A := fun s => (c, s).

Notation "x <- m ;; k" := (bind m (fun x => k))
  (at level 61, m at next level, right associativity) : js_scope.
Notation "m ;; k" := (bind m (fun _ => k))
  (at level 61, right associativity) : js_scope.

(** [Date.now()] *)
Definition Date_now : M World Z :=
  fun w =>
    (Return (clock w (ticks w)),
     {| clock := clock w; ticks := S (ticks w);
        entropy := entropy w; draws := draws w;
        loaderCalls := loaderCalls w; enhancerCalls := enhancerCalls w |}).

(** [new Date()] *)
Definition new_Date : M World Date := Date_now.

(** [Math.random().toString(36).substr(2, 9)] *)
Definition Math_random_chunk : M World string :=
  fun w =>
    (Return (entropy w (draws w)),
     {| clock := clock w; ticks := ticks w;
        entropy := entropy w; draws := S (draws w);
        loaderCalls := loaderCalls w; enhancerCalls := enhancerCalls w |}).

(** ** Image *)

Module Image.

Record t : Type := mk {
  _id : string;
  _width : number;
  _height : number;
  _format : string;
  _sizeInBytes : number;
  _createdAt : Date
}.

Definition new (id : string) (width height : number) (format : string)
    (sizeInBytes : number) : M World t :=
  (eval (ImageValidation.validateDimensions width height) ;;
   eval (ImageValidation.validateFormat (VString format)) ;;
   eval (ImageValidation.validateFileSize sizeInBytes) ;;
   createdAt <- new_Date ;;
   ret {| _id := id; _width := width; _height := height;
          _format := format; _sizeInBytes := sizeInBytes;
          _createdAt := createdAt |})%js.

Definition id (this : t) : string := _id this.
Definition width (this : t) : number := _width this.
Definition height (this : t) : number := _height this.
Definition format (this : t) : string := _format this.
Definition sizeInBytes (this : t) : number := _sizeInBytes this.
Definition createdAt (this : t) : Date := _createdAt this.

Definition aspectRatio (this : t) : number :=
  div (_width this) (_height this).

Definition megapixels (this : t) : number :=
  div (mul (_width this) (_height this)) (of_Z 1000000).

Definition isLowResolution (this : t) : bool :=
  lt (megapixels this) (of_Z 1).

Definition canBeUpscaled (this : t) : bool :=
  lt (_width this) (of_Z 4000) && lt (_height this) (of_Z 4000).

Definition getUpscaledDimensions (this : t) (factor : number)
  : completion ImageDimensions.t :=
  (ImageValidation.validateUpscaleFactor factor ;;;
   ImageDimensions.new
     (Math_round (mul (_width this) factor))
     (Math_round (mul (_height this) factor)))%js.

End Image.

(** ** ProcessingJob *)

Inductive ProcessingStatus : Type :=
| PENDING
| IN_PROGRESS
| COMPLETED
| FAILED.

Definition ProcessingStatus_eqb (a b : ProcessingStatus) : bool :=
  match a, b with
  | PENDING, PENDING | IN_PROGRESS, IN_PROGRESS
  | COMPLETED, COMPLETED | FAILED, FAILED => true
  | _, _ => false
  end.

Module ProcessingJob.

Record t : Type := mk {
  _id : string;
  _sourceImage : Image.t;
  _status : ProcessingStatus;
  _enhancedDimensions : option ImageDimensions.t;
  _processingTimeMs : option number;
  _errorMessage : option string;
  _createdAt : Date;
  _completedAt : option Date
}.

(** Assignments to the mutable fields. *)
Definition set_status (v : ProcessingStatus) (j : t) : t :=
  mk (_id j) (_sourceImage j) v (_enhancedDimensions j)
     (_processingTimeMs j) (_errorMessage j) (_createdAt j) (_completedAt j).
Definition set_enhancedDimensions (v : option ImageDimensions.t) (j : t) : t :=
  mk (_id j) (_sourceImage j) (_status j) v
     (_processingTimeMs j) (_errorMessage j) (_createdAt j) (_completedAt j).
Definition set_processingTimeMs (v : option number) (j : t) : t :=
  mk (_id j) (_sourceImage j) (_status j) (_enhancedDimensions j)
     v (_errorMessage j) (_createdAt j) (_completedAt j).
Definition set_errorMessage (v : option string) (j : t) : t :=
  mk (_id j) (_sourceImage j) (_status j) (_enhancedDimensions j)
     (_processingTimeMs j) v (_createdAt j) (_completedAt j).
Definition set_completedAt (v : option Date) (j : t) : t :=
  mk (_id j) (_sourceImage j) (_status j) (_enhancedDimensions j)
     (_processingTimeMs j) (_errorMessage j) (_createdAt j) v.

Definition new (id : string) (sourceImage : Image.t) : M World t :=
  (createdAt <- new_Date ;;
   ret {| _id := id; _sourceImage := sourceImage; _status := PENDING;
          _enhancedDimensions := None; _processingTimeMs := None;
          _errorMessage := None; _createdAt := createdAt;
          _completedAt := None |})%js.

Definition id (this : t) : string := _id this.
Definition sourceImage (this : t) : Image.t := _sourceImage this.
Definition status (this : t) : ProcessingStatus := _status this.
Definition enhancedDimensions (this : t) : option ImageDimensions.t :=
  _enhancedDimensions this.
Definition processingTimeMs (this : t) : option number :=
  _processingTimeMs this.
Definition errorMessage (this : t) : option string := _errorMessage this.
Definition createdAt (this : t) : Date := _createdAt this.
Definition completedAt (this : t) : option Date := _completedAt this.

Definition isCompleted (this : t) : bool :=
  ProcessingStatus_eqb (_status this) COMPLETED.
Definition hasFailed (this : t) : bool :=
  ProcessingStatus_eqb (_status this) FAILED.

(** A method runs on the receiver and the world. *)
Definition method (A : Type) : Type := M (t * World) A.

Definition this {A : Type} (f : t -> A) : method A :=
  gets (fun s => f (fst s)).
Definition assign (f : t -> t) : method unit :=
  modify (fun s => (f (fst s), snd s)).
Definition in_world {A : Type} (m : M World A) : method A :=
  fun s => let (r, w) := m (snd s) in (r, (fst s, w)).

Definition startFromOtherStatus : string :=
  "Job can only be started from PENDING status".
Definition completeFromOtherStatus : string :=
  "Job must be IN_PROGRESS to complete".
Definition failFromOtherStatus : string :=
  "Job must be IN_PROGRESS to fail".

Definition startProcessing : method unit :=
  (s <- this _status ;;
   if negb (ProcessingStatus_eqb s PENDING) then
     throw (Error startFromOtherStatus)
   else
     assign (set_status IN_PROGRESS))%js.

Definition completeSuccessfully (enhancedDimensions : ImageDimensions.t)
    (processingTimeMs : number) : method unit :=
  (s <- this _status ;;
   if negb (ProcessingStatus_eqb s IN_PROGRESS) then
     throw (Error completeFromOtherStatus)
   else
     assign (set_status COMPLETED) ;;
     assign (set_enhancedDimensions (Some enhancedDimensions)) ;;
     assign (set_processingTimeMs (Some processingTimeMs)) ;;
     now <- in_world new_Date ;;
     assign (set_completedAt (Some now)))%js.

Definition fail (errorMessage : string) : method unit :=
  (s <- this _status ;;
   if negb (ProcessingStatus_eqb s IN_PROGRESS) then
     throw (Error failFromOtherStatus)
   else
     assign (set_status FAILED) ;;
     assign (set_errorMessage (Some errorMessage)) ;;
     now <- in_world new_Date ;;
     assign (set_completedAt (Some now)))%js.

End ProcessingJob.

(** ** Ports and the types of the use case *)

Record LoadedImageData : Type := {
  data : Buffer;
  width : number;
  height : number;
  format : string;
  sizeBytes : number
}.

Record SuperResolutionResult : Type := {
  enhancedImageData : Buffer;
  processingTimeMs : number
}.

(** A port call is awaited: the promise settles fulfilled ([Return]) or
    rejected ([Throw]). *)
Definition ImageLoaderPort : Type := ImageInput -> completion LoadedImageData.
Definition SuperResolutionPort : Type :=
  Buffer -> number -> completion SuperResolutionResult.

Module EnhanceImageRequest.
Record t : Type := mk {
  imageInput : ImageInput;
  upscaleFactor : option number
}.
End EnhanceImageRequest.

Module EnhanceImageResponse.
Record t : Type := mk {
  success : bool;
  enhancedImageData : option Buffer;
  originalImage : option Image.t;
  job : option ProcessingJob.t;
  enhancedDimensions : option ImageDimensions.t;
  processingTimeMs : number;
  errorMessage : option string
}.
End EnhanceImageResponse.

(** ** EnhanceImageUseCase *)

Module EnhanceImageUseCase.

(** The two [let] variables of [execute] that the [catch] clause reads,
    and the world. *)
Record Frame : Type := {
  originalImage : option Image.t;
  job : option ProcessingJob.t;
  world : World
}.

Definition in_world {A : Type} (m : M World A) : M Frame A :=
  fun fr =>
    let (r, w) := m (world fr) in
    (r, {| originalImage := originalImage fr; job := job fr; world := w |}).

Definition set_originalImage (i : Image.t) : M Frame unit :=
  modify (fun fr =>
    {| originalImage := Some i; job := job fr; world := world fr |}).

Definition set_job (j : ProcessingJob.t) : M Frame unit :=
  modify (fun fr =>
    {| originalImage := originalImage fr; job := Some j; world := world fr |}).

(** A method call on the object held by [job]; on [undefined] the call
    itself is a TypeError. *)
Definition on_job {A : Type} (m : ProcessingJob.method A) : M Frame A :=
  fun fr =>
    match job fr with
    | Some j =>
        match m (j, world fr) with
        | (r, (j', w)) =>
            (r, {| originalImage := originalImage fr; job := Some j';
                   world := w |})
        end
    | None =>
        (Throw (Error "Cannot read properties of undefined"), fr)
    end.

Section UseCase.

Variable imageLoader : ImageLoaderPort.
Variable superResolution : SuperResolutionPort.

(** [await this.imageLoader.loadImage(input)] *)
Definition loadImage (input : ImageInput) : M World LoadedImageData :=
  fun w =>
    (imageLoader input,
     {| clock := clock w; ticks := ticks w;
        entropy := entropy w; draws := draws w;
        loaderCalls := loaderCalls w ++ [input];
        enhancerCalls := enhancerCalls w |}).

(** [await this.superResolution.enhanceImage(imageData, upscaleFactor)] *)
Definition enhanceImage (imageData : Buffer) (upscaleFactor : number)
  : M World SuperResolutionResult :=
  fun w =>
    (superResolution imageData upscaleFactor,
     {| clock := clock w; ticks := ticks w;
        entropy := entropy w; draws := draws w;
        loaderCalls := loaderCalls w;
        enhancerCalls := enhancerCalls w ++ [(imageData, upscaleFactor)] |}).

Definition generateImageId : M World string :=
  (now <- Date_now ;;
   chunk <- Math_random_chunk ;;
   ret ("img-" ++ string_of_Z now ++ "-" ++ chunk)%string)%js.

Definition generateJobId : M World string :=
  (now <- Date_now ;;
   chunk <- Math_random_chunk ;;
   ret ("job-" ++ string_of_Z now ++ "-" ++ chunk)%string)%js.

(** [Date.now() - startTime] *)
Definition elapsed (now startTime : Z) : number :=
  sub (of_Z now) (of_Z startTime).

(** The [try] block. *)
Definition try_block (request : EnhanceImageRequest.t) (startTime : Z)
    (upscaleFactor : number) : M Frame EnhanceImageResponse.t :=
  ((* 1. Validate upscale factor *)
   eval (ImageValidation.validateUpscaleFactor upscaleFactor) ;;
   (* 2. Load original image *)
   loadedImage <- in_world (loadImage (EnhanceImageRequest.imageInput request)) ;;
   (* 3. Validate image dimensions *)
   eval (ImageValidation.validateDimensions (width loadedImage) (height loadedImage)) ;;
   eval (ImageValidation.validateFileSize (sizeBytes loadedImage)) ;;
   eval (ImageValidation.validateFormat (VString (format loadedImage))) ;;
   (* 4. Create image entity *)
   imageId <- in_world generateImageId ;;
   image <- in_world (Image.new imageId (width loadedImage) (height loadedImage)
                        (format loadedImage) (sizeBytes loadedImage)) ;;
   set_originalImage image ;;
   (* 5. Create processing job *)
   jobId <- in_world generateJobId ;;
   j <- in_world (ProcessingJob.new jobId image) ;;
   set_job j ;;
   (* 6. Start processing *)
   on_job ProcessingJob.startProcessing ;;
   (* 7. Enhance image with AI *)
   result <- in_world (enhanceImage (data loadedImage) upscaleFactor) ;;
   (* 8. Calculate enhanced dimensions *)
   enhancedDimensions <- eval (Image.getUpscaledDimensions image upscaleFactor) ;;
   (* 9. Complete job successfully *)
   now <- in_world Date_now ;;
   let totalProcessingTime := elapsed now startTime in
   on_job (ProcessingJob.completeSuccessfully enhancedDimensions totalProcessingTime) ;;
   finished <- gets job ;;
   ret {| EnhanceImageResponse.success := true;
          EnhanceImageResponse.enhancedImageData := Some (enhancedImageData result);
          EnhanceImageResponse.originalImage := Some image;
          EnhanceImageResponse.job := finished;
          EnhanceImageResponse.enhancedDimensions := Some enhancedDimensions;
          EnhanceImageResponse.processingTimeMs := totalProcessingTime;
          EnhanceImageResponse.errorMessage := None |})%js.

(** [error instanceof Error ? error.message : 'Unknown error'] *)
Definition messageOf (error : Thrown) : string :=
  match error with
  | ErrorObject message => message
  | NonError _ => "Unknown error"
  end.

(** The [catch] clause. *)
Definition catch_clause (error : Thrown) (startTime : Z)
  : M Frame EnhanceImageResponse.t :=
  (now <- in_world Date_now ;;
   let processingTime := elapsed now startTime in
   let errorMessage := messageOf error in
   (* job?.fail(errorMessage) *)
   current <- gets job ;;
   match current with
   | Some _ => on_job (ProcessingJob.fail errorMessage)
   | None => ret tt
   end ;;
   image <- gets originalImage ;;
   failed <- gets job ;;
   ret {| EnhanceImageResponse.success := false;
          EnhanceImageResponse.enhancedImageData := None;
          EnhanceImageResponse.originalImage := image;
          EnhanceImageResponse.job := failed;
          EnhanceImageResponse.enhancedDimensions := None;
          EnhanceImageResponse.processingTimeMs := processingTime;
          EnhanceImageResponse.errorMessage := Some errorMessage |})%js.

(** [request.upscaleFactor ?? 2] *)
Definition resolveUpscaleFactor (request : EnhanceImageRequest.t) : number :=
  match EnhanceImageRequest.upscaleFactor request with
  | Some factor => factor
  | None => of_Z 2
  end.

(** The frame in which the [try] block is entered: both variables are
    [undefined]. *)
Definition entry (w : World) : Frame :=
  {| originalImage := None; job := None; world := w |}.

(** What [execute] runs before the [try]: the start time is read. *)
Definition enter (w : World) : Z * Frame :=
  (clock w (ticks w), entry (snd (Date_now w))).

(** [execute(request)]: the awaited promise is fulfilled with a response
    ([Return]) or rejected ([Throw]). *)
Definition execute (request : EnhanceImageRequest.t)
  : M World EnhanceImageResponse.t :=
  fun w =>
    let (startTime, frame) := enter w in
    let upscaleFactor := resolveUpscaleFactor request in
    match try_block request startTime upscaleFactor frame with
    | (Return response, fr) => (Return response, world fr)
    | (Throw error, fr) =>
        let (r, fr') := catch_clause error startTime fr in
        (r, world fr')
    end.

(** The world once the loader has been called on the input of a request. *)
Definition loaded (request : EnhanceImageRequest.t) (w : World) : World :=
  snd (loadImage (EnhanceImageRequest.imageInput request) w).

End UseCase.

End EnhanceImageUseCase.

(** ** Histories of a job *)

(** The three transition operations, as a caller invokes them. *)
Inductive Transition : Type :=
| StartProcessing
| CompleteSuccessfully (enhancedDimensions : ImageDimensions.t)
    (processingTimeMs : number)
| Fail (errorMessage : string).

Definition call (c : Transition) : ProcessingJob.method unit :=
  match c with
  | StartProcessing => ProcessingJob.startProcessing
  | CompleteSuccessfully d ms => ProcessingJob.completeSuccessfully d ms
  | Fail msg => ProcessingJob.fail msg
  end.

(** The states of a job that callers can observe: the one the constructor
    leaves, and the one left by any call, successful or not, made on an
    observable state at any moment. *)
Inductive reachable : ProcessingJob.t -> Prop :=
| reachable_new (id : string) (sourceImage : Image.t) (w w' : World)
    (j : ProcessingJob.t) :
    ProcessingJob.new id sourceImage w = (Return j, w') ->
    reachable j
| reachable_call (j j' : ProcessingJob.t) (c : Transition) (w w' : World)
    (r : completion unit) :
    reachable j ->
    call c (j, w) = (r, (j', w')) ->
    reachable j'.

(** A caller's script: the calls are made one after the other, whatever
    each of them answers. *)
Fixpoint run (cs : list Transition) (s : ProcessingJob.t * World)
  : ProcessingJob.t * World :=
  match cs with
  | [] => s
  | c :: cs' => run cs' (snd (call c s))
  end.

(** The error kind of the state machine. *)
Definition InvalidTransition (e : Thrown) : Prop :=
  e = Error ProcessingJob.startFromOtherStatus
  \/ e = Error ProcessingJob.completeFromOtherStatus
  \/ e = Error ProcessingJob.failFromOtherStatus.

(** The invariant tying the optional fields of a job to its status. *)
Definition fields_match_status (j : ProcessingJob.t) : Prop :=
  (ProcessingJob.enhancedDimensions j <> None
     <-> ProcessingJob.status j = COMPLETED)
  /\ (ProcessingJob.processingTimeMs j <> None
     <-> ProcessingJob.status j = COMPLETED)
  /\ (ProcessingJob.errorMessage j <> None
     <-> ProcessingJob.status j = FAILED)
  /\ (ProcessingJob.completedAt j <> None
     <-> ProcessingJob.status j = COMPLETED \/ ProcessingJob.status j = FAILED).

(** ** Sample data *)

Definition sampleWorld : World := {|
  clock := fun n => Z.of_nat n * 250 + 1700000000000;
  ticks := 0;
  entropy := fun _ => "k3x9q1z7m"%string;
  draws := 0;
  loaderCalls := [];
  enhancerCalls := []
|}.

Definition sampleImage : Image.t :=
  Image.mk "img-123" (of_Z 1920) (of_Z 1080) "jpeg" (of_Z 500000) 1700000000000.

Definition sampleJob : ProcessingJob.t :=
  ProcessingJob.mk "job-456" sampleImage PENDING None None None 1700000000000 None.

Definition sampleLargeImage : Image.t :=
  Image.mk "img-5000" (of_Z 5000) (of_Z 5000) "jpeg" (of_Z 2000000) 1700000000000.

(** The factor [(11 * 2^51 - 1) / 3 * 2^(-52)], about 1.8333: three times
    this number is [5.5 - 2^(-52)], which is not a binary64 number. *)
Definition awkwardFactor : number := of_dyadic ((11 * 2 ^ 51 - 1) / 3) 52.

Definition sampleLoadedPng : LoadedImageData := {|
  data := [Byte.x70; Byte.x6e; Byte.x67];
  width := of_Z 400;
  height := of_Z 300;
  format := "png";
  sizeBytes := of_Z 25000
|}.

(** 0.5 *)
Definition half : number := of_dyadic 1 1.

Definition sampleDimensions : ImageDimensions.t :=
  ImageDimensions.mk (of_Z 3840) (of_Z 2160).

Definition sampleLoadedImage : LoadedImageData := {|
  data := [Byte.x74; Byte.x65; Byte.x73; Byte.x74];
  width := of_Z 800;
  height := of_Z 600;
  format := "jpeg";
  sizeBytes := of_Z 50000
|}.

Definition sampleLoader : ImageLoaderPort := fun _ => Return sampleLoadedImage.

Definition sampleResolver : SuperResolutionPort :=
  fun bytes _ =>
    Return {| enhancedImageData := bytes ++ bytes; processingTimeMs := of_Z 1500 |}.

Definition failingResolver : SuperResolutionPort :=
  fun _ _ => Throw (Error "AI processing failed").

Definition sampleRequest : EnhanceImageRequest.t :=
  EnhanceImageRequest.mk (InputUrl "http://example.com/image.jpg") None.

Definition tooLargeFactorRequest : EnhanceImageRequest.t :=
  EnhanceImageRequest.mk (InputBuffer [Byte.x74]) (Some (of_Z 5)).

(** ** Measures on histories *)

(** How far a job is in its life cycle. *)
Definition progress (s : ProcessingStatus) : nat :=
  match s with
  | PENDING => 0
  | IN_PROGRESS => 1
  | COMPLETED | FAILED => 2
  end.

(** The number of calls of a script that are not rejected. *)
Fixpoint successes (cs : list Transition) (s : ProcessingJob.t * World) : nat :=
  match cs with
  | [] => 0
  | c :: cs' =>
      (match fst (call c s) with
       | Return _ => 1
       | Throw _ => 0
       end + successes cs' (snd (call c s)))%nat
  end.

(** A clock that never goes back. *)
Definition monotone (clock : nat -> Z) : Prop :=
  forall n m : nat, (n <= m)%nat -> clock n <= clock m.

(** Readings that are time values a [Date] can hold exactly. *)
Definition time_values (clock : nat -> Z) (upto : nat) : Prop :=
  forall n : nat, (n <= upto)%nat -> 0 <= clock n < 2 ^ 53.

(** ** Further sample data *)

Definition rejectingLoader : ImageLoaderPort :=
  fun _ => Throw (Error "Failed to load image").

(** Data that fail two checks: the size and the format. *)
Definition sampleLoadedTiff : LoadedImageData := {|
  data := [Byte.x74];
  width := of_Z 800;
  height := of_Z 600;
  format := "tiff";
  sizeBytes := of_Z 60000000
|}.

Definition sampleLoadedLarge : LoadedImageData := {|
  data := [Byte.x74];
  width := of_Z 5000;
  height := of_Z 5000;
  format := "jpeg";
  sizeBytes := of_Z 2000000
|}.

Definition factorFourRequest : EnhanceImageRequest.t :=
  EnhanceImageRequest.mk (InputBuffer [Byte.x74]) (Some (of_Z 4)).

(** * Properties *)

(** ** Facts about binary64 numbers *)

Module NumberFacts.

Lemma digits2_pos_size (p : positive) : digits2_pos p = Pos.size p.
Proof. induction p; simpl; congruence. Qed.

Lemma digits2_log2 (p : positive) :
  Z.pos (digits2_pos p) = Z.succ (Z.log2 (Z.pos p)).
Proof.
  rewrite digits2_pos_size.
  destruct p; simpl; try rewrite Pos2Z.inj_succ; reflexivity.
Qed.

Lemma digits2_bounds (p : positive) :
  2 ^ (Z.pos (digits2_pos p) - 1) <= Z.pos p < 2 ^ Z.pos (digits2_pos p).
Proof.
  rewrite digits2_log2.
  replace (Z.succ (Z.log2 (Z.pos p)) - 1) with (Z.log2 (Z.pos p)) by lia.
  apply Z.log2_spec. lia.
Qed.

Lemma digits2_unique (p : positive) (k : Z) :
  2 ^ (k - 1) <= Z.pos p < 2 ^ k -> Z.pos (digits2_pos p) = k.
Proof.
  intros H. rewrite digits2_log2.
  assert (0 <= k - 1).
  { destruct (Z.le_gt_cases 0 (k - 1)) as [|Hneg]; [assumption|].
    assert (k <= 0) by lia.
    assert (2 ^ k <= 2 ^ 0) by (apply Z.pow_le_mono_r; lia).
    simpl in *. lia. }
  rewrite (Z.log2_unique (Z.pos p) (k - 1)); [lia|assumption|].
  replace (Z.succ (k - 1)) with k by lia. assumption.
Qed.


(** *** Right shifts of the rounding procedure *)

Lemma shr_1_m (mrs : shr_record) :
  0 <= shr_m mrs -> shr_m (shr_1 mrs) = shr_m mrs / 2.
Proof.
  destruct mrs as [m r s]. simpl. intros Hm.
  destruct m as [|p|p]; [reflexivity| |lia].
  destruct p as [p|p|]; simpl.
  - apply Z.div_unique with 1; lia.
  - apply Z.div_unique with 0; lia.
  - reflexivity.
Qed.

Lemma iter_shr_1_m (n : positive) :
  forall mrs, 0 <= shr_m mrs ->
    shr_m (iter_pos shr_1 n mrs) = shr_m mrs / 2 ^ Z.pos n.
Proof.
  induction n as [n IH|n IH|]; intros mrs Hm; simpl iter_pos.
  - assert (H1 : 0 <= shr_m (shr_1 mrs))
      by (rewrite shr_1_m by assumption; apply Z.div_pos; lia).
    assert (H2 : 0 <= shr_m (iter_pos shr_1 n (shr_1 mrs)))
      by (rewrite IH by assumption; apply Z.div_pos; lia).
    rewrite IH, IH, shr_1_m by assumption.
    rewrite !Z.div_div by lia.
    f_equal.
    replace (Z.pos n~1) with (1 + Z.pos n + Z.pos n) by lia.
    rewrite !Z.pow_add_r by lia. lia.
  - assert (H2 : 0 <= shr_m (iter_pos shr_1 n mrs))
      by (rewrite IH by assumption; apply Z.div_pos; lia).
    rewrite IH, IH by assumption.
    rewrite !Z.div_div by lia.
    f_equal.
    replace (Z.pos n~0) with (Z.pos n + Z.pos n) by lia.
    rewrite !Z.pow_add_r by lia. lia.
  - rewrite shr_1_m by assumption. reflexivity.
Qed.

Lemma shr_spec (mrs mrs' : shr_record) (e e' n : Z) :
  0 <= shr_m mrs ->
  shr mrs e n = (mrs', e') ->
  shr_m mrs' = shr_m mrs / 2 ^ Z.max 0 n /\ e' = e + Z.max 0 n.
Proof.
  intros Hm. unfold shr. destruct n as [|p|p]; intros H; inversion H; subst.
  - simpl. rewrite Z.div_1_r. lia.
  - rewrite iter_shr_1_m by assumption. rewrite Z.max_r by lia. lia.
  - simpl. rewrite Z.div_1_r. lia.
Qed.

Lemma shr_m_of_loc (m : Z) (l : location) :
  shr_m (shr_record_of_loc m l) = m.
Proof. destruct l as [|[ | | ]]; reflexivity. Qed.

Lemma shr_fexp_spec (m e : Z) (l : location) (mrs' : shr_record) (e' : Z) :
  0 <= m ->
  shr_fexp prec emax m e l = (mrs', e') ->
  let n := Z.max 0 (fexp prec emax (Zdigits2 m + e) - e) in
  shr_m mrs' = m / 2 ^ n /\ e' = e + n.
Proof.
  intros Hm H. unfold shr_fexp in H.
  apply shr_spec in H; rewrite shr_m_of_loc in *; assumption.
Qed.

Lemma round_nearest_even_bounds (m : Z) (l : location) :
  m <= round_nearest_even m l <= m + 1.
Proof.
  destruct l as [|[ | | ]]; simpl; try lia.
  destruct (Z.even m); lia.
Qed.


(** *** Rounding a mantissa of at least 53 bits *)

(** A mantissa [M] of [d >= 53] bits at exponent [E] rounds to a normal
    number: a 53-bit mantissa at exponent [E + d - 53], or one more when
    the rounding carries. *)
Lemma binary_round_aux_normal (s : bool) (M : positive) (E : Z) (l : location) :
  2 ^ 52 <= Z.pos M ->
  -1074 <= E ->
  E + Z.pos (digits2_pos M) <= 1023 ->
  exists m e,
    binary_round_aux prec emax s (Z.pos M) E l = S754_finite s m e
    /\ 2 ^ 52 <= Z.pos m < 2 ^ 53
    /\ E + Z.pos (digits2_pos M) - 53 <= e <= E + Z.pos (digits2_pos M) - 52.
Proof.
  intros HM HE Hmax.
  pose proof (digits2_bounds M) as Hd.
  set (d := Z.pos (digits2_pos M)) in *.
  assert (Hd53 : 53 <= d).
  { destruct (Z.le_gt_cases 53 d) as [|Hlt]; [assumption|].
    assert (2 ^ d <= 2 ^ 52) by (apply Z.pow_le_mono_r; lia). lia. }
  unfold binary_round_aux.
  destruct (shr_fexp prec emax (Z.pos M) E l) as [mrs1 e1] eqn:H1.
  apply shr_fexp_spec in H1; [|lia].
  cbv zeta in H1. simpl Zdigits2 in H1. fold d in H1.
  replace (Z.max 0 (fexp prec emax (d + E) - E)) with (d - 53) in H1
    by (unfold fexp, emin, prec, emax; lia).
  destruct H1 as [Hm1 He1].
  assert (Hb1 : 2 ^ 52 <= shr_m mrs1 < 2 ^ 53).
  { rewrite Hm1. split.
    - apply Z.div_le_lower_bound; [apply Z.pow_pos_nonneg; lia|].
      rewrite <- Z.pow_add_r by lia.
      replace (d - 53 + 52) with (d - 1) by lia. lia.
    - apply Z.div_lt_upper_bound; [apply Z.pow_pos_nonneg; lia|].
      rewrite <- Z.pow_add_r by lia.
      replace (d - 53 + 53) with d by lia. lia. }
  pose proof (round_nearest_even_bounds (shr_m mrs1) (loc_of_shr_record mrs1)) as Hr.
  set (m2 := round_nearest_even (shr_m mrs1) (loc_of_shr_record mrs1)) in *.
  destruct (shr_fexp prec emax m2 e1 loc_Exact) as [mrs2 e2] eqn:H2.
  apply shr_fexp_spec in H2; [|lia].
  cbv zeta in H2.
  destruct m2 as [|p2|p2]; try lia.
  simpl Zdigits2 in H2.
  destruct (Z.eq_dec (Z.pos p2) (2 ^ 53)) as [Hcarry|Hnocarry].
  - assert (Hd2 : Z.pos (digits2_pos p2) = 54)
      by (apply digits2_unique; rewrite Hcarry; simpl; lia).
    rewrite Hd2 in H2.
    replace (Z.max 0 (fexp prec emax (54 + e1) - e1)) with 1 in H2
      by (unfold fexp, emin, prec, emax; lia).
    destruct H2 as [Hm2 He2]. rewrite Hcarry in Hm2.
    change (2 ^ 53 / 2 ^ 1) with (2 ^ 52) in Hm2.
    rewrite Hm2. change (2 ^ 52) with (Z.pos (2 ^ 52)%positive).
    cbv iota.
    replace (e2 <=? emax - prec) with true
      by (symmetry; apply Z.leb_le; unfold emax, prec; lia).
    eexists _, _. split; [reflexivity|].
    split; [simpl; lia | lia].
  - assert (Hd2 : Z.pos (digits2_pos p2) = 53)
      by (apply digits2_unique; simpl; lia).
    rewrite Hd2 in H2.
    replace (Z.max 0 (fexp prec emax (53 + e1) - e1)) with 0 in H2
      by (unfold fexp, emin, prec, emax; lia).
    destruct H2 as [Hm2 He2].
    change (2 ^ 0) with 1 in Hm2. rewrite Z.div_1_r in Hm2.
    rewrite Hm2. cbv iota.
    replace (e2 <=? emax - prec) with true
      by (symmetry; apply Z.leb_le; unfold emax, prec; lia).
    eexists _, _. split; [reflexivity|].
    split; lia.
Qed.

(** A normal mantissa within the exponent range is already rounded. *)
Lemma shr_fexp_exact (m : positive) (e : Z) :
  Z.pos (digits2_pos m) = 53 ->
  -1074 <= e ->
  shr_fexp prec emax (Z.pos m) e loc_Exact
  = ({| shr_m := Z.pos m; shr_r := false; shr_s := false |}, e).
Proof.
  intros Hd He. unfold shr_fexp. cbn [Zdigits2]. rewrite Hd.
  replace (fexp prec emax (53 + e) - e) with 0
    by (unfold fexp, emin, prec, emax; lia).
  reflexivity.
Qed.

Lemma binary_round_aux_exact (s : bool) (m : positive) (e : Z) :
  2 ^ 52 <= Z.pos m < 2 ^ 53 ->
  -1074 <= e <= 971 ->
  binary_round_aux prec emax s (Z.pos m) e loc_Exact = S754_finite s m e.
Proof.
  intros Hm He.
  assert (Hd : Z.pos (digits2_pos m) = 53) by (apply digits2_unique; simpl; lia).
  unfold binary_round_aux.
  rewrite shr_fexp_exact by (assumption || lia).
  cbn [shr_m loc_of_shr_record round_nearest_even].
  rewrite shr_fexp_exact by (assumption || lia).
  cbn [shr_m].
  replace (e <=? emax - prec) with true
    by (symmetry; apply Z.leb_le; unfold emax, prec; lia).
  reflexivity.
Qed.


(** *** Integers as numbers *)

Lemma iter_xO_pow (m p : positive) :
  Z.pos (Pos.iter xO m p) = Z.pos m * 2 ^ Z.pos p.
Proof.
  induction p as [|p IH] using Pos.peano_ind.
  - simpl. lia.
  - rewrite Pos.iter_succ, Pos2Z.inj_xO, IH, Pos2Z.inj_succ.
    rewrite Z.pow_succ_r by lia. lia.
Qed.

Lemma shl_align_spec (mx : positive) (ex ex' : Z) :
  ex' <= ex ->
  Z.pos (fst (shl_align mx ex ex')) = Z.pos mx * 2 ^ (ex - ex')
  /\ snd (shl_align mx ex ex') = ex'.
Proof.
  intros Hle. unfold shl_align.
  destruct (ex' - ex) as [|q|q] eqn:Hq; simpl fst; simpl snd.
  - replace (ex - ex') with 0 by lia. simpl. lia.
  - lia.
  - rewrite iter_xO_pow. replace (ex - ex') with (Z.pos q) by lia. lia.
Qed.

(** The number denoting a positive integer below [2^53] is normal and
    holds the integer exactly. *)
Lemma binary_round_integer (s : bool) (n : positive) :
  Z.pos n < 2 ^ 53 ->
  exists m e,
    binary_round prec emax s n 0 = S754_finite s m e
    /\ 2 ^ 52 <= Z.pos m < 2 ^ 53
    /\ -52 <= e <= 0
    /\ Z.pos m = Z.pos n * 2 ^ (- e).
Proof.
  intros Hn.
  pose proof (digits2_bounds n) as Hd.
  assert (Hd1 : 1 <= Z.pos (digits2_pos n)) by lia.
  assert (Hd53 : Z.pos (digits2_pos n) <= 53).
  { destruct (Z.le_gt_cases (Z.pos (digits2_pos n)) 53) as [|Hgt]; [assumption|].
    assert (2 ^ 53 <= 2 ^ (Z.pos (digits2_pos n) - 1))
      by (apply Z.pow_le_mono_r; lia). lia. }
  unfold binary_round.
  set (d := Z.pos (digits2_pos n)) in *.
  replace (fexp prec emax (d + 0)) with (d - 53)
    by (unfold fexp, emin, prec, emax; lia).
  destruct (shl_align_spec n 0 (d - 53)) as [Hm He]; [lia|].
  destruct (shl_align n 0 (d - 53)) as [mz ez]. cbn [fst snd] in Hm, He. subst ez.
  replace (0 - (d - 53)) with (53 - d) in Hm by lia.
  assert (Hb : 2 ^ 52 <= Z.pos mz < 2 ^ 53).
  { rewrite Hm.
    replace (2 ^ 52) with (2 ^ (d - 1) * 2 ^ (53 - d))
      by (rewrite <- Z.pow_add_r by lia; f_equal; lia).
    replace (2 ^ 53) with (2 ^ d * 2 ^ (53 - d))
      by (rewrite <- Z.pow_add_r by lia; f_equal; lia).
    assert (0 < 2 ^ (53 - d)) by (apply Z.pow_pos_nonneg; lia).
    split; [apply Z.mul_le_mono_nonneg_r | apply Z.mul_lt_mono_pos_r]; lia. }
  rewrite binary_round_aux_exact by (assumption || lia).
  exists mz, (d - 53). split; [reflexivity|].
  split; [assumption|]. split; [lia|].
  rewrite Hm. f_equal. f_equal. lia.
Qed.


(** A finite number whose mantissa is a multiple of [2^(-e)] is integral. *)
Lemma isInteger_multiple (s : bool) (m : positive) (e k : Z) :
  Z.pos m = k * 2 ^ (- e) -> isInteger (S754_finite s m e) = true.
Proof.
  intros H. simpl. apply orb_true_iff.
  destruct (Z.leb_spec 0 e) as [|Hneg]; [left; reflexivity|right].
  apply Z.eqb_eq. rewrite H. apply Z.mod_mul.
  apply Z.pow_nonzero; lia.
Qed.

(** *** Literals *)

Lemma of_Z_0 : of_Z 0 = S754_zero false.
Proof. reflexivity. Qed.

Lemma of_Z_1 : of_Z 1 = S754_finite false (2 ^ 52) (-52).
Proof. reflexivity. Qed.

Lemma of_Z_4 : of_Z 4 = S754_finite false (2 ^ 52) (-50).
Proof. reflexivity. Qed.

Lemma of_Z_10000 : of_Z 10000 = S754_finite false (10000 * 2 ^ 39) (-39).
Proof. reflexivity. Qed.

Lemma maxSizeInBytes_value : ImageValidation.maxSizeInBytes = of_Z 52428800.
Proof. reflexivity. Qed.

(** *** Comparisons *)

Lemma SFcompare_antisym (x y : number) :
  SFcompare y x = option_map CompOpp (SFcompare x y).
Proof.
  destruct x as [sx|sx| |sx mx ex], y as [sy|sy| |sy my ey];
    try (destruct sx); try (destruct sy); try reflexivity;
    simpl; rewrite (Z.compare_antisym ex ey);
    destruct (ex ?= ey); simpl; try reflexivity;
    change (Pos.compare_cont Eq my mx) with (Pos.compare my mx);
    change (Pos.compare_cont Eq mx my) with (Pos.compare mx my);
    rewrite (Pos.compare_antisym mx my);
    destruct (mx ?= my)%positive; reflexivity.
Qed.

Lemma SFcompare_total (x y : number) :
  x <> NaN -> y <> NaN -> exists c, SFcompare x y = Some c.
Proof.
  intros Hx Hy. unfold NaN in *.
  destruct x, y; try congruence; simpl; eexists; reflexivity.
Qed.

(** Without NaN the order is total: [not (x > y)] is [x <= y]. *)
Lemma gt_false_iff_le (x y : number) :
  x <> NaN -> y <> NaN -> (gt x y = false <-> le x y = true).
Proof.
  intros Hx Hy. unfold gt, le, SFltb, SFleb.
  rewrite (SFcompare_antisym x y).
  destruct (SFcompare_total x y Hx Hy) as [c ->].
  destruct c; simpl; split; congruence.
Qed.

Lemma le_false_iff_gt (x y : number) :
  x <> NaN -> y <> NaN -> (le x y = false <-> gt x y = true).
Proof.
  intros Hx Hy. unfold gt, le, SFltb, SFleb.
  rewrite (SFcompare_antisym x y).
  destruct (SFcompare_total x y Hx Hy) as [c ->].
  destruct c; simpl; split; congruence.
Qed.

Lemma isInteger_not_NaN (x : number) : isInteger x = true -> x <> NaN.
Proof. unfold NaN. destruct x; simpl; congruence. Qed.

Lemma isFinite_not_NaN (x : number) : isFinite x = true -> x <> NaN.
Proof. unfold NaN. destruct x; simpl; congruence. Qed.

Lemma of_Z_not_NaN_10000 : of_Z 10000 <> NaN.
Proof. rewrite of_Z_10000. discriminate. Qed.

(** *** Integer literals compare as the integers do *)

Lemma of_Z_shape (n : Z) :
  n <> 0 -> Z.abs n < 2 ^ 53 ->
  exists m e,
    of_Z n = S754_finite (n <? 0) m e
    /\ 2 ^ 52 <= Z.pos m < 2 ^ 53
    /\ -52 <= e <= 0
    /\ Z.pos m = Z.abs n * 2 ^ (- e).
Proof.
  intros Hn Hb. destruct n as [|p|p]; [congruence| |];
    unfold of_Z; cbn [binary_normalize Z.ltb Z.compare Z.abs];
    apply binary_round_integer; exact Hb.
Qed.

Lemma scaled_compare (m1 m2 : positive) (e1 e2 n1 n2 : Z) :
  2 ^ 52 <= Z.pos m1 < 2 ^ 53 -> 2 ^ 52 <= Z.pos m2 < 2 ^ 53 ->
  e1 <= 0 -> e2 <= 0 ->
  Z.pos m1 = n1 * 2 ^ (- e1) -> Z.pos m2 = n2 * 2 ^ (- e2) ->
  match e1 ?= e2 with
  | Lt => Lt
  | Gt => Gt
  | Eq => Pos.compare_cont Eq m1 m2
  end = (n1 ?= n2).
Proof.
  intros Hm1 Hm2 He1 He2 Hv1 Hv2.
  assert (Hc1 : 0 < 2 ^ (- e1)) by (apply Z.pow_pos_nonneg; lia).
  assert (Hc2 : 0 < 2 ^ (- e2)) by (apply Z.pow_pos_nonneg; lia).
  destruct (Z.compare_spec e1 e2) as [Heq|Hlt|Hgt].
  - subst e2. change (Pos.compare_cont Eq m1 m2) with (Pos.compare m1 m2).
    rewrite Pos2Z.inj_compare, Hv1, Hv2.
    symmetry. apply Zmult_compare_compat_r. lia.
  - symmetry. apply Z.compare_lt_iff.
    assert (Hstep : 2 ^ (- e1) = 2 ^ (- e2) * 2 ^ (e2 - e1))
      by (rewrite <- Z.pow_add_r by lia; f_equal; lia).
    assert (Hgap : 2 ^ 1 <= 2 ^ (e2 - e1)) by (apply Z.pow_le_mono_r; lia).
    change (2 ^ 1) with 2 in Hgap. nia.
  - symmetry. apply Z.compare_gt_iff.
    assert (Hstep : 2 ^ (- e2) = 2 ^ (- e1) * 2 ^ (e1 - e2))
      by (rewrite <- Z.pow_add_r by lia; f_equal; lia).
    assert (Hgap : 2 ^ 1 <= 2 ^ (e1 - e2)) by (apply Z.pow_le_mono_r; lia).
    change (2 ^ 1) with 2 in Hgap. nia.
Qed.

Lemma compare_of_Z (a b : Z) :
  Z.abs a < 2 ^ 53 -> Z.abs b < 2 ^ 53 ->
  SFcompare (of_Z a) (of_Z b) = Some (a ?= b).
Proof.
  intros Ha Hb.
  destruct (Z.eq_dec a 0) as [->|Ha0]; destruct (Z.eq_dec b 0) as [->|Hb0].
  - reflexivity.
  - destruct (of_Z_shape b Hb0 Hb) as (m & e & -> & _).
    rewrite of_Z_0. cbn [SFcompare]. f_equal.
    destruct (Z.ltb_spec b 0); symmetry;
      [apply Z.compare_gt_iff | apply Z.compare_lt_iff]; lia.
  - destruct (of_Z_shape a Ha0 Ha) as (m & e & -> & _).
    rewrite of_Z_0. cbn [SFcompare]. f_equal.
    destruct (Z.ltb_spec a 0); symmetry;
      [apply Z.compare_lt_iff | apply Z.compare_gt_iff]; lia.
  - destruct (of_Z_shape a Ha0 Ha) as (ma & ea & -> & Hma & Hea & Hva).
    destruct (of_Z_shape b Hb0 Hb) as (mb & eb & -> & Hmb & Heb & Hvb).
    cbn [SFcompare]. f_equal.
    destruct (Z.ltb_spec a 0) as [Han|Hap];
      destruct (Z.ltb_spec b 0) as [Hbn|Hbp].
    + replace (a ?= b) with (Z.abs b ?= Z.abs a)
        by (rewrite <- Z.compare_opp; f_equal; lia).
      rewrite <- (scaled_compare mb ma eb ea (Z.abs b) (Z.abs a))
        by (assumption || lia).
      rewrite (Z.compare_antisym ea eb).
      destruct (ea ?= eb); cbn [CompOpp]; try reflexivity.
      apply Pos.compare_cont_antisym.
    + symmetry. apply Z.compare_lt_iff. lia.
    + symmetry. apply Z.compare_gt_iff. lia.
    + rewrite (scaled_compare ma mb ea eb (Z.abs a) (Z.abs b)) by (assumption || lia).
      f_equal; lia.
Qed.

Lemma le_of_Z (a b : Z) :
  Z.abs a < 2 ^ 53 -> Z.abs b < 2 ^ 53 -> le (of_Z a) (of_Z b) = (a <=? b).
Proof.
  intros Ha Hb. unfold le, SFleb, Z.leb. rewrite compare_of_Z by assumption.
  destruct (a ?= b); reflexivity.
Qed.

Lemma lt_of_Z (a b : Z) :
  Z.abs a < 2 ^ 53 -> Z.abs b < 2 ^ 53 -> lt (of_Z a) (of_Z b) = (a <? b).
Proof.
  intros Ha Hb. unfold lt, SFltb, Z.ltb. rewrite compare_of_Z by assumption.
  destruct (a ?= b); reflexivity.
Qed.

Lemma gt_of_Z (a b : Z) :
  Z.abs a < 2 ^ 53 -> Z.abs b < 2 ^ 53 -> gt (of_Z a) (of_Z b) = (b <? a).
Proof. intros Ha Hb. apply lt_of_Z; assumption. Qed.

Lemma isInteger_of_Z (n : Z) : Z.abs n < 2 ^ 53 -> isInteger (of_Z n) = true.
Proof.
  intros Hb. destruct (Z.eq_dec n 0) as [->|Hn]; [reflexivity|].
  destruct (of_Z_shape n Hn Hb) as (m & e & -> & _ & _ & Hv).
  apply isInteger_multiple with (k := Z.abs n). assumption.
Qed.

Lemma is_number_of_Z (n : Z) : Z.abs n < 2 ^ 53 -> is_number (of_Z n) = true.
Proof.
  intros Hb. destruct (Z.eq_dec n 0) as [->|Hn]; [reflexivity|].
  destruct (of_Z_shape n Hn Hb) as (m & e & -> & Hm & He & _).
  unfold is_number, valid_binary, bounded, canonical_mantissa.
  rewrite (digits2_unique m 53) by (simpl; lia).
  apply andb_true_intro. split.
  - apply Z.eqb_eq. unfold fexp, emin, prec, emax. lia.
  - apply Z.leb_le. unfold prec, emax. lia.
Qed.

(** *** Shapes of the numbers the validators accept *)

(** A positive integral number has a 53-bit mantissa and an exponent of
    at least [-52]: it is at least 1. *)
Lemma positive_integer_shape (x : number) :
  is_number x = true ->
  isInteger x = true ->
  le x (of_Z 0) = false ->
  exists m e,
    x = S754_finite false m e /\ 2 ^ 52 <= Z.pos m < 2 ^ 53 /\ -52 <= e <= 971.
Proof.
  intros Hv Hi Hp. rewrite of_Z_0 in Hp.
  destruct x as [s|s| |s m e]; try discriminate.
  destruct s; [discriminate|].
  unfold is_number, valid_binary, bounded, canonical_mantissa in Hv.
  apply andb_prop in Hv. destruct Hv as [Hc He].
  apply Z.eqb_eq in Hc. apply Z.leb_le in He.
  unfold fexp, emin, emax, prec in *.
  pose proof (digits2_bounds m) as Hd.
  set (d := Z.pos (digits2_pos m)) in *.
  assert (Hd53 : d <= 53) by lia.
  assert (Hm53 : Z.pos m < 2 ^ 53).
  { assert (2 ^ d <= 2 ^ 53) by (apply Z.pow_le_mono_r; lia). lia. }
  assert (Hge : -52 <= e).
  { simpl in Hi. apply orb_prop in Hi. destruct Hi as [Hi|Hi].
    - apply Z.leb_le in Hi. lia.
    - apply Z.eqb_eq in Hi.
      destruct (Z.le_gt_cases (-52) e) as [|Hlt]; [assumption|exfalso].
      assert (Hpow : 2 ^ 53 <= 2 ^ (- e)) by (apply Z.pow_le_mono_r; lia).
      apply Z.mod_divide in Hi; [|lia].
      apply Z.divide_pos_le in Hi; lia. }
  assert (d = 53) by lia.
  exists m, e. split; [reflexivity|]. split; [|lia].
  replace 52 with (d - 1) by lia. replace 53 with d by lia. exact Hd.
Qed.

(** An accepted width or height: a positive integer of at most 10000. *)
Lemma dimension_shape (x : number) :
  is_number x = true ->
  isInteger x = true ->
  le x (of_Z 0) = false ->
  gt x (of_Z 10000) = false ->
  exists m e,
    x = S754_finite false m e /\ 2 ^ 52 <= Z.pos m < 2 ^ 53 /\ -52 <= e <= -39.
Proof.
  intros Hv Hi Hp Hmax.
  destruct (positive_integer_shape x Hv Hi Hp) as (m & e & -> & Hm & He).
  exists m, e. split; [reflexivity|]. split; [assumption|]. split; [lia|].
  rewrite of_Z_10000 in Hmax. unfold gt, SFltb, SFcompare in Hmax.
  destruct (Z.compare_spec (-39) e) as [Heq|Hlt|Hgt];
    [lia|discriminate Hmax|lia].
Qed.

(** An accepted upscale factor lies in the binades of 1, 2 and 4. *)
Lemma factor_shape (f : number) :
  is_number f = true ->
  ImageValidation.validateUpscaleFactor f = Return tt ->
  exists m e,
    f = S754_finite false m e /\ 2 ^ 52 <= Z.pos m < 2 ^ 53 /\ -52 <= e <= -50.
Proof.
  intros Hv Hok. unfold ImageValidation.validateUpscaleFactor in Hok.
  destruct (isFinite f) eqn:Hfin; cbn [negb] in Hok; [|discriminate Hok].
  destruct (le f (of_Z 1)) eqn:Hle; [discriminate Hok|].
  destruct (gt f (of_Z 4)) eqn:Hgt; [discriminate Hok|].
  rewrite of_Z_1 in Hle. rewrite of_Z_4 in Hgt.
  destruct f as [s|s| |s m e]; try discriminate.
  destruct s; [discriminate Hle|].
  unfold le, SFleb, SFcompare in Hle. unfold gt, SFltb, SFcompare in Hgt.
  destruct (Z.compare_spec e (-52)) as [He1|He1|He1]; try discriminate Hle;
    destruct (Z.compare_spec (-50) e) as [He2|He2|He2]; try discriminate Hgt;
      (unfold is_number, valid_binary, bounded, canonical_mantissa in Hv;
       apply andb_prop in Hv; destruct Hv as [Hc _];
       apply Z.eqb_eq in Hc; unfold fexp, emin, emax, prec in Hc;
       pose proof (digits2_bounds m) as Hd;
       assert (Hd53 : Z.pos (digits2_pos m) = 53) by lia;
       rewrite Hd53 in Hd;
       exists m, e; split; [reflexivity|]; split; [exact Hd|lia]).
Qed.


(** *** Scaling and rounding a dimension *)

(** The product of an accepted dimension and an accepted factor is a
    normal positive number (at least 1, below [2^18]). *)
Lemma mul_shape (mw mf : positive) (ew ef : Z) :
  2 ^ 52 <= Z.pos mw < 2 ^ 53 -> -52 <= ew <= -39 ->
  2 ^ 52 <= Z.pos mf < 2 ^ 53 -> -52 <= ef <= -50 ->
  exists m e,
    mul (S754_finite false mw ew) (S754_finite false mf ef)
    = S754_finite false m e
    /\ 2 ^ 52 <= Z.pos m < 2 ^ 53 /\ -52 <= e <= -35.
Proof.
  intros Hmw Hew Hmf Hef. unfold mul, SFmul. cbn [xorb].
  assert (HM : 2 ^ 104 <= Z.pos (mw * mf) < 2 ^ 106).
  { rewrite Pos2Z.inj_mul.
    change (2 ^ 104) with (2 ^ 52 * 2 ^ 52).
    change (2 ^ 106) with (2 ^ 53 * 2 ^ 53).
    split; [apply Z.mul_le_mono_nonneg | apply Z.mul_lt_mono_nonneg]; lia. }
  pose proof (digits2_bounds (mw * mf)) as Hd.
  set (d := Z.pos (digits2_pos (mw * mf))) in *.
  assert (Hd1 : 104 < d).
  { apply (Z.pow_lt_mono_r_iff 2); lia. }
  assert (Hd2 : d - 1 < 106).
  { apply (Z.pow_lt_mono_r_iff 2); lia. }
  destruct (binary_round_aux_normal false (mw * mf) (ew + ef) loc_Exact)
    as (m & e & Hr & Hm & He).
  - assert (2 ^ 52 <= 2 ^ 104) by (apply Z.pow_le_mono_r; lia). lia.
  - lia.
  - fold d. lia.
  - fold d in He. exists m, e. split; [exact Hr|]. split; [assumption|lia].
Qed.

(** Rounding a normal positive number gives a positive integral number. *)
Lemma Math_round_shape (m : positive) (e : Z) :
  2 ^ 52 <= Z.pos m < 2 ^ 53 -> -52 <= e <= 971 ->
  isInteger (Math_round (S754_finite false m e)) = true
  /\ le (Math_round (S754_finite false m e)) (of_Z 0) = false.
Proof.
  intros Hm He. unfold Math_round.
  destruct (Z.leb_spec 0 e) as [Hpos|Hneg].
  - split; [|reflexivity].
    simpl. apply orb_true_iff. left. apply Z.leb_le. assumption.
  - cbn [cond_Zopp].
    set (n := (Z.pos m + 2 ^ (- e - 1)) / 2 ^ (- e)).
    assert (Hp : 0 < 2 ^ (- e)) by (apply Z.pow_pos_nonneg; lia).
    assert (Hh : 0 <= 2 ^ (- e - 1)) by (apply Z.pow_nonneg; lia).
    assert (Hle52 : 2 ^ (- e) <= 2 ^ 52) by (apply Z.pow_le_mono_r; lia).
    assert (Hge2 : 2 ^ 1 <= 2 ^ (- e)) by (apply Z.pow_le_mono_r; lia).
    assert (Hhalf : 2 ^ (- e - 1) <= 2 ^ 52) by (apply Z.pow_le_mono_r; lia).
    assert (Hn1 : 1 <= n).
    { unfold n. apply Z.div_le_lower_bound; lia. }
    assert (Hn2 : n < 2 ^ 53).
    { unfold n. apply Z.div_lt_upper_bound; [lia|].
      change (2 ^ 1) with 2 in Hge2.
      assert (2 * 2 ^ 53 <= 2 ^ (- e) * 2 ^ 53)
        by (apply Z.mul_le_mono_nonneg_r; lia).
      lia. }
    destruct n as [|p|p]; try lia.
    cbn [binary_normalize].
    destruct (binary_round_integer false p Hn2)
      as (m' & e' & -> & Hm' & He' & Hval).
    split; [|reflexivity].
    apply isInteger_multiple with (k := Z.pos p). assumption.
Qed.

(** The number returned for a normal positive [x = m * 2^e] with a
    fractional part holds the integer [floor (x + 1/2)]: the nearest
    integer, the upper one on a tie. *)
Lemma Math_round_half_up (m : positive) (e : Z) :
  2 ^ 52 <= Z.pos m < 2 ^ 53 -> -52 <= e < 0 ->
  trunc (Math_round (S754_finite false m e))
  = (2 * Z.pos m + 2 ^ (- e)) / (2 * 2 ^ (- e)).
Proof.
  intros Hm He. unfold Math_round.
  destruct (Z.leb_spec 0 e) as [|_]; [lia|]. cbn [cond_Zopp].
  assert (Hp : 0 < 2 ^ (- e - 1)) by (apply Z.pow_pos_nonneg; lia).
  assert (Hsplit : 2 ^ (- e) = 2 * 2 ^ (- e - 1)).
  { rewrite <- Z.pow_succ_r by lia. f_equal. lia. }
  assert (Hsame : (2 * Z.pos m + 2 ^ (- e)) / (2 * 2 ^ (- e))
                  = (Z.pos m + 2 ^ (- e - 1)) / 2 ^ (- e)).
  { rewrite Hsplit at 1.
    replace (2 * Z.pos m + 2 * 2 ^ (- e - 1))
      with (2 * (Z.pos m + 2 ^ (- e - 1))) by lia.
    apply Z.div_mul_cancel_l; lia. }
  rewrite Hsame.
  set (n := (Z.pos m + 2 ^ (- e - 1)) / 2 ^ (- e)).
  assert (Hle52 : 2 ^ (- e) <= 2 ^ 52) by (apply Z.pow_le_mono_r; lia).
  assert (Hn1 : 1 <= n) by (unfold n; apply Z.div_le_lower_bound; lia).
  assert (Hn2 : n < 2 ^ 53).
  { unfold n. apply Z.div_lt_upper_bound; [lia|].
    assert (2 * 2 ^ 53 <= 2 ^ (- e) * 2 ^ 53)
      by (apply Z.mul_le_mono_nonneg_r; lia).
    lia. }
  destruct n as [|p|p]; try lia.
  cbn [binary_normalize].
  destruct (binary_round_integer false p Hn2)
    as (m' & e' & -> & Hm' & He' & Hval).
  unfold trunc. cbn [cond_Zopp].
  destruct (Z.leb_spec 0 e') as [Hz|Hneg].
  - assert (e' = 0) by lia. subst e'. simpl in Hval. simpl. lia.
  - rewrite Hval. apply Z.div_mul. apply Z.pow_nonzero; lia.
Qed.

End NumberFacts.

(** ** The ProcessingJob state machine *)

Module JobFacts.

Import ProcessingJob.

Lemma startProcessing_run (j : t) (w : World) :
  startProcessing (j, w) =
    if ProcessingStatus_eqb (_status j) PENDING
    then (Return tt, (set_status IN_PROGRESS j, w))
    else (Throw (Error startFromOtherStatus), (j, w)).
Proof.
  unfold startProcessing, bind, this, gets, assign, modify, throw. simpl.
  destruct (ProcessingStatus_eqb (_status j) PENDING); reflexivity.
Qed.

Lemma completeSuccessfully_run (d : ImageDimensions.t) (ms : number)
    (j : t) (w : World) :
  completeSuccessfully d ms (j, w) =
    if ProcessingStatus_eqb (_status j) IN_PROGRESS
    then (Return tt,
          (mk (_id j) (_sourceImage j) COMPLETED (Some d) (Some ms)
              (_errorMessage j) (_createdAt j) (Some (clock w (ticks w))),
           snd (Date_now w)))
    else (Throw (Error completeFromOtherStatus), (j, w)).
Proof.
  unfold completeSuccessfully, bind, this, gets, assign, modify, throw,
    in_world, new_Date. simpl.
  destruct (ProcessingStatus_eqb (_status j) IN_PROGRESS); reflexivity.
Qed.

Lemma fail_run (msg : string) (j : t) (w : World) :
  fail msg (j, w) =
    if ProcessingStatus_eqb (_status j) IN_PROGRESS
    then (Return tt,
          (mk (_id j) (_sourceImage j) FAILED (_enhancedDimensions j)
              (_processingTimeMs j) (Some msg) (_createdAt j)
              (Some (clock w (ticks w))),
           snd (Date_now w)))
    else (Throw (Error failFromOtherStatus), (j, w)).
Proof.
  unfold fail, bind, this, gets, assign, modify, throw, in_world, new_Date.
  simpl.
  destruct (ProcessingStatus_eqb (_status j) IN_PROGRESS); reflexivity.
Qed.

Lemma new_run (id : string) (img : Image.t) (w : World) :
  new id img w =
    (Return (mk id img PENDING None None None (clock w (ticks w)) None),
     snd (Date_now w)).
Proof. reflexivity. Qed.

Lemma eqb_eq (a b : ProcessingStatus) :
  ProcessingStatus_eqb a b = true <-> a = b.
Proof. destruct a, b; simpl; split; congruence. Qed.


Lemma reachable_run (cs : list Transition) :
  forall (j : t) (w : World),
    reachable j -> reachable (fst (run cs (j, w))).
Proof.
  induction cs as [|c cs IH]; intros j w Hj; simpl.
  - assumption.
  - destruct (call c (j, w)) as [r [j' w']] eqn:Hc. simpl.
    apply IH. exact (reachable_call j j' c w w' r Hj Hc).
Qed.

Lemma reachable_after_new (cs : list Transition) (id : string)
    (img : Image.t) (w : World) :
  reachable (fst (run cs (mk id img PENDING None None None (clock w (ticks w)) None,
                          snd (Date_now w)))).
Proof.
  apply reachable_run. apply (reachable_new id img w (snd (Date_now w))).
  apply new_run.
Qed.

(** What a call answers and leaves, by status. *)
Lemma call_cases (c : Transition) (j : t) (w : World) :
  (exists e, call c (j, w) = (Throw e, (j, w)) /\ InvalidTransition e)
  \/ (exists j' w', call c (j, w) = (Return tt, (j', w'))
        /\ _id j' = _id j /\ _sourceImage j' = _sourceImage j
        /\ _createdAt j' = _createdAt j
        /\ match c with
           | StartProcessing =>
               _status j = PENDING /\ j' = set_status IN_PROGRESS j
           | CompleteSuccessfully d ms =>
               _status j = IN_PROGRESS /\ _status j' = COMPLETED
               /\ _enhancedDimensions j' = Some d
               /\ _processingTimeMs j' = Some ms
               /\ _errorMessage j' = _errorMessage j
               /\ _completedAt j' = Some (clock w (ticks w))
           | Fail msg =>
               _status j = IN_PROGRESS /\ _status j' = FAILED
               /\ _enhancedDimensions j' = _enhancedDimensions j
               /\ _processingTimeMs j' = _processingTimeMs j
               /\ _errorMessage j' = Some msg
               /\ _completedAt j' = Some (clock w (ticks w))
           end).
Proof.
  unfold InvalidTransition.
  destruct c as [|d ms|msg]; simpl call;
    [rewrite startProcessing_run | rewrite completeSuccessfully_run
     | rewrite fail_run];
    match goal with
    | |- context [ProcessingStatus_eqb ?a ?b] =>
        destruct (ProcessingStatus_eqb a b) eqn:Hs
    end;
    try (left; eexists; split; [reflexivity|]; tauto);
    apply eqb_eq in Hs; right; eexists _, _; split; try reflexivity;
    simpl; repeat split; assumption.
Qed.

End JobFacts.

(** C3: from PENDING only [startProcessing] succeeds, and it reaches
    IN_PROGRESS; from IN_PROGRESS only [completeSuccessfully] and [fail]
    succeed, reaching COMPLETED and FAILED; from COMPLETED and from FAILED
    the three calls are rejected with the InvalidTransition error of the
    operation; and [isCompleted] and [hasFailed] are never both true.  The
    job and the world are arbitrary, so this holds after every sequence of
    calls. *)
Theorem job_state_machine (j : ProcessingJob.t) (w : World)
    (d : ImageDimensions.t) (ms : number) (msg : string) :
  let started := ProcessingJob.startProcessing (j, w) in
  let completed := ProcessingJob.completeSuccessfully d ms (j, w) in
  let failed := ProcessingJob.fail msg (j, w) in
  match ProcessingJob.status j with
  | PENDING =>
      fst started = Return tt
      /\ ProcessingJob.status (fst (snd started)) = IN_PROGRESS
      /\ fst completed = Throw (Error ProcessingJob.completeFromOtherStatus)
      /\ fst failed = Throw (Error ProcessingJob.failFromOtherStatus)
  | IN_PROGRESS =>
      fst started = Throw (Error ProcessingJob.startFromOtherStatus)
      /\ fst completed = Return tt
      /\ ProcessingJob.status (fst (snd completed)) = COMPLETED
      /\ fst failed = Return tt
      /\ ProcessingJob.status (fst (snd failed)) = FAILED
  | COMPLETED | FAILED =>
      fst started = Throw (Error ProcessingJob.startFromOtherStatus)
      /\ fst completed = Throw (Error ProcessingJob.completeFromOtherStatus)
      /\ fst failed = Throw (Error ProcessingJob.failFromOtherStatus)
  end
  /\ ProcessingJob.isCompleted j && ProcessingJob.hasFailed j = false.
Proof.
  cbv zeta.
  rewrite JobFacts.startProcessing_run, JobFacts.completeSuccessfully_run,
    JobFacts.fail_run.
  unfold ProcessingJob.status, ProcessingJob.isCompleted, ProcessingJob.hasFailed.
  destruct (ProcessingJob._status j); simpl; repeat split; reflexivity.
Qed.

(** C4: in every state of a job reachable from its construction by calls
    that succeed or fail, the enhanced dimensions and the processing time
    are set exactly when the status is COMPLETED, the error message exactly
    when it is FAILED, and the completion date exactly when it is COMPLETED
    or FAILED. *)
Theorem reachable_fields_match_status (j : ProcessingJob.t) :
  reachable j -> fields_match_status j.
Proof.
  unfold fields_match_status, ProcessingJob.enhancedDimensions,
    ProcessingJob.processingTimeMs, ProcessingJob.errorMessage,
    ProcessingJob.completedAt, ProcessingJob.status.
  induction 1 as [id img w w' j Hnew | j j' c w w' r Hj IH Hc].
  - rewrite JobFacts.new_run in Hnew. inversion Hnew; subst; simpl.
    repeat split; intros; try congruence; intuition congruence.
  - destruct (JobFacts.call_cases c j w)
      as [(e & He & _) | (j2 & w2 & He & _ & _ & _ & Hcase)];
      rewrite He in Hc; inversion Hc; subst; [exact IH|].
    destruct IH as (IH1 & IH2 & IH3 & IH4).
    destruct c as [|d ms|msg].
    + destruct Hcase as [Hs ->]. simpl.
      rewrite Hs in *. repeat split; intros; try congruence;
        intuition congruence.
    + destruct Hcase as (Hs & -> & -> & -> & Hm & ->).
      rewrite Hm, Hs in *.
      repeat split; intros; try congruence; intuition congruence.
    + destruct Hcase as (Hs & -> & Hd & Hp & -> & ->).
      rewrite Hd, Hp, Hs in *.
      repeat split; intros; try congruence; intuition congruence.
Qed.

(** C10: a transition call that is rejected leaves the job as it was: the
    error is an InvalidTransition one, and status, enhanced dimensions,
    processing time, error message, creation and completion dates (the whole
    job, and the world) are those from before the call. *)
Theorem rejected_call_changes_nothing (c : Transition)
    (j j' : ProcessingJob.t) (w w' : World) (e : Thrown) :
  call c (j, w) = (Throw e, (j', w')) ->
  InvalidTransition e
  /\ ProcessingJob.status j' = ProcessingJob.status j
  /\ ProcessingJob.enhancedDimensions j' = ProcessingJob.enhancedDimensions j
  /\ ProcessingJob.processingTimeMs j' = ProcessingJob.processingTimeMs j
  /\ ProcessingJob.errorMessage j' = ProcessingJob.errorMessage j
  /\ ProcessingJob.createdAt j' = ProcessingJob.createdAt j
  /\ ProcessingJob.completedAt j' = ProcessingJob.completedAt j
  /\ j' = j /\ w' = w.
Proof.
  intros Hc.
  destruct (JobFacts.call_cases c j w)
    as [(e0 & He & Hinv) | (j2 & w2 & He & _)];
    rewrite He in Hc; inversion Hc; subst.
  repeat split; try reflexivity. assumption.
Qed.

Lemma reachable_fields_match_status_witness :
  reachable (fst (run [StartProcessing; Fail "GPU error"] (sampleJob, sampleWorld)))
  /\ fields_match_status
       (fst (run [StartProcessing; Fail "GPU error"] (sampleJob, sampleWorld))).
Proof.
  assert (H : reachable
    (fst (run [StartProcessing; Fail "GPU error"] (sampleJob, sampleWorld)))).
  { apply JobFacts.reachable_run.
    apply (reachable_new "job-456" sampleImage sampleWorld
             (snd (Date_now sampleWorld))).
    reflexivity. }
  split; [exact H | apply reachable_fields_match_status; exact H].
Defined.

Lemma rejected_call_changes_nothing_witness :
  call (Fail "too early") (sampleJob, sampleWorld)
  = (Throw (Error ProcessingJob.failFromOtherStatus), (sampleJob, sampleWorld))
  /\ InvalidTransition (Error ProcessingJob.failFromOtherStatus).
Proof.
  split; [reflexivity|].
  apply (rejected_call_changes_nothing (Fail "too early")
           sampleJob sampleJob sampleWorld sampleWorld).
  reflexivity.
Defined.

(** ** The validators *)

Module ValidationFacts.

Import ImageValidation.

Lemma validateDimensions_Return (w h : number) :
  validateDimensions w h = Return tt <->
  le w (of_Z 0) = false /\ le h (of_Z 0) = false
  /\ isInteger w = true /\ isInteger h = true
  /\ gt w (of_Z 10000) = false /\ gt h (of_Z 10000) = false.
Proof.
  unfold validateDimensions.
  destruct (le w (of_Z 0)), (le h (of_Z 0)), (isInteger w), (isInteger h),
    (gt w (of_Z 10000)), (gt h (of_Z 10000)); simpl;
    split; intros H; try discriminate H; try tauto;
    try (decompose [and] H; discriminate).
Qed.

Lemma validateFileSize_Return (size : number) :
  validateFileSize size = Return tt <->
  le size (of_Z 0) = false /\ gt size maxSizeInBytes = false.
Proof.
  unfold validateFileSize.
  destruct (le size (of_Z 0)), (gt size maxSizeInBytes); simpl;
    split; intros H; try discriminate H; try tauto;
    try (decompose [and] H; discriminate).
Qed.

Lemma validateUpscaleFactor_Return (f : number) :
  validateUpscaleFactor f = Return tt <->
  isFinite f = true /\ le f (of_Z 1) = false /\ gt f (of_Z 4) = false.
Proof.
  unfold validateUpscaleFactor.
  destruct (isFinite f), (le f (of_Z 1)), (gt f (of_Z 4)); simpl;
    split; intros H; try discriminate H; try tauto;
    try (decompose [and] H; discriminate).
Qed.

Lemma includes_In (xs : list string) (x : string) :
  includes xs x = true <-> In x xs.
Proof.
  unfold includes. rewrite existsb_exists. split.
  - intros (y & Hy & He). apply String.eqb_eq in He. subst. assumption.
  - intros H. exists x. split; [assumption | apply String.eqb_refl].
Qed.

Lemma validateFormat_string (s : string) :
  validateFormat (VString s) =
    if (s =? "")%string then Throw (Error formatNotAString)
    else if includes supportedFormats (toLowerCase s) then Return tt
    else Throw (Error (unsupportedFormat s)).
Proof.
  unfold validateFormat. cbn [truthy typeof].
  destruct (s =? "")%string; [reflexivity|].
  cbn [negb orb]. change ("string" =? "string")%string with true. cbn [negb].
  destruct (includes supportedFormats (toLowerCase s)); reflexivity.
Qed.

Lemma validateFormat_other (v : JSValue) :
  (forall s, v <> VString s) ->
  validateFormat v = Throw (Error formatNotAString).
Proof.
  intros H. destruct v as [ | |b|n|s]; try reflexivity.
  - unfold validateFormat. cbn [truthy typeof].
    change ("boolean" =? "string")%string with false.
    rewrite orb_true_r. reflexivity.
  - unfold validateFormat. cbn [typeof].
    change ("number" =? "string")%string with false.
    rewrite orb_true_r. reflexivity.
  - exfalso. exact (H s eq_refl).
Qed.

(** The constructor of [Image]: the three validators in order, then the
    clock. *)
Lemma Image_new_run (id : string) (w h : number) (fmt : string)
    (size : number) (world : World) :
  Image.new id w h fmt size world =
    match validateDimensions w h with
    | Throw e => (Throw e, world)
    | Return _ =>
        match validateFormat (VString fmt) with
        | Throw e => (Throw e, world)
        | Return _ =>
            match validateFileSize size with
            | Throw e => (Throw e, world)
            | Return _ =>
                (Return (Image.mk id w h fmt size (clock world (ticks world))),
                 snd (Date_now world))
            end
        end
    end.
Proof.
  unfold Image.new, bind, eval, ret, new_Date.
  destruct (validateDimensions w h); [|reflexivity].
  destruct (validateFormat (VString fmt)); [|reflexivity].
  destruct (validateFileSize size); reflexivity.
Qed.

(** On integers the validators test the integers themselves. *)
Lemma validateDimensions_of_Z (a b : Z) :
  Z.abs a < 2 ^ 53 -> Z.abs b < 2 ^ 53 ->
  (validateDimensions (of_Z a) (of_Z b) = Return tt <->
     0 < a <= 10000 /\ 0 < b <= 10000).
Proof.
  intros Ha Hb. rewrite validateDimensions_Return.
  rewrite !NumberFacts.le_of_Z, !NumberFacts.gt_of_Z,
    !NumberFacts.isInteger_of_Z by (assumption || (simpl; lia)).
  rewrite !Z.leb_gt, !Z.ltb_ge. intuition lia.
Qed.

Lemma validateFileSize_of_Z (n : Z) :
  Z.abs n < 2 ^ 53 ->
  (validateFileSize (of_Z n) = Return tt <-> 1 <= n <= 52428800).
Proof.
  intros Hn. rewrite validateFileSize_Return, NumberFacts.maxSizeInBytes_value.
  rewrite NumberFacts.le_of_Z, NumberFacts.gt_of_Z by (assumption || (simpl; lia)).
  rewrite Z.leb_gt, Z.ltb_ge. lia.
Qed.

End ValidationFacts.

(** C6: [validateDimensions] succeeds exactly when both values are integral
    and lie in (0, 10000]; when it fails, a non-positive value is reported
    first, then a non-integral one, then one above 10000, whatever else is
    violated at the same time.  The comparisons are those of JavaScript
    numbers; on the numbers that denote integers [a] and [b] success is
    [0 < a <= 10000] and [0 < b <= 10000]. *)
Theorem validateDimensions_spec (w h : number) :
  (ImageValidation.validateDimensions w h = Return tt <->
     isInteger w = true /\ isInteger h = true
     /\ lt (of_Z 0) w = true /\ le w (of_Z 10000) = true
     /\ lt (of_Z 0) h = true /\ le h (of_Z 10000) = true)
  /\ (le w (of_Z 0) = true \/ le h (of_Z 0) = true ->
      ImageValidation.validateDimensions w h
      = Throw (Error "Image dimensions must be positive numbers"))
  /\ (le w (of_Z 0) = false -> le h (of_Z 0) = false ->
      isInteger w = false \/ isInteger h = false ->
      ImageValidation.validateDimensions w h
      = Throw (Error "Image dimensions must be integers"))
  /\ (le w (of_Z 0) = false -> le h (of_Z 0) = false ->
      isInteger w = true -> isInteger h = true ->
      gt w (of_Z 10000) = true \/ gt h (of_Z 10000) = true ->
      ImageValidation.validateDimensions w h
      = Throw (Error "Image dimensions exceed maximum allowed size (10000px)"))
  /\ (forall a b : Z, Z.abs a < 2 ^ 53 -> Z.abs b < 2 ^ 53 ->
      (ImageValidation.validateDimensions (of_Z a) (of_Z b) = Return tt <->
         0 < a <= 10000 /\ 0 < b <= 10000)).
Proof.
  split; [|split; [|split; [|split]]];
    [| | | |exact ValidationFacts.validateDimensions_of_Z].
  - rewrite ValidationFacts.validateDimensions_Return. split.
    + intros (Hw & Hh & Hiw & Hih & Hgw & Hgh).
      pose proof (NumberFacts.isInteger_not_NaN w Hiw) as Hnw.
      pose proof (NumberFacts.isInteger_not_NaN h Hih) as Hnh.
      pose proof NumberFacts.of_Z_not_NaN_10000 as Hk.
      assert (H0 : of_Z 0 <> NaN) by discriminate.
      repeat split; try assumption.
      * apply (NumberFacts.le_false_iff_gt w (of_Z 0)); assumption.
      * apply NumberFacts.gt_false_iff_le; assumption.
      * apply (NumberFacts.le_false_iff_gt h (of_Z 0)); assumption.
      * apply NumberFacts.gt_false_iff_le; assumption.
    + intros (Hiw & Hih & Hw & Hgw & Hh & Hgh).
      pose proof (NumberFacts.isInteger_not_NaN w Hiw) as Hnw.
      pose proof (NumberFacts.isInteger_not_NaN h Hih) as Hnh.
      pose proof NumberFacts.of_Z_not_NaN_10000 as Hk.
      assert (H0 : of_Z 0 <> NaN) by discriminate.
      repeat split; try assumption.
      * apply (NumberFacts.le_false_iff_gt w (of_Z 0)); assumption.
      * apply (NumberFacts.le_false_iff_gt h (of_Z 0)); assumption.
      * apply NumberFacts.gt_false_iff_le; assumption.
      * apply NumberFacts.gt_false_iff_le; assumption.
  - unfold ImageValidation.validateDimensions.
    intros [H|H]; rewrite H; [|rewrite orb_true_r]; reflexivity.
  - unfold ImageValidation.validateDimensions.
    intros Hw Hh [H|H]; rewrite Hw, Hh, H; cbn [orb negb];
      [|rewrite orb_true_r]; reflexivity.
  - unfold ImageValidation.validateDimensions.
    intros Hw Hh Hiw Hih [H|H]; rewrite Hw, Hh, Hiw, Hih, H; cbn [orb negb];
      [|rewrite orb_true_r]; reflexivity.
Qed.

Lemma validateDimensions_spec_witness :
  ImageValidation.validateDimensions (of_dyadic (-3) 1) (of_Z 20000)
  = Throw (Error "Image dimensions must be positive numbers").
Proof.
  apply (proj1 (proj2 (validateDimensions_spec (of_dyadic (-3) 1) (of_Z 20000)))).
  left. reflexivity.
Defined.

(** [validateFileSize] makes no test of integrality: the number 0.5, which
    is not a byte size, passes, also in the constructor of [Image]. *)
Example fractional_size_accepted :
  is_number half = true
  /\ isInteger half = false
  /\ ImageValidation.validateFileSize half = Return tt
  /\ fst (Image.new "img-1" (of_Z 100) (of_Z 100) "jpeg" half sampleWorld)
     = Return (Image.mk "img-1" (of_Z 100) (of_Z 100) "jpeg" half 1700000000000).
Proof. vm_compute. repeat split; reflexivity. Qed.

(** C5: a byte size is an integral number.  For every such size
    [validateFileSize] succeeds exactly when [1 <= size <= 52428800]; the
    upper bound is inclusive, so exactly 52428800 is accepted; every size
    below 1 is rejected with the message of a non-positive size and every
    size above the bound with the message of the maximum; once dimensions
    and format are valid the constructor of [Image] succeeds exactly when
    [validateFileSize] does; and on the number that denotes an integer [n]
    success is [1 <= n <= 52428800] and [n < 1] gives the message of a
    non-positive size. *)
Theorem validateFileSize_spec (size : number) :
  is_number size = true ->
  isInteger size = true ->
  (ImageValidation.validateFileSize size = Return tt <->
     le (of_Z 1) size = true /\ le size (of_Z 52428800) = true)
  /\ ImageValidation.validateFileSize (of_Z 52428800) = Return tt
  /\ (lt size (of_Z 1) = true ->
      ImageValidation.validateFileSize size
      = Throw (Error "File size must be positive"))
  /\ (gt size (of_Z 52428800) = true ->
      ImageValidation.validateFileSize size
      = Throw (Error "File size exceeds maximum allowed (50MB)"))
  /\ (forall (id : string) (w h : number) (fmt : string) (world : World),
      ImageValidation.validateDimensions w h = Return tt ->
      ImageValidation.validateFormat (VString fmt) = Return tt ->
      ((exists img world',
          Image.new id w h fmt size world = (Return img, world'))
       <-> le (of_Z 1) size = true /\ le size (of_Z 52428800) = true))
  /\ (forall n : Z, Z.abs n < 2 ^ 53 ->
      (ImageValidation.validateFileSize (of_Z n) = Return tt <->
         1 <= n <= 52428800)
      /\ (n < 1 ->
          ImageValidation.validateFileSize (of_Z n)
          = Throw (Error "File size must be positive"))
      /\ (52428800 < n ->
          ImageValidation.validateFileSize (of_Z n)
          = Throw (Error "File size exceeds maximum allowed (50MB)"))).
Proof.
  intros Hv Hint.
  assert (Hnan : size <> NaN) by (apply NumberFacts.isInteger_not_NaN; exact Hint).
  assert (H0 : of_Z 0 <> NaN) by discriminate.
  assert (Hmax : of_Z 52428800 <> NaN) by discriminate.
  assert (Hpos : le size (of_Z 0) = false -> le (of_Z 1) size = true).
  { intros Hlow.
    destruct (NumberFacts.positive_integer_shape size Hv Hint Hlow)
      as (m & e & -> & Hm & He).
    rewrite NumberFacts.of_Z_1. unfold le, SFleb, SFcompare.
    destruct (Z.compare_spec (-52) e) as [Heq|Hlt|Hgt]; [|reflexivity|lia].
    change (Pos.compare_cont Eq (2 ^ 52) m) with (Pos.compare (2 ^ 52) m).
    destruct (Pos.compare_spec (2 ^ 52) m) as [Hc|Hc|Hc]; try reflexivity.
    change (2 ^ 52) with (Z.pos (2 ^ 52)) in Hm. lia. }
  assert (Hone : le (of_Z 1) size = true -> le size (of_Z 0) = false).
  { intros Hlow. rewrite NumberFacts.of_Z_1 in Hlow.
    destruct size as [s|s| |s m e]; try discriminate Hlow;
      destruct s; try discriminate Hlow; reflexivity. }
  assert (Hbelow : lt size (of_Z 1) = true -> le size (of_Z 0) = true).
  { intros Hlt. destruct (le size (of_Z 0)) eqn:Hle; [reflexivity|].
    pose proof (Hpos eq_refl) as Hge.
    unfold lt, SFltb in Hlt. unfold le, SFleb in Hge.
    rewrite (NumberFacts.SFcompare_antisym size (of_Z 1)) in Hge.
    destruct (SFcompare size (of_Z 1)) as [[ | | ]|];
      cbn in Hge; discriminate. }
  assert (Hiff : ImageValidation.validateFileSize size = Return tt <->
     le (of_Z 1) size = true /\ le size (of_Z 52428800) = true).
  { rewrite ValidationFacts.validateFileSize_Return,
      NumberFacts.maxSizeInBytes_value.
    rewrite (NumberFacts.gt_false_iff_le size (of_Z 52428800)) by assumption.
    split; intros [Hlow Hup]; (split; [|exact Hup]); auto. }
  split; [exact Hiff|]. split; [reflexivity|].
  split; [|split; [|split]].
  - intros Hlt. unfold ImageValidation.validateFileSize.
    rewrite (Hbelow Hlt). reflexivity.
  - intros Hgt. unfold ImageValidation.validateFileSize.
    destruct (le size (of_Z 0)) eqn:Hle.
    + exfalso. unfold le, SFleb in Hle. unfold gt in Hgt.
      revert Hle Hgt. clear.
      destruct size as [s|s| |s m e]; try destruct s; intros Hle Hgt;
        vm_compute in Hle; vm_compute in Hgt;
        first [discriminate Hle | discriminate Hgt].
    + rewrite NumberFacts.maxSizeInBytes_value, Hgt. reflexivity.
  - intros id w h fmt world Hd Hf. rewrite <- Hiff.
    rewrite ValidationFacts.Image_new_run, Hd, Hf.
    destruct (ImageValidation.validateFileSize size) as [[]|e].
    + split; [reflexivity|]. intros _. eexists _, _. reflexivity.
    + split; [intros (img & world' & H); discriminate H | intros H; discriminate H].
  - intros n Hn. split; [exact (ValidationFacts.validateFileSize_of_Z n Hn)|].
    split; intros Hcase; unfold ImageValidation.validateFileSize.
    + rewrite NumberFacts.le_of_Z by (assumption || (simpl; lia)).
      replace (n <=? 0) with true by (symmetry; apply Z.leb_le; lia).
      reflexivity.
    + rewrite NumberFacts.le_of_Z by (assumption || (simpl; lia)).
      replace (n <=? 0) with false by (symmetry; apply Z.leb_gt; lia).
      rewrite NumberFacts.maxSizeInBytes_value.
      rewrite NumberFacts.gt_of_Z by (assumption || (simpl; lia)).
      replace (52428800 <? n) with true
        by (symmetry; apply Z.ltb_lt; lia).
      reflexivity.
Qed.

Lemma validateFileSize_spec_witness :
  ImageValidation.validateFileSize (of_Z 52428801)
  = Throw (Error "File size exceeds maximum allowed (50MB)")
  /\ ImageValidation.validateFileSize (of_Z 0)
     = Throw (Error "File size must be positive")
  /\ (ImageValidation.validateFileSize (of_Z 52428800) = Return tt <->
        le (of_Z 1) (of_Z 52428800) = true
        /\ le (of_Z 52428800) (of_Z 52428800) = true).
Proof.
  split; [|split].
  - apply (proj1 (proj2 (proj2 (proj2
      (validateFileSize_spec (of_Z 52428801) eq_refl eq_refl))))).
    reflexivity.
  - apply (proj1 (proj2 (proj2
      (validateFileSize_spec (of_Z 0) eq_refl eq_refl)))).
    reflexivity.
  - exact (proj1 (validateFileSize_spec (of_Z 52428800) eq_refl eq_refl)).
Defined.

(** C7: [validateFormat] succeeds exactly on the non-empty strings whose
    lower-case form is one of jpeg, jpg, png, webp, bmp; any other value
    than a non-empty string is rejected as such; an unsupported non-empty
    string is rejected with a message that quotes it as it was given and
    lists the supported formats in that order; and an [Image] that was
    constructed returns the format it was given, casing included. *)
Theorem validateFormat_spec (v : JSValue) (s : string) :
  (ImageValidation.validateFormat v = Return tt <->
     exists s', v = VString s' /\ s' <> ""%string
       /\ In (toLowerCase s') ["jpeg"; "jpg"; "png"; "webp"; "bmp"]%string)
  /\ ((forall s', v <> VString s') \/ v = VString "" ->
      ImageValidation.validateFormat v
      = Throw (Error "Image format must be a non-empty string"))
  /\ (s <> ""%string ->
      ~ In (toLowerCase s) ["jpeg"; "jpg"; "png"; "webp"; "bmp"]%string ->
      ImageValidation.validateFormat (VString s)
      = Throw (Error ("Unsupported image format: " ++ s
                      ++ ". Supported: jpeg, jpg, png, webp, bmp")))
  /\ (forall (id : string) (w h size : number) (world world' : World)
        (img : Image.t),
      Image.new id w h s size world = (Return img, world') ->
      ImageValidation.validateFormat (VString s) = Return tt
      /\ Image.format img = s).
Proof.
  split; [|split; [|split]].
  - split.
    + intros H. destruct v as [ | |b|n|s'];
        try (rewrite ValidationFacts.validateFormat_other in H;
             [discriminate H | intros ? ?; discriminate]).
      rewrite ValidationFacts.validateFormat_string in H.
      destruct (String.eqb_spec s' "") as [|Hne]; [discriminate H|].
      destruct (includes ImageValidation.supportedFormats (toLowerCase s'))
        eqn:Hin; [|discriminate H].
      exists s'. split; [reflexivity|]. split; [assumption|].
      apply ValidationFacts.includes_In in Hin. exact Hin.
    + intros (s' & -> & Hne & Hin).
      rewrite ValidationFacts.validateFormat_string.
      destruct (String.eqb_spec s' "") as [|_]; [contradiction|].
      apply ValidationFacts.includes_In in Hin.
      unfold ImageValidation.supportedFormats. rewrite Hin. reflexivity.
  - intros [H| ->]; [apply ValidationFacts.validateFormat_other; exact H|].
    reflexivity.
  - intros Hne Hnot. rewrite ValidationFacts.validateFormat_string.
    destruct (String.eqb_spec s "") as [|_]; [contradiction|].
    destruct (includes ImageValidation.supportedFormats (toLowerCase s)) eqn:Hin.
    + apply ValidationFacts.includes_In in Hin. contradiction.
    + reflexivity.
  - intros id w h size world world' img H.
    rewrite ValidationFacts.Image_new_run in H.
    destruct (ImageValidation.validateDimensions w h); [|discriminate H].
    destruct (ImageValidation.validateFormat (VString s)) as [[]|];
      [|discriminate H].
    destruct (ImageValidation.validateFileSize size); [|discriminate H].
    inversion H; subst. split; reflexivity.
Qed.

Lemma validateFormat_spec_witness :
  ImageValidation.validateFormat (VString "GIF")
  = Throw (Error "Unsupported image format: GIF. Supported: jpeg, jpg, png, webp, bmp")
  /\ Image.format (Image.mk "img-9" (of_Z 1920) (of_Z 1080) "PnG" (of_Z 500000)
                     1700000000000) = "PnG"%string.
Proof.
  split.
  - apply (proj1 (proj2 (proj2 (validateFormat_spec VNull "GIF"%string)))).
    + discriminate.
    + simpl. intros H. decompose [or] H; try discriminate; assumption.
  - apply (proj2 (proj2 (proj2 (validateFormat_spec VNull "PnG"%string)))
             "img-9"%string (of_Z 1920) (of_Z 1080) (of_Z 500000)
             sampleWorld (snd (Date_now sampleWorld))).
    reflexivity.
Defined.

(** ** Upscaled dimensions *)

(** C1, the claim as stated, fails: a valid 5000 x 5000 image and the valid
    factor 4 scale to 20000 x 20000, and [getUpscaledDimensions] does not
    return these dimensions: the constructor of [ImageDimensions] rejects
    them. *)
Lemma oversized_upscale_rejected :
  fst (Image.new "img-5000" (of_Z 5000) (of_Z 5000) "jpeg" (of_Z 2000000)
         sampleWorld) = Return sampleLargeImage
  /\ ImageValidation.validateUpscaleFactor (of_Z 4) = Return tt
  /\ Math_round (mul (Image.width sampleLargeImage) (of_Z 4)) = of_Z 20000
  /\ Image.getUpscaledDimensions sampleLargeImage (of_Z 4)
     = Throw (Error "Image dimensions exceed maximum allowed size (10000px)").
Proof. vm_compute. repeat split; reflexivity. Qed.

(** C1, amended: for a constructed [Image] and a valid factor [f], the
    scaled axes [Math.round(width * f)] and [Math.round(height * f)] (the
    nearest integer, a tie going up) are positive integers;
    [getUpscaledDimensions(f)] returns the [ImageDimensions] made of them
    when both are at most 10000 and is rejected by the constructor of
    [ImageDimensions] with its maximum-size message when one exceeds 10000.
    Nothing else is checked, [canBeUpscaled] in particular. *)
Theorem getUpscaledDimensions_spec (id : string) (w h : number) (fmt : string)
    (size : number) (world world' : World) (img : Image.t) (f : number) :
  is_number w = true -> is_number h = true -> is_number f = true ->
  Image.new id w h fmt size world = (Return img, world') ->
  ImageValidation.validateUpscaleFactor f = Return tt ->
  let rw := Math_round (mul w f) in
  let rh := Math_round (mul h f) in
  isInteger rw = true /\ isInteger rh = true
  /\ lt (of_Z 0) rw = true /\ lt (of_Z 0) rh = true
  /\ Image.getUpscaledDimensions img f =
       if gt rw (of_Z 10000) || gt rh (of_Z 10000)
       then Throw (Error "Image dimensions exceed maximum allowed size (10000px)")
       else Return (ImageDimensions.mk rw rh).
Proof.
  intros Hw Hh Hf Hnew Hok rw rh.
  rewrite ValidationFacts.Image_new_run in Hnew.
  destruct (ImageValidation.validateDimensions w h) as [[]|] eqn:Hdim;
    [|discriminate Hnew].
  destruct (ImageValidation.validateFormat (VString fmt)); [|discriminate Hnew].
  destruct (ImageValidation.validateFileSize size); [|discriminate Hnew].
  inversion Hnew; subst img world'; clear Hnew.
  apply ValidationFacts.validateDimensions_Return in Hdim.
  destruct Hdim as (Hpw & Hph & Hiw & Hih & Hgw & Hgh).
  destruct (NumberFacts.dimension_shape w Hw Hiw Hpw Hgw)
    as (mw & ew & Ew & Hmw & Hew).
  destruct (NumberFacts.dimension_shape h Hh Hih Hph Hgh)
    as (mh & eh & Eh & Hmh & Heh).
  destruct (NumberFacts.factor_shape f Hf Hok) as (mf & ef & Ef & Hmf & Hef).
  destruct (NumberFacts.mul_shape mw mf ew ef Hmw Hew Hmf Hef)
    as (pw & qw & Epw & Hpw' & Hqw).
  destruct (NumberFacts.mul_shape mh mf eh ef Hmh Heh Hmf Hef)
    as (ph & qh & Eph & Hph' & Hqh).
  assert (Hrw : isInteger rw = true /\ le rw (of_Z 0) = false).
  { unfold rw. rewrite Ew, Ef, Epw. apply NumberFacts.Math_round_shape; lia. }
  assert (Hrh : isInteger rh = true /\ le rh (of_Z 0) = false).
  { unfold rh. rewrite Eh, Ef, Eph. apply NumberFacts.Math_round_shape; lia. }
  destruct Hrw as [Hrwi Hrwp]. destruct Hrh as [Hrhi Hrhp].
  assert (H0 : of_Z 0 <> NaN) by discriminate.
  split; [assumption|]. split; [assumption|].
  split; [apply (NumberFacts.le_false_iff_gt rw (of_Z 0));
          auto using NumberFacts.isInteger_not_NaN|].
  split; [apply (NumberFacts.le_false_iff_gt rh (of_Z 0));
          auto using NumberFacts.isInteger_not_NaN|].
  unfold Image.getUpscaledDimensions. rewrite Hok.
  cbn [andThen Image._width Image._height].
  fold rw. fold rh.
  unfold ImageDimensions.new, ImageValidation.validateDimensions.
  rewrite Hrwp, Hrhp, Hrwi, Hrhi. cbn [orb negb].
  destruct (gt rw (of_Z 10000) || gt rh (of_Z 10000)); reflexivity.
Qed.

Lemma getUpscaledDimensions_spec_witness :
  Image.getUpscaledDimensions sampleImage (of_dyadic 3 1)
  = Return (ImageDimensions.mk (of_Z 2880) (of_Z 1620)).
Proof.
  refine (proj2 (proj2 (proj2 (proj2
    (getUpscaledDimensions_spec "img-123" (of_Z 1920) (of_Z 1080) "jpeg"
       (of_Z 500000) sampleWorld (snd (Date_now sampleWorld)) sampleImage
       (of_dyadic 3 1) _ _ _ _ _)))));
    reflexivity.
Defined.

(** An image that [canBeUpscaled] declares ineligible is upscaled all the
    same, and one it declares eligible can be rejected. *)
Example eligibility_is_not_consulted :
  Image.canBeUpscaled sampleLargeImage = false
  /\ Image.getUpscaledDimensions sampleLargeImage (of_Z 2)
     = Return (ImageDimensions.mk (of_Z 10000) (of_Z 10000))
  /\ Image.canBeUpscaled
       (Image.mk "img-3" (of_Z 3000) (of_Z 3000) "png" (of_Z 1000) 0) = true
  /\ Image.getUpscaledDimensions
       (Image.mk "img-3" (of_Z 3000) (of_Z 3000) "png" (of_Z 1000) 0) (of_Z 4)
     = Throw (Error "Image dimensions exceed maximum allowed size (10000px)").
Proof. vm_compute. repeat split; reflexivity. Qed.

(** ** EnhanceImageUseCase *)

Module UseCaseFacts.

Import EnhanceImageUseCase.

Section Runs.

Variable imageLoader : ImageLoaderPort.
Variable superResolution : SuperResolutionPort.
Variable request : EnhanceImageRequest.t.
Variable startTime : Z.
Variable upscaleFactor : number.

Lemma invalid_factor_run (e : Thrown) (fr : Frame) :
  ImageValidation.validateUpscaleFactor upscaleFactor = Throw e ->
  try_block imageLoader superResolution request startTime upscaleFactor fr
  = (Throw e, fr).
Proof.
  intros H. unfold try_block, bind, eval. rewrite H. reflexivity.
Qed.

Lemma loader_rejects_run (e : Thrown) (w : World) :
  ImageValidation.validateUpscaleFactor upscaleFactor = Return tt ->
  imageLoader (EnhanceImageRequest.imageInput request) = Throw e ->
  try_block imageLoader superResolution request startTime upscaleFactor
    (entry w)
  = (Throw e, entry (loaded imageLoader request w)).
Proof.
  intros Hf Hl.
  unfold loaded, try_block, entry, bind, eval, in_world, loadImage.
  rewrite Hf. cbn [world originalImage job snd]. rewrite Hl. reflexivity.
Qed.

Ltac step_in H :=
  cbv beta iota zeta delta [bind eval ret gets modify throw
    EnhanceImageUseCase.in_world
    set_originalImage set_job on_job generateImageId generateJobId
    Date_now Math_random_chunk new_Date loadImage enhanceImage
    Image.new ProcessingJob.new ProcessingJob.startProcessing
    ProcessingJob.completeSuccessfully ProcessingJob.fail
    ProcessingJob.this ProcessingJob.assign ProcessingJob.in_world
    ProcessingJob.set_status ProcessingJob.set_enhancedDimensions
    ProcessingJob.set_processingTimeMs ProcessingJob.set_errorMessage
    ProcessingJob.set_completedAt ProcessingStatus_eqb negb fst snd] in H;
  cbn [world job originalImage clock ticks entropy draws loaderCalls
    enhancerCalls ProcessingJob._status ProcessingJob._id
    ProcessingJob._sourceImage ProcessingJob._enhancedDimensions
    ProcessingJob._processingTimeMs ProcessingJob._errorMessage
    ProcessingJob._createdAt ProcessingJob._completedAt] in H.

(** The loaded data fail one of the three checks of step 3: nothing has
    been created. *)
Lemma invalid_data_run (li : LoadedImageData) (e : Thrown) (w : World) :
  ImageValidation.validateUpscaleFactor upscaleFactor = Return tt ->
  imageLoader (EnhanceImageRequest.imageInput request) = Return li ->
  (ImageValidation.validateDimensions (width li) (height li) ;;;
   ImageValidation.validateFileSize (sizeBytes li) ;;;
   ImageValidation.validateFormat (VString (format li)))%js = Throw e ->
  try_block imageLoader superResolution request startTime upscaleFactor
    (entry w)
  = (Throw e, entry (loaded imageLoader request w)).
Proof.
  intros Hf Hl Hv. unfold andThen in Hv.
  unfold try_block, entry, loaded.
  cbv beta iota zeta delta [bind eval EnhanceImageUseCase.in_world loadImage snd].
  cbn [world job originalImage].
  rewrite Hf, Hl.
  destruct (ImageValidation.validateDimensions (width li) (height li));
    [|inversion Hv; reflexivity].
  destruct (ImageValidation.validateFileSize (sizeBytes li));
    [|inversion Hv; reflexivity].
  destruct (ImageValidation.validateFormat (VString (format li)));
    [discriminate Hv|inversion Hv; reflexivity].
Qed.

(** The loaded data pass: an image and a job exist and the job is
    IN_PROGRESS when the resolution port is called; what follows depends
    on the port and on the computation of the enhanced dimensions. *)
Lemma job_started_run (li : LoadedImageData) (w : World) :
  ImageValidation.validateUpscaleFactor upscaleFactor = Return tt ->
  imageLoader (EnhanceImageRequest.imageInput request) = Return li ->
  ImageValidation.validateDimensions (width li) (height li) = Return tt ->
  ImageValidation.validateFileSize (sizeBytes li) = Return tt ->
  ImageValidation.validateFormat (VString (format li)) = Return tt ->
  exists (img : Image.t) (j : ProcessingJob.t) (w' : World),
    (forall e, superResolution (data li) upscaleFactor = Throw e ->
       try_block imageLoader superResolution request startTime upscaleFactor
    (entry w)
       = (Throw e, {| originalImage := Some img; job := Some j; world := w' |}))
    /\ (forall res e,
          superResolution (data li) upscaleFactor = Return res ->
          Image.getUpscaledDimensions img upscaleFactor = Throw e ->
          try_block imageLoader superResolution request startTime upscaleFactor
    (entry w)
          = (Throw e, {| originalImage := Some img; job := Some j; world := w' |}))
    /\ (forall res d,
          superResolution (data li) upscaleFactor = Return res ->
          Image.getUpscaledDimensions img upscaleFactor = Return d ->
          let total := elapsed (clock w' (ticks w')) startTime in
          let done :=
            ProcessingJob.mk (ProcessingJob._id j) img COMPLETED (Some d)
              (Some total) None (ProcessingJob._createdAt j)
              (Some (clock w' (S (ticks w')))) in
          exists w'',
            loaderCalls w'' = loaderCalls w'
            /\ enhancerCalls w'' = enhancerCalls w' /\
            try_block imageLoader superResolution request startTime upscaleFactor
    (entry w)
            = (Return
                 {| EnhanceImageResponse.success := true;
                    EnhanceImageResponse.enhancedImageData :=
                      Some (enhancedImageData res);
                    EnhanceImageResponse.originalImage := Some img;
                    EnhanceImageResponse.job := Some done;
                    EnhanceImageResponse.enhancedDimensions := Some d;
                    EnhanceImageResponse.processingTimeMs := total;
                    EnhanceImageResponse.errorMessage := None |},
               {| originalImage := Some img; job := Some done; world := w'' |}))
    /\ Image._width img = width li /\ Image._height img = height li
    /\ Image._format img = format li
    /\ Image._sizeInBytes img = sizeBytes li
    /\ ProcessingJob._status j = IN_PROGRESS
    /\ ProcessingJob._sourceImage j = img
    /\ ProcessingJob._enhancedDimensions j = None
    /\ ProcessingJob._processingTimeMs j = None
    /\ ProcessingJob._errorMessage j = None
    /\ ProcessingJob._completedAt j = None
    /\ loaderCalls w' = loaderCalls w ++ [EnhanceImageRequest.imageInput request]
    /\ enhancerCalls w' = enhancerCalls w ++ [(data li, upscaleFactor)].
Proof.
  intros Hf Hl Hd Hs Hfmt.
  remember (try_block imageLoader superResolution request startTime
              upscaleFactor (entry w)) as r eqn:Hr.
  unfold try_block, entry in Hr.
  unfold bind at 1 in Hr. unfold eval at 1 in Hr. rewrite Hf in Hr.
  unfold bind at 1 in Hr. unfold EnhanceImageUseCase.in_world at 1 in Hr.
  unfold loadImage in Hr.
  cbn [world originalImage job] in Hr. rewrite Hl in Hr.
  unfold bind at 1 in Hr. unfold eval at 1 in Hr. rewrite Hd in Hr.
  unfold bind at 1 in Hr. unfold eval at 1 in Hr. rewrite Hs in Hr.
  unfold bind at 1 in Hr. unfold eval at 1 in Hr. rewrite Hfmt in Hr.
  step_in Hr. rewrite Hd, Hfmt, Hs in Hr. step_in Hr.
  eexists _, _, _.
  split; [intros e He; rewrite Hr, He; reflexivity|].
  split; [intros res e He Hg; rewrite Hr, He, Hg; reflexivity|].
  split; [intros res d He Hg; cbv zeta; rewrite Hr, He, Hg;
          eexists; split; [|split; [|reflexivity]]; reflexivity|].
  cbn. repeat split; reflexivity.
Qed.

(** The [catch] clause when no job exists: [job?.fail] does nothing. *)
Lemma catch_without_job (e : Thrown) (oi : option Image.t) (w : World) :
  catch_clause e startTime {| originalImage := oi; job := None; world := w |}
  = (Return
       {| EnhanceImageResponse.success := false;
          EnhanceImageResponse.enhancedImageData := None;
          EnhanceImageResponse.originalImage := oi;
          EnhanceImageResponse.job := None;
          EnhanceImageResponse.enhancedDimensions := None;
          EnhanceImageResponse.processingTimeMs :=
            elapsed (clock w (ticks w)) startTime;
          EnhanceImageResponse.errorMessage := Some (messageOf e) |},
     {| originalImage := oi; job := None; world := snd (Date_now w) |}).
Proof. reflexivity. Qed.

(** The [catch] clause on a job IN_PROGRESS: the job fails with the
    message. *)
Lemma catch_in_progress (e : Thrown) (oi : option Image.t)
    (j : ProcessingJob.t) (w : World) :
  ProcessingJob._status j = IN_PROGRESS ->
  let failed :=
    ProcessingJob.mk (ProcessingJob._id j) (ProcessingJob._sourceImage j)
      FAILED (ProcessingJob._enhancedDimensions j)
      (ProcessingJob._processingTimeMs j) (Some (messageOf e))
      (ProcessingJob._createdAt j) (Some (clock w (S (ticks w)))) in
  catch_clause e startTime {| originalImage := oi; job := Some j; world := w |}
  = (Return
       {| EnhanceImageResponse.success := false;
          EnhanceImageResponse.enhancedImageData := None;
          EnhanceImageResponse.originalImage := oi;
          EnhanceImageResponse.job := Some failed;
          EnhanceImageResponse.enhancedDimensions := None;
          EnhanceImageResponse.processingTimeMs :=
            elapsed (clock w (ticks w)) startTime;
          EnhanceImageResponse.errorMessage := Some (messageOf e) |},
     {| originalImage := oi; job := Some failed;
        world := snd (Date_now (snd (Date_now w))) |}).
Proof.
  intros Hs failed. unfold failed, catch_clause.
  remember (messageOf e) as msg. remember (elapsed (clock w (ticks w)) startTime) as t.
  cbv beta iota zeta delta [bind eval ret gets modify throw
    EnhanceImageUseCase.in_world on_job Date_now new_Date
    ProcessingJob.fail ProcessingJob.this ProcessingJob.assign
    ProcessingJob.in_world ProcessingJob.set_status
    ProcessingJob.set_errorMessage ProcessingJob.set_completedAt fst snd].
  cbn [world job originalImage clock ticks entropy draws loaderCalls
    enhancerCalls].
  rewrite Hs. cbn. subst. reflexivity.
Qed.

(** On a job in another status the call made by the [catch] clause
    would itself throw; no run reaches the clause in such a state. *)
Lemma catch_in_other_status (e : Thrown) (oi : option Image.t)
    (j : ProcessingJob.t) (w : World) :
  ProcessingJob._status j <> IN_PROGRESS ->
  fst (catch_clause e startTime
         {| originalImage := oi; job := Some j; world := w |})
  = Throw (Error ProcessingJob.failFromOtherStatus).
Proof.
  intros Hs. unfold catch_clause.
  cbv beta iota zeta delta [bind eval ret gets modify throw
    EnhanceImageUseCase.in_world on_job Date_now new_Date
    ProcessingJob.fail ProcessingJob.this ProcessingJob.assign
    ProcessingJob.in_world fst snd].
  cbn [world job originalImage].
  destruct (ProcessingJob._status j); simpl; congruence.
Qed.

(** The ways the [try] block ends. *)
Lemma try_block_outcomes (w : World) :
  let r := try_block imageLoader superResolution request startTime upscaleFactor
    (entry w) in
  (exists e w1,
      r = (Throw e, entry w1)
      /\ (ImageValidation.validateUpscaleFactor upscaleFactor = Throw e
          -> w1 = w))
  \/ (exists e img j w1,
      r = (Throw e, {| originalImage := Some img; job := Some j; world := w1 |})
      /\ ProcessingJob._status j = IN_PROGRESS)
  \/ (exists response fr j,
      r = (Return response, fr)
      /\ EnhanceImageResponse.success response = true
      /\ EnhanceImageResponse.job response = Some j
      /\ ProcessingJob._status j = COMPLETED).
Proof.
  intros r. subst r.
  destruct (ImageValidation.validateUpscaleFactor upscaleFactor) as [[]|e] eqn:Hf.
  2:{ left. exists e, w. split; [apply invalid_factor_run; assumption|].
      reflexivity. }
  destruct (imageLoader (EnhanceImageRequest.imageInput request)) as [li|e] eqn:Hl.
  2:{ left. exists e, (loaded imageLoader request w).
      split; [apply loader_rejects_run; assumption | discriminate]. }
  destruct (ImageValidation.validateDimensions (width li) (height li) ;;;
            ImageValidation.validateFileSize (sizeBytes li) ;;;
            ImageValidation.validateFormat (VString (format li)))%js
    as [[]|e] eqn:Hv.
  2:{ left. exists e, (loaded imageLoader request w).
      split; [apply (invalid_data_run li); assumption | discriminate]. }
  unfold andThen in Hv.
  destruct (ImageValidation.validateDimensions (width li) (height li))
    as [[]|] eqn:Hd; [|discriminate Hv].
  destruct (ImageValidation.validateFileSize (sizeBytes li))
    as [[]|] eqn:Hs; [|discriminate Hv].
  destruct (job_started_run li w Hf Hl Hd Hs Hv)
    as (img & j & w' & Hrej & Hdim & Hok & _ & _ & _ & _ & Hst & _).
  destruct (superResolution (data li) upscaleFactor) as [res|e] eqn:Hr.
  2:{ right. left. exists e, img, j, w'. split; [apply Hrej; reflexivity|].
      assumption. }
  destruct (Image.getUpscaledDimensions img upscaleFactor) as [d|e] eqn:Hg.
  2:{ right. left. exists e, img, j, w'.
      split; [apply (Hdim res); reflexivity|]. assumption. }
  right. right.
  destruct (Hok res d eq_refl eq_refl) as (w'' & _ & _ & Hbody).
  eexists _, _, _. split; [exact Hbody|]. repeat split.
Qed.

End Runs.

End UseCaseFacts.

(** C8: with no upscale factor in the request, a loader that resolves to
    800 x 600, 'jpeg', 50000 bytes and a resolution port that fulfils the
    call made on it, the factor 2 is used, the response has
    [success = true] and enhanced dimensions 1600 x 1200, and its job is
    COMPLETED. *)
Theorem default_factor_scenario (imageLoader : ImageLoaderPort)
    (superResolution : SuperResolutionPort) (request : EnhanceImageRequest.t)
    (w : World) (bytes : Buffer) (res : SuperResolutionResult) :
  EnhanceImageRequest.upscaleFactor request = None ->
  imageLoader (EnhanceImageRequest.imageInput request)
  = Return {| data := bytes; width := of_Z 800; height := of_Z 600;
              format := "jpeg"; sizeBytes := of_Z 50000 |} ->
  superResolution bytes (of_Z 2) = Return res ->
  exists response w' j,
    EnhanceImageUseCase.execute imageLoader superResolution request w
    = (Return response, w')
    /\ EnhanceImageResponse.success response = true
    /\ EnhanceImageResponse.enhancedDimensions response
       = Some (ImageDimensions.mk (of_Z 1600) (of_Z 1200))
    /\ EnhanceImageResponse.job response = Some j
    /\ ProcessingJob.status j = COMPLETED
    /\ ProcessingJob.enhancedDimensions j
       = Some (ImageDimensions.mk (of_Z 1600) (of_Z 1200))
    /\ EnhanceImageResponse.enhancedImageData response
       = Some (enhancedImageData res)
    /\ EnhanceImageResponse.errorMessage response = None
    /\ loaderCalls w'
       = loaderCalls w ++ [EnhanceImageRequest.imageInput request]
    /\ enhancerCalls w' = enhancerCalls w ++ [(bytes, of_Z 2)].
Proof.
  intros Hnone Hload Hres.
  unfold EnhanceImageUseCase.execute, EnhanceImageUseCase.enter,
    EnhanceImageUseCase.resolveUpscaleFactor.
  rewrite Hnone.
  destruct (UseCaseFacts.job_started_run imageLoader superResolution request
              (clock w (ticks w)) (of_Z 2) _ (snd (Date_now w))
              eq_refl Hload eq_refl eq_refl eq_refl)
    as (img & j & w1 & _ & _ & Hok & Hwidth & Hheight & _ & _ & _ & _ & _ & _
        & _ & _ & Hloads & Hcalls).
  assert (Hdims : Image.getUpscaledDimensions img (of_Z 2)
                  = Return (ImageDimensions.mk (of_Z 1600) (of_Z 1200))).
  { unfold Image.getUpscaledDimensions. rewrite Hwidth, Hheight. reflexivity. }
  destruct (Hok res _ Hres Hdims) as (w2 & Hloads2 & Hcalls2 & Hbody).
  cbn [data] in Hbody, Hcalls. rewrite Hbody.
  eexists _, _, _. split; [reflexivity|].
  cbn [EnhanceImageUseCase.world]. rewrite Hloads2, Hcalls2, Hloads, Hcalls.
  cbn. repeat split.
Qed.

Lemma default_factor_scenario_witness :
  exists response w' j,
    EnhanceImageUseCase.execute sampleLoader sampleResolver sampleRequest
      sampleWorld = (Return response, w')
    /\ EnhanceImageResponse.success response = true
    /\ EnhanceImageResponse.enhancedDimensions response
       = Some (ImageDimensions.mk (of_Z 1600) (of_Z 1200))
    /\ EnhanceImageResponse.job response = Some j
    /\ ProcessingJob.status j = COMPLETED.
Proof.
  destruct (default_factor_scenario sampleLoader sampleResolver sampleRequest
              sampleWorld (data sampleLoadedImage)
              (Build_SuperResolutionResult
                 (data sampleLoadedImage ++ data sampleLoadedImage) (of_Z 1500))
              eq_refl eq_refl eq_refl)
    as (response & w' & j & Hrun & Hsucc & Hdims & Hjob & Hst & _).
  exists response, w', j. repeat split; assumption.
Defined.

(** C9: when the resolved upscale factor (that of the request, 2 when it
    has none) is invalid, [execute] answers [success = false] with the
    message of the validation error and has not called the image loader
    (nor the resolution port); no image and no job were created. *)
Theorem invalid_factor_never_loads (imageLoader : ImageLoaderPort)
    (superResolution : SuperResolutionPort) (request : EnhanceImageRequest.t)
    (w : World) :
  ImageValidation.validateUpscaleFactor
    (EnhanceImageUseCase.resolveUpscaleFactor request) <> Return tt ->
  exists response w' e,
    EnhanceImageUseCase.execute imageLoader superResolution request w
    = (Return response, w')
    /\ ImageValidation.validateUpscaleFactor
         (EnhanceImageUseCase.resolveUpscaleFactor request) = Throw e
    /\ EnhanceImageResponse.success response = false
    /\ EnhanceImageResponse.errorMessage response
       = Some (match e with
               | ErrorObject message => message
               | NonError _ => "Unknown error"%string
               end)
    /\ loaderCalls w' = loaderCalls w
    /\ enhancerCalls w' = enhancerCalls w
    /\ EnhanceImageResponse.originalImage response = None
    /\ EnhanceImageResponse.job response = None.
Proof.
  intros Hbad.
  destruct (ImageValidation.validateUpscaleFactor
              (EnhanceImageUseCase.resolveUpscaleFactor request))
    as [[]|e] eqn:Hf; [congruence|].
  unfold EnhanceImageUseCase.execute, EnhanceImageUseCase.enter.
  rewrite (UseCaseFacts.invalid_factor_run imageLoader superResolution request
             _ _ e _ Hf).
  unfold EnhanceImageUseCase.entry.
  rewrite UseCaseFacts.catch_without_job.
  eexists _, _, e. split; [reflexivity|]. cbn. repeat split.
Qed.

Lemma invalid_factor_never_loads_witness :
  exists response w' e,
    EnhanceImageUseCase.execute sampleLoader sampleResolver
      tooLargeFactorRequest sampleWorld = (Return response, w')
    /\ ImageValidation.validateUpscaleFactor (of_Z 5) = Throw e
    /\ EnhanceImageResponse.success response = false
    /\ EnhanceImageResponse.errorMessage response
       = Some (match e with
               | ErrorObject message => message
               | NonError _ => "Unknown error"%string
               end)
    /\ loaderCalls w' = []
    /\ enhancerCalls w' = [].
Proof.
  destruct (invalid_factor_never_loads sampleLoader sampleResolver
              tooLargeFactorRequest sampleWorld)
    as (response & w' & e & Hrun & Hf & Hsucc & Hmsg & Hl & He & _).
  - discriminate.
  - exists response, w', e. repeat split; assumption.
Defined.

(** ** The assertions of the repository's test suites *)

Module RepositoryTests.

Import ImageValidation.

Example dimensions_accepted :
  validateDimensions (of_Z 1920) (of_Z 1080) = Return tt
  /\ validateDimensions (of_Z 1) (of_Z 1) = Return tt
  /\ validateDimensions (of_Z 9999) (of_Z 9999) = Return tt
  /\ validateDimensions (of_Z 10000) (of_Z 10000) = Return tt.
Proof. vm_compute. repeat split; reflexivity. Qed.

Example dimensions_rejected :
  validateDimensions (of_Z 0) (of_Z 1080) = Throw (Error dimensionsNotPositive)
  /\ validateDimensions (of_Z 1920) (of_Z 0) = Throw (Error dimensionsNotPositive)
  /\ validateDimensions (of_Z (-100)) (of_Z 1080) = Throw (Error dimensionsNotPositive)
  /\ validateDimensions (of_dyadic 3841 1) (of_Z 1080)
     = Throw (Error dimensionsNotIntegers)
  /\ validateDimensions (of_Z 10001) (of_Z 1080) = Throw (Error dimensionsTooLarge)
  /\ validateDimensions (of_Z 1920) (of_Z 10001) = Throw (Error dimensionsTooLarge)
  /\ validateDimensions NaN (of_Z 1080) = Throw (Error dimensionsNotIntegers)
  /\ validateDimensions Infinity (of_Z 1080) = Throw (Error dimensionsNotIntegers).
Proof. vm_compute. repeat split; reflexivity. Qed.

Example formats :
  validateFormat (VString "jpeg") = Return tt
  /\ validateFormat (VString "JPG") = Return tt
  /\ validateFormat (VString "png") = Return tt
  /\ validateFormat (VString "WEBP") = Return tt
  /\ validateFormat (VString "bmp") = Return tt
  /\ validateFormat (VString "tiff")
     = Throw (Error "Unsupported image format: tiff. Supported: jpeg, jpg, png, webp, bmp")
  /\ validateFormat (VString "") = Throw (Error formatNotAString)
  /\ validateFormat VNull = Throw (Error formatNotAString)
  /\ validateFormat VUndefined = Throw (Error formatNotAString).
Proof. vm_compute. repeat split; reflexivity. Qed.

Example file_sizes :
  validateFileSize (of_Z 1024) = Return tt
  /\ validateFileSize (mul (mul (of_Z 50) (of_Z 1024)) (of_Z 1024)) = Return tt
  /\ validateFileSize (of_Z 1) = Return tt
  /\ validateFileSize (of_Z 0) = Throw (Error "File size must be positive")
  /\ validateFileSize (of_Z (-1000)) = Throw (Error "File size must be positive")
  /\ validateFileSize (mul (mul (of_Z 51) (of_Z 1024)) (of_Z 1024))
     = Throw (Error "File size exceeds maximum allowed (50MB)")
  /\ validateFileSize NaN = Return tt.
Proof. vm_compute. repeat split; reflexivity. Qed.

Example upscale_factors :
  validateUpscaleFactor (of_Z 2) = Return tt
  /\ validateUpscaleFactor (of_Z 4) = Return tt
  /\ validateUpscaleFactor (of_dyadic 3 1) = Return tt
  /\ validateUpscaleFactor (div (of_Z 399) (of_Z 100)) = Return tt
  /\ validateUpscaleFactor (of_Z 1) = Throw (Error factorTooSmall)
  /\ validateUpscaleFactor half = Throw (Error factorTooSmall)
  /\ validateUpscaleFactor (of_Z 5) = Throw (Error factorTooLarge)
  /\ validateUpscaleFactor Infinity = Throw (Error factorNotFinite)
  /\ validateUpscaleFactor NaN = Throw (Error factorNotFinite).
Proof. vm_compute. repeat split; reflexivity. Qed.

Example image_metrics :
  Image.getUpscaledDimensions sampleImage (of_Z 2)
  = Return (ImageDimensions.mk (of_Z 3840) (of_Z 2160))
  /\ Image.getUpscaledDimensions sampleImage (of_Z 4)
     = Return (ImageDimensions.mk (of_Z 7680) (of_Z 4320))
  /\ Image.canBeUpscaled sampleImage = true
  /\ Image.canBeUpscaled
       (Image.mk "border-1" (of_Z 4000) (of_Z 4000) "jpeg" (of_Z 1500000) 0) = false
  /\ Image.canBeUpscaled
       (Image.mk "under-1" (of_Z 3999) (of_Z 3999) "jpeg" (of_Z 1400000) 0) = true
  /\ Image.isLowResolution sampleImage = false
  /\ Image.megapixels
       (Image.mk "1mp-1" (of_Z 1000) (of_Z 1000) "jpeg" (of_Z 300000) 0) = of_Z 1
  /\ ImageDimensions.toString sampleDimensions = "3840x2160"%string.
Proof. vm_compute. repeat split; reflexivity. Qed.

(** The product is the binary64 one: three times [awkwardFactor] is
    [5.5 - 2^(-52)], the multiplication returns 5.5 and the rounding 6. *)
Example product_is_rounded_first :
  validateUpscaleFactor awkwardFactor = Return tt
  /\ mul (of_Z 3) awkwardFactor = of_dyadic 11 1
  /\ Math_round (mul (of_Z 3) awkwardFactor) = of_Z 6.
Proof. vm_compute. repeat split; reflexivity. Qed.

Example rounding :
  Math_round (mul (of_Z 1920) (of_dyadic 3 1)) = of_Z 2880
  /\ Math_round (of_dyadic 5 1) = of_Z 3
  /\ Math_round (of_dyadic (-5) 1) = of_Z (-2)
  /\ Math_round (of_dyadic 1 2) = S754_zero false
  /\ Math_round (of_dyadic (-1) 2) = S754_zero true
  /\ Math_round (of_dyadic (2 ^ 53 - 1) 54) = S754_zero false.
Proof. vm_compute. repeat split; reflexivity. Qed.

Example custom_factor_run :
  let run :=
    EnhanceImageUseCase.execute (fun _ => Return sampleLoadedPng) sampleResolver
      (EnhanceImageRequest.mk (InputUrl "http://example.com/image.png")
         (Some (of_Z 3))) sampleWorld in
  match fst run with
  | Return response =>
      EnhanceImageResponse.success response = true
      /\ EnhanceImageResponse.enhancedDimensions response
         = Some (ImageDimensions.mk (of_Z 1200) (of_Z 900))
  | Throw _ => False
  end
  /\ enhancerCalls (snd run) = [(data sampleLoadedPng, of_Z 3)]
  /\ loaderCalls (snd run) = [InputUrl "http://example.com/image.png"].
Proof. vm_compute. repeat split; reflexivity. Qed.

Example loader_failure_run :
  match fst (EnhanceImageUseCase.execute
               (fun _ => Throw (Error "Failed to load image"))
               sampleResolver sampleRequest sampleWorld) with
  | Return response =>
      EnhanceImageResponse.success response = false
      /\ EnhanceImageResponse.errorMessage response
         = Some "Failed to load image"%string
      /\ EnhanceImageResponse.originalImage response = None
      /\ EnhanceImageResponse.job response = None
      /\ EnhanceImageResponse.enhancedImageData response = None
  | Throw _ => False
  end.
Proof. vm_compute. repeat split; reflexivity. Qed.

End RepositoryTests.

(** * Further properties *)

(** ** Exact operations on integers *)

Module ExactFacts.

Import NumberFacts.

Lemma shr_1_even (m : Z) :
  0 <= m -> (2 | m) ->
  shr_1 {| shr_m := m; shr_r := false; shr_s := false |}
  = {| shr_m := m / 2; shr_r := false; shr_s := false |}.
Proof.
  intros Hm [q Hq]. destruct m as [|p|p]; [reflexivity| |lia].
  destruct p as [p|p|]; try lia. simpl. f_equal.
  apply Z.div_unique with 0; lia.
Qed.

Lemma iter_shr_1_exact (n : positive) :
  forall m, 0 <= m -> (2 ^ Z.pos n | m) ->
    iter_pos shr_1 n {| shr_m := m; shr_r := false; shr_s := false |}
    = {| shr_m := m / 2 ^ Z.pos n; shr_r := false; shr_s := false |}.
Proof.
  induction n as [n IH|n IH|]; intros m Hm [q Hq]; cbn [iter_pos].
  - assert (Hp : 0 < 2 ^ Z.pos n) by (apply Z.pow_pos_nonneg; lia).
    assert (Hsplit : 2 ^ Z.pos n~1 = 2 * (2 ^ Z.pos n * 2 ^ Z.pos n)).
    { replace (Z.pos n~1) with (1 + (Z.pos n + Z.pos n)) by lia.
      rewrite !Z.pow_add_r by lia. reflexivity. }
    rewrite Hsplit in *.
    assert (H1 : m / 2 = q * 2 ^ Z.pos n * 2 ^ Z.pos n).
    { subst m. symmetry. apply Z.div_unique with 0; lia. }
    assert (H2 : m / 2 / 2 ^ Z.pos n = q * 2 ^ Z.pos n).
    { rewrite H1. apply Z.div_mul. lia. }
    assert (H3 : m / 2 / 2 ^ Z.pos n / 2 ^ Z.pos n = q).
    { rewrite H2. apply Z.div_mul. lia. }
    assert (Hq0 : 0 <= q) by nia.
    rewrite shr_1_even; [|assumption|exists (q * (2 ^ Z.pos n * 2 ^ Z.pos n)); lia].
    rewrite IH; [|rewrite H1; nia|exists (q * 2 ^ Z.pos n); lia].
    rewrite IH; [|rewrite H2; nia|exists q; lia].
    f_equal. rewrite H3. subst m. rewrite Z.div_mul by lia. reflexivity.
  - assert (Hp : 0 < 2 ^ Z.pos n) by (apply Z.pow_pos_nonneg; lia).
    assert (Hsplit : 2 ^ Z.pos n~0 = 2 ^ Z.pos n * 2 ^ Z.pos n).
    { replace (Z.pos n~0) with (Z.pos n + Z.pos n) by lia.
      rewrite !Z.pow_add_r by lia. reflexivity. }
    rewrite Hsplit in *.
    assert (H2 : m / 2 ^ Z.pos n = q * 2 ^ Z.pos n).
    { subst m. rewrite Z.mul_assoc. apply Z.div_mul. lia. }
    assert (H3 : m / 2 ^ Z.pos n / 2 ^ Z.pos n = q).
    { rewrite H2. apply Z.div_mul. lia. }
    assert (Hq0 : 0 <= q) by nia.
    rewrite IH; [|assumption|exists (q * 2 ^ Z.pos n); lia].
    rewrite IH; [|rewrite H2; nia|exists q; lia].
    f_equal. rewrite H3. subst m. rewrite Z.div_mul by lia. reflexivity.
  - apply shr_1_even; [assumption|exists q; exact Hq].
Qed.


(** A mantissa whose bits below the 53 leading ones are zero is rounded
    without change of value. *)
Lemma binary_round_aux_divisible (s : bool) (M : positive) (E : Z) :
  2 ^ 52 <= Z.pos M ->
  (2 ^ (Z.pos (digits2_pos M) - 53) | Z.pos M) ->
  -1074 <= E ->
  E + Z.pos (digits2_pos M) <= 1024 ->
  exists m,
    binary_round_aux prec emax s (Z.pos M) E loc_Exact
    = S754_finite s m (E + Z.pos (digits2_pos M) - 53)
    /\ Z.pos m * 2 ^ (Z.pos (digits2_pos M) - 53) = Z.pos M
    /\ 2 ^ 52 <= Z.pos m < 2 ^ 53.
Proof.
  intros HM Hdiv HE Hmax.
  pose proof (digits2_bounds M) as Hd.
  set (d := Z.pos (digits2_pos M)) in *.
  assert (Hd53 : 53 <= d).
  { destruct (Z.le_gt_cases 53 d) as [|Hlt]; [assumption|].
    assert (2 ^ d <= 2 ^ 52) by (apply Z.pow_le_mono_r; lia). lia. }
  assert (Hp : 0 < 2 ^ (d - 53)) by (apply Z.pow_pos_nonneg; lia).
  destruct Hdiv as [q Hq].
  assert (Hq1 : Z.pos M / 2 ^ (d - 53) = q) by (rewrite Hq; apply Z.div_mul; lia).
  assert (Hqb : 2 ^ 52 <= q < 2 ^ 53).
  { rewrite <- Hq1. split.
    - apply Z.div_le_lower_bound; [lia|].
      rewrite <- Z.pow_add_r by lia.
      replace (d - 53 + 52) with (d - 1) by lia. lia.
    - apply Z.div_lt_upper_bound; [lia|].
      rewrite <- Z.pow_add_r by lia.
      replace (d - 53 + 53) with d by lia. lia. }
  destruct q as [|m|m]; try (simpl in Hqb; lia).
  exists m. split; [|split; [lia|assumption]].
  assert (Hshift : shr_fexp prec emax (Z.pos M) E loc_Exact
                   = ({| shr_m := Z.pos m; shr_r := false; shr_s := false |},
                      E + d - 53)).
  { unfold shr_fexp. cbn [Zdigits2 shr_record_of_loc]. fold d.
    replace (fexp prec emax (d + E) - E) with (d - 53)
      by (unfold fexp, emin, prec, emax; lia).
    unfold shr. destruct (d - 53) as [|k|k] eqn:Hk; try lia.
    - rewrite <- Hq1. change (2 ^ 0) with 1. rewrite Z.div_1_r.
      f_equal. lia.
    - rewrite iter_shr_1_exact; [|lia|exists (Z.pos m); exact Hq].
      rewrite Hq1. f_equal. lia. }
  unfold binary_round_aux. rewrite Hshift.
  cbn [shr_m loc_of_shr_record round_nearest_even].
  rewrite shr_fexp_exact;
    [|apply digits2_unique; simpl; lia|lia].
  cbn [shr_m].
  replace (E + d - 53 <=? emax - prec) with true
    by (symmetry; apply Z.leb_le; unfold emax, prec; lia).
  reflexivity.
Qed.

(** A normal mantissa that holds [n * 2^(-e)] is the one of the integer
    literal [n]. *)
Lemma binary_round_unique (s : bool) (m n : positive) (e : Z) :
  2 ^ 52 <= Z.pos m < 2 ^ 53 ->
  -52 <= e <= 0 ->
  Z.pos m = Z.pos n * 2 ^ (- e) ->
  S754_finite s m e = binary_round prec emax s n 0.
Proof.
  intros Hm He Hv.
  assert (Hp : 0 < 2 ^ (- e)) by (apply Z.pow_pos_nonneg; lia).
  assert (Hn : Z.pos n < 2 ^ 53) by nia.
  destruct (binary_round_integer s n Hn) as (m' & e' & -> & Hm' & He' & Hv').
  pose proof (scaled_compare m m' e e' (Z.pos n) (Z.pos n) Hm Hm'
                ltac:(lia) ltac:(lia) Hv Hv') as Hc.
  rewrite Z.compare_refl in Hc.
  destruct (Z.compare_spec e e') as [Heq|Hlt|Hgt]; try discriminate Hc.
  subst e'. change (Pos.compare_cont Eq m m') with (Pos.compare m m') in Hc.
  apply Pos.compare_eq in Hc. subst m'. reflexivity.
Qed.

Lemma digits2_scaled (M n : positive) (k : Z) :
  0 <= k -> Z.pos M = Z.pos n * 2 ^ k ->
  Z.pos (digits2_pos M) = Z.pos (digits2_pos n) + k.
Proof.
  intros Hk HM. pose proof (digits2_bounds n) as Hd.
  assert (Hp : 0 < 2 ^ k) by (apply Z.pow_pos_nonneg; lia).
  apply digits2_unique. rewrite HM.
  replace (Z.pos (digits2_pos n) + k - 1)
    with (Z.pos (digits2_pos n) - 1 + k) by lia.
  rewrite !Z.pow_add_r by lia. nia.
Qed.

(** An integer below [2^53] written with [k] more zero bits at exponent
    [-k] rounds to the literal of the integer. *)
Lemma binary_round_aux_scaled (s : bool) (M n : positive) (k : Z) :
  0 <= k <= 1000 ->
  Z.pos n < 2 ^ 53 ->
  Z.pos M = Z.pos n * 2 ^ k ->
  2 ^ 52 <= Z.pos M ->
  binary_round_aux prec emax s (Z.pos M) (- k) loc_Exact
  = binary_round prec emax s n 0.
Proof.
  intros Hk Hn HM Hbig.
  pose proof (digits2_scaled M n k ltac:(lia) HM) as HD.
  pose proof (digits2_bounds n) as Hdn.
  set (dn := Z.pos (digits2_pos n)) in *.
  assert (Hdn1 : 1 <= dn) by (unfold dn; lia).
  assert (Hdn53 : dn <= 53).
  { destruct (Z.le_gt_cases dn 53) as [|Hgt]; [assumption|].
    assert (2 ^ 53 <= 2 ^ (dn - 1)) by (apply Z.pow_le_mono_r; lia). lia. }
  pose proof (digits2_bounds M) as HdM. rewrite HD in HdM.
  assert (Hshift : 0 <= dn + k - 53).
  { destruct (Z.le_gt_cases 0 (dn + k - 53)) as [|Hneg]; [assumption|].
    assert (2 ^ (dn + k) <= 2 ^ 52) by (apply Z.pow_le_mono_r; lia). lia. }
  destruct (binary_round_aux_divisible s M (- k)) as (m & Hr & Hval & Hm).
  - assumption.
  - rewrite HD, HM. exists (Z.pos n * 2 ^ (53 - dn)).
    rewrite <- Z.mul_assoc, <- Z.pow_add_r by lia. do 2 f_equal. lia.
  - lia.
  - rewrite HD. lia.
  - rewrite Hr, HD. apply binary_round_unique; [assumption|lia|].
    assert (Hp : 0 < 2 ^ (dn + k - 53)) by (apply Z.pow_pos_nonneg; lia).
    apply (Z.mul_cancel_r _ _ (2 ^ (dn + k - 53))); [lia|].
    rewrite HD in Hval. rewrite Hval, HM.
    rewrite <- Z.mul_assoc, <- Z.pow_add_r by lia. do 2 f_equal. lia.
Qed.


Lemma of_Z_pos (n : positive) : of_Z (Z.pos n) = binary_round prec emax false n 0.
Proof. reflexivity. Qed.

(** The product of two positive integers is exact as long as it stays
    below [2^53]. *)
Lemma mul_of_Z (a b : Z) :
  0 < a -> 0 < b -> a * b < 2 ^ 53 ->
  mul (of_Z a) (of_Z b) = of_Z (a * b).
Proof.
  intros Ha Hb Hab.
  destruct (of_Z_shape a ltac:(lia) ltac:(nia))
    as (ma & ea & -> & Hma & Hea & Hva).
  destruct (of_Z_shape b ltac:(lia) ltac:(nia))
    as (mb & eb & -> & Hmb & Heb & Hvb).
  replace (a <? 0) with false by (symmetry; apply Z.ltb_ge; lia).
  replace (b <? 0) with false by (symmetry; apply Z.ltb_ge; lia).
  unfold mul, SFmul. cbn [xorb].
  rewrite Z.abs_eq in Hva, Hvb by lia.
  destruct a as [|pa|pa]; try lia. destruct b as [|pb|pb]; try lia.
  change (Z.pos pa * Z.pos pb) with (Z.pos (pa * pb)) in *.
  rewrite of_Z_pos.
  replace (ea + eb) with (- (- ea - eb)) by lia.
  apply binary_round_aux_scaled.
  - lia.
  - assumption.
  - rewrite Pos2Z.inj_mul, Hva, Hvb, Pos2Z.inj_mul.
    replace (- ea - eb) with (- ea + - eb) by lia.
    rewrite Z.pow_add_r by lia. ring.
  - rewrite Pos2Z.inj_mul.
    assert (2 ^ 52 * 2 ^ 52 <= Z.pos ma * Z.pos mb)
      by (apply Z.mul_le_mono_nonneg; lia).
    assert (2 ^ 52 <= 2 ^ 52 * 2 ^ 52) by (simpl; lia). lia.
Qed.

(** Rounding leaves a positive integer as it is. *)
Lemma Math_round_of_Z (n : Z) :
  0 < n < 2 ^ 53 -> Math_round (of_Z n) = of_Z n.
Proof.
  intros Hn.
  destruct (of_Z_shape n ltac:(lia) ltac:(lia)) as (m & e & Hx & Hm & He & Hv).
  replace (n <? 0) with false in Hx by (symmetry; apply Z.ltb_ge; lia).
  rewrite Hx. rewrite Z.abs_eq in Hv by lia.
  unfold Math_round. destruct (Z.leb_spec 0 e) as [Hz|Hneg]; [reflexivity|].
  cbn [cond_Zopp].
  assert (Hp : 0 < 2 ^ (- e)) by (apply Z.pow_pos_nonneg; lia).
  assert (Hhalf : 0 <= 2 ^ (- e - 1) < 2 ^ (- e)).
  { split; [apply Z.pow_nonneg; lia|apply Z.pow_lt_mono_r; lia]. }
  replace ((Z.pos m + 2 ^ (- e - 1)) / 2 ^ (- e)) with n.
  - exact Hx.
  - apply Z.div_unique with (2 ^ (- e - 1)); [lia|]. rewrite Hv. ring.
Qed.

(** The integral part of an integer literal is the integer. *)
Lemma trunc_of_Z (n : Z) : Z.abs n < 2 ^ 53 -> trunc (of_Z n) = n.
Proof.
  intros Hb. destruct (Z.eq_dec n 0) as [->|Hn]; [reflexivity|].
  destruct (of_Z_shape n Hn Hb) as (m & e & -> & Hm & He & Hv).
  assert (Hp : 0 < 2 ^ (- e)) by (apply Z.pow_pos_nonneg; lia).
  unfold trunc.
  assert (Hmag : (if 0 <=? e then Z.pos m * 2 ^ e else Z.pos m / 2 ^ (- e))
                 = Z.abs n).
  { destruct (Z.leb_spec 0 e) as [Hz|Hneg].
    - assert (e = 0) by lia. subst e. simpl in Hv. simpl. lia.
    - rewrite Hv. apply Z.div_mul. lia. }
  rewrite Hmag. unfold cond_Zopp.
  destruct (Z.ltb_spec n 0); lia.
Qed.

End ExactFacts.

(** ** The validators and the value objects, continued *)

Module NumberFacts2.

Lemma isFinite_of_Z (n : Z) : Z.abs n < 2 ^ 53 -> isFinite (of_Z n) = true.
Proof.
  intros Hb. destruct (Z.eq_dec n 0) as [->|Hn]; [reflexivity|].
  destruct (NumberFacts.of_Z_shape n Hn Hb) as (m & e & -> & _). reflexivity.
Qed.

(** Strict equality of two positive finite numbers is identity. *)
Lemma SFeqb_positive (x y : number) :
  isInteger x = true -> le x (of_Z 0) = false ->
  isInteger y = true -> le y (of_Z 0) = false ->
  (SFeqb x y = true <-> x = y).
Proof.
  intros Hix Hpx Hiy Hpy. rewrite NumberFacts.of_Z_0 in *.
  destruct x as [sx|sx| |sx mx ex]; try discriminate;
    destruct y as [sy|sy| |sy my ey]; try discriminate.
  destruct sx; [discriminate Hpx|]. destruct sy; [discriminate Hpy|].
  unfold SFeqb, SFcompare. split.
  - destruct (Z.compare_spec ex ey) as [He|He|He]; try discriminate.
    change (Pos.compare_cont Eq mx my) with (Pos.compare mx my).
    destruct (Pos.compare_spec mx my) as [Hm|Hm|Hm]; try discriminate.
    intros _. subst. reflexivity.
  - intros H. inversion H; subst. rewrite Z.compare_refl.
    change (Pos.compare_cont Eq my my) with (Pos.compare my my).
    rewrite Pos.compare_refl. reflexivity.
Qed.

End NumberFacts2.

(** X1: [validateUpscaleFactor] succeeds exactly on the finite numbers [f]
    with [1 < f <= 4]; a number that is not finite is reported first, then
    one that is [<= 1], then one above 4; among the integers exactly 2, 3
    and 4 are accepted. *)
Theorem validateUpscaleFactor_spec (f : number) :
  (ImageValidation.validateUpscaleFactor f = Return tt <->
     isFinite f = true /\ lt (of_Z 1) f = true /\ le f (of_Z 4) = true)
  /\ (isFinite f = false ->
      ImageValidation.validateUpscaleFactor f
      = Throw (Error "Upscale factor must be a finite number"))
  /\ (isFinite f = true -> le f (of_Z 1) = true ->
      ImageValidation.validateUpscaleFactor f
      = Throw (Error "Upscale factor must be greater than 1"))
  /\ (isFinite f = true -> le f (of_Z 1) = false -> gt f (of_Z 4) = true ->
      ImageValidation.validateUpscaleFactor f
      = Throw (Error "Upscale factor cannot exceed 4x for performance reasons"))
  /\ (forall n : Z, Z.abs n < 2 ^ 53 ->
      (ImageValidation.validateUpscaleFactor (of_Z n) = Return tt <->
         2 <= n <= 4)).
Proof.
  split; [|split; [|split; [|split]]].
  - rewrite ValidationFacts.validateUpscaleFactor_Return.
    assert (H1 : of_Z 1 <> NaN) by discriminate.
    assert (H4 : of_Z 4 <> NaN) by discriminate.
    split; intros (Hfin & Ha & Hb);
      pose proof (NumberFacts.isFinite_not_NaN f Hfin) as Hn;
      (split; [assumption|split]).
    + apply (NumberFacts.le_false_iff_gt f (of_Z 1)); assumption.
    + apply NumberFacts.gt_false_iff_le; assumption.
    + apply (NumberFacts.le_false_iff_gt f (of_Z 1)); assumption.
    + apply NumberFacts.gt_false_iff_le; assumption.
  - intros H. unfold ImageValidation.validateUpscaleFactor. rewrite H. reflexivity.
  - intros Hf H. unfold ImageValidation.validateUpscaleFactor.
    rewrite Hf, H. reflexivity.
  - intros Hf H1 H4. unfold ImageValidation.validateUpscaleFactor.
    rewrite Hf, H1, H4. reflexivity.
  - intros n Hn. rewrite ValidationFacts.validateUpscaleFactor_Return.
    rewrite NumberFacts2.isFinite_of_Z, NumberFacts.le_of_Z, NumberFacts.gt_of_Z
      by (assumption || (simpl; lia)).
    rewrite Z.leb_gt, Z.ltb_ge. intuition lia.
Qed.

Lemma validateUpscaleFactor_spec_witness :
  ImageValidation.validateUpscaleFactor (of_Z 7)
  = Throw (Error "Upscale factor cannot exceed 4x for performance reasons").
Proof.
  apply (proj1 (proj2 (proj2 (proj2 (validateUpscaleFactor_spec (of_Z 7))))));
    reflexivity.
Defined.

Module ValidationFacts2.

Import ImageValidation.

(** On positive integers only the upper bound can fail. *)
Lemma validateDimensions_positive (a b : Z) :
  0 < a < 2 ^ 53 -> 0 < b < 2 ^ 53 ->
  validateDimensions (of_Z a) (of_Z b) =
    if (a <=? 10000) && (b <=? 10000) then Return tt
    else Throw (Error dimensionsTooLarge).
Proof.
  intros Ha Hb. unfold validateDimensions.
  rewrite !NumberFacts.le_of_Z, !NumberFacts.gt_of_Z,
    !NumberFacts.isInteger_of_Z by (simpl; lia).
  replace (a <=? 0) with false by (symmetry; apply Z.leb_gt; lia).
  replace (b <=? 0) with false by (symmetry; apply Z.leb_gt; lia).
  cbn [orb negb].
  destruct (Z.leb_spec a 10000), (Z.leb_spec b 10000),
    (Z.ltb_spec 10000 a), (Z.ltb_spec 10000 b); try lia; reflexivity.
Qed.

Lemma ImageDimensions_new_Return (w h : number) (d : ImageDimensions.t) :
  ImageDimensions.new w h = Return d ->
  validateDimensions w h = Return tt /\ d = ImageDimensions.mk w h.
Proof.
  unfold ImageDimensions.new, andThen.
  destruct (validateDimensions w h) as [[]|]; intros H; inversion H.
  split; reflexivity.
Qed.

Lemma Image_new_Return (id : string) (w h : number) (fmt : string)
    (size : number) (world world' : World) (img : Image.t) :
  Image.new id w h fmt size world = (Return img, world') ->
  validateDimensions w h = Return tt
  /\ validateFormat (VString fmt) = Return tt
  /\ validateFileSize size = Return tt
  /\ img = Image.mk id w h fmt size (clock world (ticks world))
  /\ world' = snd (Date_now world).
Proof.
  rewrite ValidationFacts.Image_new_run.
  destruct (validateDimensions w h) as [[]|]; [|discriminate].
  destruct (validateFormat (VString fmt)) as [[]|]; [|discriminate].
  destruct (validateFileSize size) as [[]|]; [|discriminate].
  intros H. inversion H. repeat split.
Qed.

End ValidationFacts2.

(** X2: the constructor of [Image] runs the three validators in the order
    dimensions, format, file size: the first that fails gives the error,
    whatever the later ones would say, and then nothing was read from the
    clock; when the three pass the image holds the arguments as given and
    the creation date is the clock reading taken at construction. *)
Theorem Image_constructor_order (id : string) (w h : number) (fmt : string)
    (size : number) (world : World) :
  (forall e, ImageValidation.validateDimensions w h = Throw e ->
     Image.new id w h fmt size world = (Throw e, world))
  /\ (forall e, ImageValidation.validateDimensions w h = Return tt ->
        ImageValidation.validateFormat (VString fmt) = Throw e ->
        Image.new id w h fmt size world = (Throw e, world))
  /\ (forall e, ImageValidation.validateDimensions w h = Return tt ->
        ImageValidation.validateFormat (VString fmt) = Return tt ->
        ImageValidation.validateFileSize size = Throw e ->
        Image.new id w h fmt size world = (Throw e, world))
  /\ (ImageValidation.validateDimensions w h = Return tt ->
      ImageValidation.validateFormat (VString fmt) = Return tt ->
      ImageValidation.validateFileSize size = Return tt ->
      exists img,
        Image.new id w h fmt size world = (Return img, snd (Date_now world))
        /\ Image.id img = id /\ Image.width img = w /\ Image.height img = h
        /\ Image.format img = fmt /\ Image.sizeInBytes img = size
        /\ Image.createdAt img = clock world (ticks world)
        /\ ticks (snd (Date_now world)) = S (ticks world)).
Proof.
  rewrite ValidationFacts.Image_new_run.
  split; [|split; [|split]].
  - intros e ->. reflexivity.
  - intros e -> ->. reflexivity.
  - intros e -> -> ->. reflexivity.
  - intros -> -> ->. eexists. split; [reflexivity|]. repeat split.
Qed.

Lemma Image_constructor_order_witness :
  Image.new "img-1" (of_Z 0) (of_Z 1080) "gif" (of_Z 0) sampleWorld
  = (Throw (Error "Image dimensions must be positive numbers"), sampleWorld).
Proof.
  apply (proj1 (Image_constructor_order "img-1" (of_Z 0) (of_Z 1080) "gif"
                  (of_Z 0) sampleWorld)).
  reflexivity.
Defined.

(** X3: on dimensions that were constructed, [equals] holds exactly when
    both fields are the same numbers; it is reflexive and symmetric. *)
Theorem ImageDimensions_equals_spec (w h w' h' : number)
    (d d' : ImageDimensions.t) :
  ImageDimensions.new w h = Return d ->
  ImageDimensions.new w' h' = Return d' ->
  (ImageDimensions.equals d d' = true <-> w = w' /\ h = h')
  /\ (ImageDimensions.equals d d' = true <-> d = d')
  /\ ImageDimensions.equals d d = true
  /\ ImageDimensions.equals d d' = ImageDimensions.equals d' d.
Proof.
  intros Hd Hd'.
  apply ValidationFacts2.ImageDimensions_new_Return in Hd, Hd'.
  destruct Hd as [Hv ->]. destruct Hd' as [Hv' ->].
  apply ValidationFacts.validateDimensions_Return in Hv, Hv'.
  destruct Hv as (Hpw & Hph & Hiw & Hih & _).
  destruct Hv' as (Hpw' & Hph' & Hiw' & Hih' & _).
  unfold ImageDimensions.equals, ImageDimensions.width, ImageDimensions.height.
  cbn [ImageDimensions._width ImageDimensions._height].
  assert (Hfields : SFeqb w w' && SFeqb h h' = true <-> w = w' /\ h = h').
  { rewrite andb_true_iff.
    rewrite (NumberFacts2.SFeqb_positive w w'), (NumberFacts2.SFeqb_positive h h')
      by assumption.
    reflexivity. }
  split; [exact Hfields|]. split; [|split].
  - rewrite Hfields. split.
    + intros [-> ->]. reflexivity.
    + intros H. inversion H. split; reflexivity.
  - apply andb_true_iff. split; apply NumberFacts2.SFeqb_positive; auto.
  - unfold SFeqb.
    rewrite (NumberFacts.SFcompare_antisym w w'), (NumberFacts.SFcompare_antisym h h').
    destruct (SFcompare w w') as [[ | | ]|], (SFcompare h h') as [[ | | ]|];
      reflexivity.
Qed.

Lemma ImageDimensions_equals_spec_witness :
  ImageDimensions.equals sampleDimensions
    (ImageDimensions.mk (of_Z 3840) (of_Z 2161)) = false.
Proof.
  destruct (ImageDimensions_equals_spec (of_Z 3840) (of_Z 2160) (of_Z 3840)
              (of_Z 2161) sampleDimensions
              (ImageDimensions.mk (of_Z 3840) (of_Z 2161)) eq_refl eq_refl)
    as (Hiff & _).
  destruct (ImageDimensions.equals sampleDimensions
              (ImageDimensions.mk (of_Z 3840) (of_Z 2161))); [|reflexivity].
  destruct (proj1 Hiff eq_refl) as [_ Habs]. discriminate Habs.
Defined.

(** X4: dimensions constructed from the integers [a] and [b] print as the
    decimal of [a], an 'x' and the decimal of [b]. *)
Theorem ImageDimensions_toString_integers (a b : Z) (d : ImageDimensions.t) :
  Z.abs a < 2 ^ 53 -> Z.abs b < 2 ^ 53 ->
  ImageDimensions.new (of_Z a) (of_Z b) = Return d ->
  ImageDimensions.toString d = (string_of_Z a ++ "x" ++ string_of_Z b)%string
  /\ 0 < a <= 10000 /\ 0 < b <= 10000.
Proof.
  intros Ha Hb Hd.
  apply ValidationFacts2.ImageDimensions_new_Return in Hd.
  destruct Hd as [Hv ->].
  apply ValidationFacts.validateDimensions_of_Z in Hv; [|assumption|assumption].
  split; [|exact Hv].
  unfold ImageDimensions.toString. cbn [ImageDimensions._width ImageDimensions._height].
  rewrite !ExactFacts.trunc_of_Z by assumption. reflexivity.
Qed.

Lemma ImageDimensions_toString_integers_witness :
  ImageDimensions.toString sampleDimensions = "3840x2160"%string.
Proof.
  apply (ImageDimensions_toString_integers 3840 2160 sampleDimensions);
    [reflexivity|reflexivity|reflexivity].
Defined.

Module UpscaleFacts.

(** What [getUpscaledDimensions] computes on integers. *)
Lemma upscale_integers (img : Image.t) (a b k : Z) :
  Image._width img = of_Z a -> Image._height img = of_Z b ->
  0 < a <= 10000 -> 0 < b <= 10000 -> 2 <= k <= 4 ->
  Image.getUpscaledDimensions img (of_Z k) =
    if (a * k <=? 10000) && (b * k <=? 10000)
    then Return (ImageDimensions.mk (of_Z (a * k)) (of_Z (b * k)))
    else Throw (Error ImageValidation.dimensionsTooLarge).
Proof.
  intros Hw Hh Ha Hb Hk.
  assert (Hak : 0 < a * k <= 40000) by nia.
  assert (Hbk : 0 < b * k <= 40000) by nia.
  assert (Hbig : 40000 < 2 ^ 53) by reflexivity.
  unfold Image.getUpscaledDimensions. rewrite Hw, Hh.
  replace (ImageValidation.validateUpscaleFactor (of_Z k)) with (Return tt).
  2:{ symmetry.
      apply (proj2 (ValidationFacts.validateUpscaleFactor_Return (of_Z k))).
      rewrite NumberFacts2.isFinite_of_Z, NumberFacts.le_of_Z, NumberFacts.gt_of_Z
        by (simpl; lia).
      repeat split; [apply Z.leb_gt|apply Z.ltb_ge]; lia. }
  cbn [andThen].
  rewrite !ExactFacts.mul_of_Z, !ExactFacts.Math_round_of_Z by lia.
  unfold ImageDimensions.new.
  rewrite ValidationFacts2.validateDimensions_positive by lia.
  destruct ((a * k <=? 10000) && (b * k <=? 10000)); reflexivity.
Qed.

End UpscaleFacts.

(** X5: for an image constructed with the integer dimensions [a] x [b] and
    an integer factor [k] among 2, 3, 4, [getUpscaledDimensions] returns
    exactly [a*k] x [b*k] when both products are at most 10000, and
    otherwise throws the maximum-size error of [ImageDimensions]. *)
Theorem getUpscaledDimensions_integers (id : string) (a b : Z) (fmt : string)
    (size : number) (world world' : World) (img : Image.t) (k : Z) :
  Z.abs a < 2 ^ 53 -> Z.abs b < 2 ^ 53 ->
  Image.new id (of_Z a) (of_Z b) fmt size world = (Return img, world') ->
  2 <= k <= 4 ->
  Image.getUpscaledDimensions img (of_Z k) =
    if (a * k <=? 10000) && (b * k <=? 10000)
    then Return (ImageDimensions.mk (of_Z (a * k)) (of_Z (b * k)))
    else Throw (Error "Image dimensions exceed maximum allowed size (10000px)").
Proof.
  intros Ha Hb Hnew Hk.
  apply ValidationFacts2.Image_new_Return in Hnew.
  destruct Hnew as (Hd & _ & _ & -> & _).
  apply ValidationFacts.validateDimensions_of_Z in Hd; [|assumption|assumption].
  apply UpscaleFacts.upscale_integers; try reflexivity; lia.
Qed.

Lemma getUpscaledDimensions_integers_witness :
  Image.getUpscaledDimensions sampleImage (of_Z 3)
  = Return (ImageDimensions.mk (of_Z 5760) (of_Z 3240)).
Proof.
  apply (getUpscaledDimensions_integers "img-123" 1920 1080 "jpeg"
           (of_Z 500000) sampleWorld (snd (Date_now sampleWorld)) sampleImage 3);
    [reflexivity|reflexivity|reflexivity|lia].
Defined.

(** X6: for an image constructed with the integer dimensions [a] x [b],
    [canBeUpscaled] holds exactly when [a < 4000] and [b < 4000]; an image
    it accepts can always be upscaled by 2, to [2a] x [2b], and can be
    upscaled by 4 only when [a] and [b] are at most 2500. *)
Theorem canBeUpscaled_integers (id : string) (a b : Z) (fmt : string)
    (size : number) (world world' : World) (img : Image.t) :
  Z.abs a < 2 ^ 53 -> Z.abs b < 2 ^ 53 ->
  Image.new id (of_Z a) (of_Z b) fmt size world = (Return img, world') ->
  Image.canBeUpscaled img = (a <? 4000) && (b <? 4000)
  /\ (Image.canBeUpscaled img = true ->
      Image.getUpscaledDimensions img (of_Z 2)
      = Return (ImageDimensions.mk (of_Z (a * 2)) (of_Z (b * 2))))
  /\ ((exists d, Image.getUpscaledDimensions img (of_Z 4) = Return d)
      <-> a <= 2500 /\ b <= 2500).
Proof.
  intros Ha Hb Hnew.
  pose proof UpscaleFacts.upscale_integers as Hup.
  apply ValidationFacts2.Image_new_Return in Hnew.
  destruct Hnew as (Hd & _ & _ & -> & _).
  apply ValidationFacts.validateDimensions_of_Z in Hd; [|assumption|assumption].
  assert (Hcan : Image.canBeUpscaled
                   (Image.mk id (of_Z a) (of_Z b) fmt size (clock world (ticks world)))
                 = (a <? 4000) && (b <? 4000)).
  { unfold Image.canBeUpscaled. cbn [Image._width Image._height].
    rewrite !NumberFacts.lt_of_Z by (assumption || (simpl; lia)). reflexivity. }
  split; [exact Hcan|]. split.
  - rewrite Hcan. intros Hlt. apply andb_prop in Hlt. destruct Hlt as [H1 H2].
    apply Z.ltb_lt in H1, H2.
    rewrite (Hup _ a b 2) by (reflexivity || lia).
    replace (a * 2 <=? 10000) with true by (symmetry; apply Z.leb_le; lia).
    replace (b * 2 <=? 10000) with true by (symmetry; apply Z.leb_le; lia).
    reflexivity.
  - rewrite (Hup _ a b 4) by (reflexivity || lia).
    destruct (Z.leb_spec (a * 4) 10000), (Z.leb_spec (b * 4) 10000); cbn [andb];
      split; try (intros _; eexists; reflexivity); try lia;
      intros [d Hd']; discriminate Hd'.
Qed.

Lemma canBeUpscaled_integers_witness :
  Image.canBeUpscaled sampleImage = true
  /\ Image.getUpscaledDimensions sampleImage (of_Z 2)
     = Return (ImageDimensions.mk (of_Z 3840) (of_Z 2160)).
Proof.
  destruct (canBeUpscaled_integers "img-123" 1920 1080 "jpeg" (of_Z 500000)
              sampleWorld (snd (Date_now sampleWorld)) sampleImage
              eq_refl eq_refl eq_refl) as (Hcan & Htwo & _).
  split; [exact Hcan | exact (Htwo Hcan)].
Defined.

(** ** Histories of a job, continued *)

Module JobFacts2.

Import ProcessingJob.

(** What one call does to the job and to the world, whatever it answers. *)
Lemma call_step (c : Transition) (j : t) (w : World) :
  let r := call c (j, w) in
  let j' := fst (snd r) in
  let w' := snd (snd r) in
  _id j' = _id j /\ _sourceImage j' = _sourceImage j
  /\ _createdAt j' = _createdAt j
  /\ clock w' = clock w
  /\ (ticks w <= ticks w' <= S (ticks w))%nat
  /\ (progress (_status j) <= progress (_status j'))%nat
  /\ (progress (_status j')
      = progress (_status j)
        + match fst r with Return _ => 1 | Throw _ => 0 end)%nat
  /\ (forall t, _completedAt j' = Some t ->
        _completedAt j = Some t
        \/ (t = clock w (ticks w) /\ ticks w' = S (ticks w)))
  /\ (_status j = COMPLETED \/ _status j = FAILED -> j' = j /\ w' = w).
Proof.
  cbv zeta.
  destruct c as [|d ms|msg]; cbn [call];
    [rewrite JobFacts.startProcessing_run
    |rewrite JobFacts.completeSuccessfully_run
    |rewrite JobFacts.fail_run];
    destruct j as [i src st ed pt em ca co]; cbn [_status];
    destruct st; cbn;
    repeat split; auto; try lia;
    try (intros [H|H]; discriminate H);
    try (intros t Ht; inversion Ht; right; split; reflexivity);
    try match goal with
        | H : _ \/ _ |- _ => destruct H as [H|H]; discriminate H
        end.
Qed.


Lemma call_step_pair (c : Transition) (j : t) (w : World) :
  call c (j, w)
  = (fst (call c (j, w)), (fst (snd (call c (j, w))), snd (snd (call c (j, w))))).
Proof. destruct (call c (j, w)) as [r [j' w']]. reflexivity. Qed.

(** The completion date of a job is a reading of the clock made at or after
    a given tick, once this holds initially. *)
Lemma run_completed_reading (clk : nat -> Z) (base : nat) (cs : list Transition) :
  forall (j : t) (w : World),
    clock w = clk -> (base <= ticks w)%nat ->
    (forall t, _completedAt j = Some t -> exists k, (base <= k)%nat /\ t = clk k) ->
    forall t, _completedAt (fst (run cs (j, w))) = Some t ->
      exists k, (base <= k)%nat /\ t = clk k.
Proof.
  induction cs as [|c cs IH]; intros j w Hclk Hbase Hinv; cbn [run].
  - exact Hinv.
  - destruct (call_step c j w) as (_ & _ & _ & Hc & Ht & _ & _ & Hco & _).
    rewrite (call_step_pair c j w). cbn [snd].
    apply IH.
    + congruence.
    + lia.
    + intros t Hsome. destruct (Hco t Hsome) as [Hold|[-> _]].
      * apply Hinv. exact Hold.
      * exists (ticks w). split; [assumption|congruence].
Qed.

Lemma run_identity (cs : list Transition) :
  forall (j : t) (w : World),
    _id (fst (run cs (j, w))) = _id j
    /\ _sourceImage (fst (run cs (j, w))) = _sourceImage j
    /\ _createdAt (fst (run cs (j, w))) = _createdAt j
    /\ clock (snd (run cs (j, w))) = clock w
    /\ (ticks w <= ticks (snd (run cs (j, w))) <= ticks w + List.length cs)%nat.
Proof.
  induction cs as [|c cs IH]; intros j w; cbn [run List.length].
  - cbn [fst snd]. repeat split; lia.
  - destruct (call_step c j w) as (Hi & Hs & Hc & Hk & Ht & _).
    rewrite (call_step_pair c j w). cbn [snd].
    destruct (IH (fst (snd (call c (j, w)))) (snd (snd (call c (j, w)))))
      as (Hi' & Hs' & Hc' & Hk' & Ht').
    repeat split; try congruence; lia.
Qed.

End JobFacts2.

(** X7: through any script of calls a job keeps its identifier, its source
    image and its creation date; the clock it reads is never replaced and
    is read at most once per call. *)
Theorem run_keeps_identity (cs : list Transition) (j : ProcessingJob.t)
    (w : World) :
  let j' := fst (run cs (j, w)) in
  let w' := snd (run cs (j, w)) in
  ProcessingJob.id j' = ProcessingJob.id j
  /\ ProcessingJob.sourceImage j' = ProcessingJob.sourceImage j
  /\ ProcessingJob.createdAt j' = ProcessingJob.createdAt j
  /\ clock w' = clock w
  /\ (ticks w <= ticks w' <= ticks w + List.length cs)%nat.
Proof. cbv zeta. exact (JobFacts2.run_identity cs j w). Qed.

(** X8: COMPLETED and FAILED are final: on a job in one of these states
    every call of every script is rejected, and the job and the world are
    left exactly as they were. *)
Theorem terminal_is_final (cs : list Transition) (j : ProcessingJob.t)
    (w : World) :
  ProcessingJob.status j = COMPLETED \/ ProcessingJob.status j = FAILED ->
  run cs (j, w) = (j, w) /\ successes cs (j, w) = 0%nat.
Proof.
  unfold ProcessingJob.status. intros Hterm.
  induction cs as [|c cs IH]; cbn [run successes]; [split; reflexivity|].
  destruct (JobFacts2.call_step c j w) as (_ & _ & _ & _ & _ & _ & Hp & _ & Hsame).
  destruct (Hsame Hterm) as [Hj Hw].
  rewrite (JobFacts2.call_step_pair c j w) in *. cbn [fst snd] in *.
  rewrite Hj, Hw in *. destruct IH as [IH1 IH2].
  split; [exact IH1|]. rewrite IH2.
  destruct (fst (call c (j, w))); [lia|reflexivity].
Qed.

Lemma terminal_is_final_witness :
  let failed := fst (run [StartProcessing; Fail "GPU error"] (sampleJob, sampleWorld)) in
  run [StartProcessing; CompleteSuccessfully sampleDimensions (of_Z 2500); Fail "again"]
    (failed, sampleWorld) = (failed, sampleWorld).
Proof.
  cbv zeta. apply terminal_is_final. right. reflexivity.
Defined.

(** X9: in any script the number of calls that succeed is the progress the
    job makes (PENDING 0, IN_PROGRESS 1, COMPLETED or FAILED 2): at most two
    calls of a script ever succeed, and the status never moves back. *)
Theorem successes_are_progress (cs : list Transition) (j : ProcessingJob.t)
    (w : World) :
  (progress (ProcessingJob.status j) + successes cs (j, w)
   = progress (ProcessingJob.status (fst (run cs (j, w)))))%nat
  /\ (successes cs (j, w) <= 2)%nat
  /\ (progress (ProcessingJob.status j)
      <= progress (ProcessingJob.status (fst (run cs (j, w)))))%nat.
Proof.
  unfold ProcessingJob.status.
  assert (Heq : (progress (ProcessingJob._status j) + successes cs (j, w)
                 = progress (ProcessingJob._status (fst (run cs (j, w)))))%nat).
  { revert j w. induction cs as [|c cs IH]; intros j w; cbn [run successes].
    - cbn [fst]. lia.
    - destruct (JobFacts2.call_step c j w) as (_ & _ & _ & _ & _ & _ & Hp & _).
      rewrite (JobFacts2.call_step_pair c j w) in *. cbn [fst snd] in *.
      rewrite <- IH. lia. }
  split; [exact Heq|].
  assert (Hmax : (progress (ProcessingJob._status (fst (run cs (j, w)))) <= 2)%nat)
    by (destruct (ProcessingJob._status (fst (run cs (j, w)))); simpl; lia).
  lia.
Qed.

(** X10: a job constructed and then driven by any script under a clock
    that never goes back is never completed before it was created. *)
Theorem completion_follows_creation (id : string) (img : Image.t) (w w1 : World)
    (j0 : ProcessingJob.t) (cs : list Transition) (t : Date) :
  monotone (clock w) ->
  ProcessingJob.new id img w = (Return j0, w1) ->
  ProcessingJob.completedAt (fst (run cs (j0, w1))) = Some t ->
  ProcessingJob.createdAt (fst (run cs (j0, w1))) <= t.
Proof.
  intros Hmono Hnew Hdone.
  rewrite JobFacts.new_run in Hnew. injection Hnew as Hj Hw.
  unfold ProcessingJob.createdAt, ProcessingJob.completedAt in *.
  destruct (JobFacts2.run_identity cs j0 w1) as (_ & _ & Hcreated & _).
  rewrite Hcreated.
  destruct (JobFacts2.run_completed_reading (clock w) (ticks w) cs j0 w1)
    with (t := t) as (k & Hk & ->).
  - subst w1. reflexivity.
  - subst w1. cbn. lia.
  - subst j0. intros ? H. discriminate H.
  - exact Hdone.
  - subst j0. cbn [ProcessingJob._createdAt]. apply Hmono. exact Hk.
Qed.

Lemma completion_follows_creation_witness :
  monotone (clock sampleWorld)
  /\ ProcessingJob.createdAt
       (fst (run [StartProcessing; Fail "GPU error"]
               (sampleJob, snd (Date_now sampleWorld))))
     <= 1700000000250.
Proof.
  assert (Hmono : monotone (clock sampleWorld)).
  { intros n m Hnm. unfold sampleWorld. cbn [clock]. lia. }
  split; [exact Hmono|].
  apply (completion_follows_creation "job-456" sampleImage sampleWorld
           (snd (Date_now sampleWorld)) sampleJob
           [StartProcessing; Fail "GPU error"] 1700000000250 Hmono);
    reflexivity.
Defined.

(** X11: the life cycle composes as follows, for every identifier, image,
    world and arguments.  A constructed job is PENDING with no result, no
    error and no completion date; started, it is IN_PROGRESS and still has
    none of them; started and completed it is COMPLETED and holds exactly
    the dimensions and the duration it was given, no error, and the clock
    reading of the completion; started and failed it is FAILED and holds
    the message, no result, and the clock reading of the failure.
    [isCompleted] and [hasFailed] are false before a final state and exactly
    one of them is true in it. *)
Theorem job_life_cycle (id : string) (img : Image.t) (w : World)
    (d : ImageDimensions.t) (ms : number) (msg : string) :
  exists j0 w1,
    ProcessingJob.new id img w = (Return j0, w1)
    /\ (ProcessingJob.id j0 = id /\ ProcessingJob.sourceImage j0 = img
        /\ ProcessingJob.status j0 = PENDING
        /\ ProcessingJob.enhancedDimensions j0 = None
        /\ ProcessingJob.processingTimeMs j0 = None
        /\ ProcessingJob.errorMessage j0 = None
        /\ ProcessingJob.createdAt j0 = clock w (ticks w)
        /\ ProcessingJob.completedAt j0 = None
        /\ ProcessingJob.isCompleted j0 = false
        /\ ProcessingJob.hasFailed j0 = false)
    /\ (let j := fst (run [StartProcessing] (j0, w1)) in
        ProcessingJob.status j = IN_PROGRESS
        /\ ProcessingJob.enhancedDimensions j = None
        /\ ProcessingJob.processingTimeMs j = None
        /\ ProcessingJob.errorMessage j = None
        /\ ProcessingJob.completedAt j = None
        /\ ProcessingJob.isCompleted j = false
        /\ ProcessingJob.hasFailed j = false)
    /\ (let j := fst (run [StartProcessing; CompleteSuccessfully d ms] (j0, w1)) in
        ProcessingJob.status j = COMPLETED
        /\ ProcessingJob.enhancedDimensions j = Some d
        /\ ProcessingJob.processingTimeMs j = Some ms
        /\ ProcessingJob.errorMessage j = None
        /\ ProcessingJob.completedAt j = Some (clock w (S (ticks w)))
        /\ ProcessingJob.isCompleted j = true
        /\ ProcessingJob.hasFailed j = false)
    /\ (let j := fst (run [StartProcessing; Fail msg] (j0, w1)) in
        ProcessingJob.status j = FAILED
        /\ ProcessingJob.enhancedDimensions j = None
        /\ ProcessingJob.processingTimeMs j = None
        /\ ProcessingJob.errorMessage j = Some msg
        /\ ProcessingJob.completedAt j = Some (clock w (S (ticks w)))
        /\ ProcessingJob.isCompleted j = false
        /\ ProcessingJob.hasFailed j = true).
Proof.
  eexists _, _. split; [apply JobFacts.new_run|].
  split; [repeat split|]. cbv zeta. cbn [run call].
  rewrite !JobFacts.startProcessing_run. cbn [ProcessingJob._status ProcessingStatus_eqb snd fst].
  rewrite JobFacts.completeSuccessfully_run, JobFacts.fail_run.
  cbn. repeat split.
Qed.

(** ** Subtraction of integers *)

Module SubFacts.

Import NumberFacts ExactFacts.

Lemma binary_round_scaled (s : bool) (M n : positive) (k : Z) :
  0 <= k <= 1000 ->
  Z.pos n < 2 ^ 53 ->
  Z.pos M = Z.pos n * 2 ^ k ->
  binary_round prec emax s M (- k) = binary_round prec emax s n 0.
Proof.
  intros Hk Hn HM.
  pose proof (digits2_bounds n) as Hd.
  pose proof (digits2_scaled M n k ltac:(lia) HM) as HdM.
  set (d := Z.pos (digits2_pos n)) in *.
  assert (Hd1 : 1 <= d) by lia.
  assert (Hd53 : d <= 53).
  { destruct (Z.le_gt_cases d 53) as [|Hgt]; [assumption|].
    assert (2 ^ 53 <= 2 ^ (d - 1)) by (apply Z.pow_le_mono_r; lia). lia. }
  assert (Hlow : 2 ^ (d - 1 + k) <= Z.pos M).
  { rewrite HM, Z.pow_add_r by lia.
    apply Z.mul_le_mono_nonneg_r; [apply Z.pow_nonneg|]; lia. }
  unfold binary_round at 1. rewrite HdM.
  replace (fexp prec emax (d + k + - k)) with (d - 53)
    by (unfold fexp, emin, prec, emax; lia).
  destruct (Z.le_gt_cases (d - 53) (- k)) as [Hle|Hgt].
  - destruct (shl_align_spec M (- k) (d - 53) Hle) as [Hm He].
    destruct (shl_align M (- k) (d - 53)) as [mz ez]. cbn [fst snd] in Hm, He.
    subst ez. replace (d - 53) with (- (53 - d)) by lia.
    assert (Hmz : Z.pos mz = Z.pos n * 2 ^ (53 - d)).
    { rewrite Hm, HM, <- Z.mul_assoc, <- Z.pow_add_r by lia.
      f_equal. f_equal. lia. }
    apply binary_round_aux_scaled; [lia|assumption|exact Hmz|].
    rewrite Hmz.
    replace (2 ^ 52) with (2 ^ (d - 1) * 2 ^ (53 - d))
      by (rewrite <- Z.pow_add_r by lia; f_equal; lia).
    apply Z.mul_le_mono_nonneg_r; [apply Z.pow_nonneg|]; lia.
  - unfold shl_align.
    destruct (d - 53 - - k) as [|q|q] eqn:Hq; try lia.
    apply binary_round_aux_scaled; [lia|assumption|exact HM|].
    assert (2 ^ 52 <= 2 ^ (d - 1 + k)) by (apply Z.pow_le_mono_r; lia). lia.
Qed.

Lemma of_Z_neg (n : positive) : of_Z (Z.neg n) = binary_round prec emax true n 0.
Proof. reflexivity. Qed.

(** [a - b] on integers is exact. *)
Lemma sub_of_Z (a b : Z) :
  0 <= a < 2 ^ 53 -> 0 <= b < 2 ^ 53 ->
  sub (of_Z a) (of_Z b) = of_Z (a - b).
Proof.
  intros Ha Hb.
  destruct (Z.eq_dec b 0) as [->|Hb0].
  { rewrite Z.sub_0_r. destruct (Z.eq_dec a 0) as [->|Ha0]; [reflexivity|].
    destruct (of_Z_shape a Ha0 ltac:(lia)) as (ma & ea & -> & _).
    reflexivity. }
  destruct (of_Z_shape b Hb0 ltac:(lia)) as (mb & eb & Eb & Hmb & Heb & Hvb).
  replace (b <? 0) with false in Eb by (symmetry; apply Z.ltb_ge; lia).
  rewrite Z.abs_eq in Hvb by lia.
  destruct (Z.eq_dec a 0) as [->|Ha0].
  { rewrite Eb. change (sub (of_Z 0) (S754_finite false mb eb))
      with (S754_finite true mb eb).
    destruct b as [|pb|pb]; try lia. change (0 - Z.pos pb) with (Z.neg pb).
    rewrite of_Z_neg. apply binary_round_unique; assumption. }
  destruct (of_Z_shape a Ha0 ltac:(lia)) as (ma & ea & Ea & Hma & Hea & Hva).
  replace (a <? 0) with false in Ea by (symmetry; apply Z.ltb_ge; lia).
  rewrite Z.abs_eq in Hva by lia.
  rewrite Ea, Eb. unfold sub, SFsub. cbv zeta. cbn [cond_Zopp].
  set (ez := Z.min ea eb).
  destruct (shl_align_spec ma ea ez ltac:(lia)) as [HA _].
  destruct (shl_align_spec mb eb ez ltac:(lia)) as [HB _].
  assert (HA' : Z.pos (fst (shl_align ma ea ez)) = a * 2 ^ (- ez)).
  { rewrite HA, Hva, <- Z.mul_assoc, <- Z.pow_add_r by lia.
    f_equal. f_equal. lia. }
  assert (HB' : Z.pos (fst (shl_align mb eb ez)) = b * 2 ^ (- ez)).
  { rewrite HB, Hvb, <- Z.mul_assoc, <- Z.pow_add_r by lia.
    f_equal. f_equal. lia. }
  assert (Hdiff : Z.pos (fst (shl_align ma ea ez))
                  - Z.pos (fst (shl_align mb eb ez)) = (a - b) * 2 ^ (- ez)).
  { rewrite HA', HB'. ring. }
  assert (Hp : 0 < 2 ^ (- ez)) by (apply Z.pow_pos_nonneg; lia).
  destruct (Z.pos (fst (shl_align ma ea ez)) - Z.pos (fst (shl_align mb eb ez)))
    as [|M|M] eqn:HM.
  - assert (H0 : a - b = 0).
    { symmetry in Hdiff. apply Z.mul_eq_0 in Hdiff. lia. }
    rewrite H0. reflexivity.
  - assert (Hsign : 0 < a - b)
      by (apply (Z.mul_pos_cancel_r _ (2 ^ (- ez))); lia).
    destruct (a - b) as [|n|n] eqn:Hn; try lia.
    cbn [binary_normalize]. rewrite of_Z_pos.
    replace ez with (- (- ez)) at 1 by lia.
    apply binary_round_scaled; [lia|lia|exact Hdiff].
  - assert (Hsign : 0 < b - a).
    { apply (Z.mul_pos_cancel_r _ (2 ^ (- ez))); [lia|].
      replace ((b - a) * 2 ^ (- ez)) with (- ((a - b) * 2 ^ (- ez))) by ring.
      lia. }
    destruct (a - b) as [|n|n] eqn:Hn; try lia.
    cbn [binary_normalize]. rewrite of_Z_neg.
    replace ez with (- (- ez)) at 1 by lia.
    apply binary_round_scaled; [lia|lia|].
    assert (Z.neg M = Z.neg n * 2 ^ (- ez)) by exact Hdiff. lia.
Qed.

End SubFacts.

(** ** Quotients of integers *)

Module DivFacts.

Import NumberFacts ExactFacts.

(** The result of a rounding, against the truncated mantissa. *)
Lemma binary_round_aux_bracket (s : bool) (M : positive) (E : Z) (l : location) :
  2 ^ 52 <= Z.pos M ->
  -1074 <= E ->
  E + Z.pos (digits2_pos M) <= 1023 ->
  let d := Z.pos (digits2_pos M) in
  let Q := Z.pos M / 2 ^ (d - 53) in
  exists m e,
    binary_round_aux prec emax s (Z.pos M) E l = S754_finite s m e
    /\ 2 ^ 52 <= Z.pos m < 2 ^ 53
    /\ (e = E + d - 53 /\ Q <= Z.pos m <= Q + 1
        \/ e = E + d - 52 /\ Q = 2 ^ 53 - 1).
Proof.
  intros HM HE Hmax d Q.
  pose proof (digits2_bounds M) as Hd. fold d in Hd, Hmax.
  assert (Hd53 : 53 <= d).
  { destruct (Z.le_gt_cases 53 d) as [|Hlt]; [assumption|].
    assert (2 ^ d <= 2 ^ 52) by (apply Z.pow_le_mono_r; lia). lia. }
  unfold binary_round_aux.
  destruct (shr_fexp prec emax (Z.pos M) E l) as [mrs1 e1] eqn:H1.
  apply shr_fexp_spec in H1; [|lia].
  cbv zeta in H1. simpl Zdigits2 in H1. fold d in H1.
  replace (Z.max 0 (fexp prec emax (d + E) - E)) with (d - 53) in H1
    by (unfold fexp, emin, prec, emax; lia).
  destruct H1 as [Hm1 He1]. fold Q in Hm1.
  assert (Hb1 : 2 ^ 52 <= Q < 2 ^ 53).
  { unfold Q. split.
    - apply Z.div_le_lower_bound; [apply Z.pow_pos_nonneg; lia|].
      rewrite <- Z.pow_add_r by lia.
      replace (d - 53 + 52) with (d - 1) by lia. lia.
    - apply Z.div_lt_upper_bound; [apply Z.pow_pos_nonneg; lia|].
      rewrite <- Z.pow_add_r by lia.
      replace (d - 53 + 53) with d by lia. lia. }
  pose proof (round_nearest_even_bounds (shr_m mrs1) (loc_of_shr_record mrs1)) as Hr.
  set (m2 := round_nearest_even (shr_m mrs1) (loc_of_shr_record mrs1)) in *.
  rewrite Hm1 in Hr.
  destruct (shr_fexp prec emax m2 e1 loc_Exact) as [mrs2 e2] eqn:H2.
  apply shr_fexp_spec in H2; [|lia].
  cbv zeta in H2.
  destruct m2 as [|p2|p2]; try lia.
  simpl Zdigits2 in H2.
  destruct (Z.eq_dec (Z.pos p2) (2 ^ 53)) as [Hcarry|Hnocarry].
  - assert (Hd2 : Z.pos (digits2_pos p2) = 54)
      by (apply digits2_unique; rewrite Hcarry; simpl; lia).
    rewrite Hd2 in H2.
    replace (Z.max 0 (fexp prec emax (54 + e1) - e1)) with 1 in H2
      by (unfold fexp, emin, prec, emax; lia).
    destruct H2 as [Hm2 He2]. rewrite Hcarry in Hm2.
    change (2 ^ 53 / 2 ^ 1) with (2 ^ 52) in Hm2.
    rewrite Hm2. change (2 ^ 52) with (Z.pos (2 ^ 52)%positive).
    cbv iota.
    replace (e2 <=? emax - prec) with true
      by (symmetry; apply Z.leb_le; unfold emax, prec; lia).
    eexists _, _. split; [reflexivity|].
    split; [simpl; lia|]. right. split; lia.
  - assert (Hd2 : Z.pos (digits2_pos p2) = 53)
      by (apply digits2_unique; simpl; lia).
    rewrite Hd2 in H2.
    replace (Z.max 0 (fexp prec emax (53 + e1) - e1)) with 0 in H2
      by (unfold fexp, emin, prec, emax; lia).
    destruct H2 as [Hm2 He2].
    change (2 ^ 0) with 1 in Hm2. rewrite Z.div_1_r in Hm2.
    rewrite Hm2. cbv iota.
    replace (e2 <=? emax - prec) with true
      by (symmetry; apply Z.leb_le; unfold emax, prec; lia).
    eexists _, _. split; [reflexivity|].
    split; [lia|]. left. split; lia.
Qed.

Lemma pow2_lt_inv (x y : Z) : 0 <= y -> 2 ^ x < 2 ^ y -> x < y.
Proof.
  intros Hy H. destruct (Z.lt_ge_cases x y) as [|Hge]; [assumption|].
  assert (2 ^ y <= 2 ^ x) by (apply Z.pow_le_mono_r; lia). lia.
Qed.

(** A quotient of positive integers is below 1 exactly when the dividend is
    below the divisor: the rounding of [a / b] never reaches 1 from
    below. *)
Lemma lt_div_one (a b : Z) :
  0 < a < 2 ^ 53 -> 0 < b < 2 ^ 53 ->
  lt (div (of_Z a) (of_Z b)) (of_Z 1) = (a <? b).
Proof.
  intros Ha Hb.
  destruct (of_Z_shape a ltac:(lia) ltac:(lia))
    as (ma & ea & -> & Hma & Hea & Hva).
  destruct (of_Z_shape b ltac:(lia) ltac:(lia))
    as (mb & eb & -> & Hmb & Heb & Hvb).
  replace (a <? 0) with false by (symmetry; apply Z.ltb_ge; lia).
  replace (b <? 0) with false by (symmetry; apply Z.ltb_ge; lia).
  rewrite Z.abs_eq in Hva, Hvb by lia.
  assert (Hda : Z.pos (digits2_pos ma) = 53) by (apply digits2_unique; simpl; lia).
  assert (Hdb : Z.pos (digits2_pos mb) = 53) by (apply digits2_unique; simpl; lia).
  unfold div, SFdiv, SFdiv_core_binary. cbn [xorb Zdigits2].
  rewrite Hda, Hdb.
  set (T := 53 + eb - ea).
  replace (Z.min (fexp prec emax (53 + ea - (53 + eb))) (ea - eb)) with (- T)
    by (unfold fexp, emin, prec, emax, T; lia).
  replace (ea - eb - - T) with 53 by (unfold T; lia).
  cbv iota. rewrite Z.shiftl_mul_pow2 by lia.
  pose proof (Z_div_mod (Z.pos ma * 2 ^ 53) (Z.pos mb) ltac:(lia)) as Hdiv.
  destruct (Z.div_eucl (Z.pos ma * 2 ^ 53) (Z.pos mb)) as [q r].
  destruct Hdiv as [Hq Hr].
  assert (HT : 1 <= T <= 105) by (unfold T; lia).
  assert (HpA : 0 < 2 ^ (- ea)) by (apply Z.pow_pos_nonneg; lia).
  assert (HpB : 0 < 2 ^ (- eb)) by (apply Z.pow_pos_nonneg; lia).
  assert (HpT : 0 < 2 ^ T) by (apply Z.pow_pos_nonneg; lia).
  assert (Hscale : 2 ^ 53 * 2 ^ (- ea) = 2 ^ T * 2 ^ (- eb)).
  { rewrite <- !Z.pow_add_r by lia. f_equal. unfold T. lia. }
  (* the quotient, freed of the scalings *)
  assert (Hlow : q * b <= a * 2 ^ T).
  { apply (Z.mul_le_mono_pos_r _ _ (2 ^ (- eb)) HpB).
    replace (a * 2 ^ T * 2 ^ (- eb)) with (a * 2 ^ (- ea) * 2 ^ 53)
      by (rewrite <- !Z.mul_assoc, (Z.mul_comm (2 ^ (- ea))), Hscale; ring).
    rewrite <- Hva.
    replace (q * b * 2 ^ (- eb)) with (Z.pos mb * q) by (rewrite Hvb; ring).
    lia. }
  assert (Hhigh : a * 2 ^ T < (q + 1) * b).
  { apply (Z.mul_lt_mono_pos_r (2 ^ (- eb)) _ _ HpB).
    replace (a * 2 ^ T * 2 ^ (- eb)) with (a * 2 ^ (- ea) * 2 ^ 53)
      by (rewrite <- !Z.mul_assoc, (Z.mul_comm (2 ^ (- ea))), Hscale; ring).
    rewrite <- Hva.
    replace ((q + 1) * b * 2 ^ (- eb)) with (Z.pos mb * q + Z.pos mb)
      by (rewrite Hvb; ring).
    lia. }
  assert (Hq52 : 2 ^ 52 <= q).
  { assert (H1 : 2 ^ 52 * 2 ^ 53 <= Z.pos ma * 2 ^ 53)
      by (apply Z.mul_le_mono_nonneg_r; lia).
    assert (H2 : Z.pos mb * (q + 1) <= 2 ^ 53 * (q + 1) \/ q + 1 <= 0).
    { destruct (Z.le_gt_cases (q + 1) 0); [right; assumption|left].
      apply Z.mul_le_mono_nonneg_r; lia. }
    destruct H2 as [H2|H2]; [|nia].
    assert (2 ^ 52 * 2 ^ 53 < 2 ^ 53 * (q + 1)) by lia. lia. }
  assert (Hq54 : q < 2 ^ 54).
  { assert (H1 : Z.pos ma * 2 ^ 53 < 2 ^ 53 * 2 ^ 53) by lia.
    assert (H2 : 2 ^ 52 * q <= Z.pos mb * q)
      by (apply Z.mul_le_mono_nonneg_r; lia).
    lia. }
  destruct q as [|pq|pq]; try lia.
  pose proof (digits2_bounds pq) as Hd.
  set (d := Z.pos (digits2_pos pq)) in *.
  assert (Hd54 : d <= 54).
  { assert (d - 1 < 54) by (apply pow2_lt_inv; lia). lia. }
  assert (Hd53 : 53 <= d).
  { assert (52 < d) by (apply pow2_lt_inv; lia). lia. }
  destruct (binary_round_aux_bracket false pq (- T)
              (new_location (Z.pos mb) r) Hq52 ltac:(lia) ltac:(fold d; lia))
    as (m & e & -> & Hm & Hcase).
  fold d in Hcase.
  rewrite of_Z_1. unfold lt, SFltb, SFcompare.
  destruct (Z.ltb_spec a b) as [Hab|Hab].
  - (* below the divisor *)
    assert (HqT : Z.pos pq < 2 ^ T).
    { apply (Z.mul_lt_mono_pos_r b); [lia|].
      assert (a * 2 ^ T < b * 2 ^ T) by (apply Z.mul_lt_mono_pos_r; lia).
      lia. }
    assert (HdT : d <= T).
    { assert (d - 1 < T) by (apply pow2_lt_inv; lia). lia. }
    assert (He : e < -52).
    { destruct Hcase as [[-> _] | [-> HQ]]; [lia|].
      destruct (Z.eq_dec d T) as [HdT'|]; [|lia]. exfalso.
      assert (HP : 0 < 2 ^ (d - 53)) by (apply Z.pow_pos_nonneg; lia).
      assert (Hfloor : (2 ^ 53 - 1) * 2 ^ (d - 53) <= Z.pos pq).
      { rewrite <- HQ, Z.mul_comm. apply Z.mul_div_le. assumption. }
      assert (H2T : 2 ^ T = 2 ^ 53 * 2 ^ (d - 53)).
      { rewrite <- Z.pow_add_r by lia. f_equal. lia. }
      assert (H1 : (2 ^ 53 - 1) * 2 ^ (d - 53) * b <= Z.pos pq * b)
        by (apply Z.mul_le_mono_nonneg_r; lia).
      assert (H2 : a * 2 ^ T <= (b - 1) * 2 ^ T)
        by (apply Z.mul_le_mono_nonneg_r; lia).
      rewrite H2T in H2.
      assert (H3 : (2 ^ 53 - 1) * 2 ^ (d - 53) * b
                   <= (b - 1) * (2 ^ 53 * 2 ^ (d - 53))) by lia.
      assert (H4 : 2 ^ (d - 53) * ((2 ^ 53 - 1) * b)
                   <= 2 ^ (d - 53) * ((b - 1) * 2 ^ 53)).
      { replace (2 ^ (d - 53) * ((2 ^ 53 - 1) * b))
          with ((2 ^ 53 - 1) * 2 ^ (d - 53) * b) by ring.
        replace (2 ^ (d - 53) * ((b - 1) * 2 ^ 53))
          with ((b - 1) * (2 ^ 53 * 2 ^ (d - 53))) by ring.
        exact H3. }
      apply Z.mul_le_mono_pos_l in H4; [|assumption]. lia. }
    replace (e ?= -52) with Lt by (symmetry; apply Z.compare_lt_iff; exact He).
    reflexivity.
  - (* at or above the divisor *)
    assert (HqT : 2 ^ T <= Z.pos pq).
    { assert (H1 : b * 2 ^ T <= a * 2 ^ T)
        by (apply Z.mul_le_mono_nonneg_r; lia).
      assert (H2 : 2 ^ T * b < (Z.pos pq + 1) * b) by lia.
      apply Z.mul_lt_mono_pos_r in H2; lia. }
    assert (HdT : T < d) by (apply pow2_lt_inv; lia).
    assert (He : -52 <= e) by (destruct Hcase as [[-> _] | [-> _]]; lia).
    destruct (Z.compare_spec e (-52)) as [Heq|Hlt|Hgt]; try lia; try reflexivity.
    rewrite Pos.compare_cont_spec.
    destruct (Pos.compare_spec m (2 ^ 52)) as [?|Hlt|?]; try reflexivity.
    apply Pos2Z.pos_lt_pos in Hlt.
    assert (Hc : Z.pos (2 ^ 52) = 2 ^ 52) by reflexivity.
    rewrite Hc in Hlt. lia.
Qed.

(** A positive integer divided by itself is exactly 1. *)
Lemma div_same (a : Z) : 0 < a < 2 ^ 53 -> div (of_Z a) (of_Z a) = of_Z 1.
Proof.
  intros Ha.
  destruct (of_Z_shape a ltac:(lia) ltac:(lia))
    as (ma & ea & -> & Hma & Hea & Hva).
  replace (a <? 0) with false by (symmetry; apply Z.ltb_ge; lia).
  assert (Hda : Z.pos (digits2_pos ma) = 53) by (apply digits2_unique; simpl; lia).
  unfold div, SFdiv, SFdiv_core_binary. cbn [xorb Zdigits2].
  rewrite Hda.
  replace (Z.min (fexp prec emax (53 + ea - (53 + ea))) (ea - ea)) with (- 53)
    by (unfold fexp, emin, prec, emax; lia).
  replace (ea - ea - - 53) with 53 by lia.
  cbv iota. rewrite Z.shiftl_mul_pow2 by lia.
  assert (Hq : Z.div_eucl (Z.pos ma * 2 ^ 53) (Z.pos ma) = (2 ^ 53, 0)).
  { pose proof (Z.div_mul (2 ^ 53) (Z.pos ma) ltac:(lia)) as Hdiv.
    pose proof (Z_mod_mult (2 ^ 53) (Z.pos ma)) as Hmod.
    rewrite (Z.mul_comm (2 ^ 53)) in Hdiv, Hmod.
    unfold Z.div in Hdiv. unfold Z.modulo in Hmod.
    destruct (Z.div_eucl (Z.pos ma * 2 ^ 53) (Z.pos ma)) as [q r].
    cbn [fst snd] in Hdiv. rewrite Hdiv, Hmod. reflexivity. }
  rewrite Hq.
  assert (Hloc : new_location (Z.pos ma) 0 = loc_Exact).
  { unfold new_location, new_location_even, new_location_odd.
    destruct (Z.even (Z.pos ma)); reflexivity. }
  rewrite Hloc. reflexivity.
Qed.

End DivFacts.

(** X12: for an image constructed with integer dimensions [a] and [b],
    [isLowResolution] is true exactly when [a * b] is below one million:
    the product is exact and the division by 1000000 never rounds a
    quotient below 1 up to 1.  An image of exactly one million pixels has
    exactly 1 megapixel. *)
Theorem isLowResolution_integers (id : string) (a b : Z) (fmt : string)
    (size : number) (world world' : World) (img : Image.t) :
  Z.abs a < 2 ^ 53 -> Z.abs b < 2 ^ 53 ->
  Image.new id (of_Z a) (of_Z b) fmt size world = (Return img, world') ->
  Image.megapixels img = div (of_Z (a * b)) (of_Z 1000000)
  /\ Image.isLowResolution img = (a * b <? 1000000)
  /\ (a * b = 1000000 -> Image.megapixels img = of_Z 1).
Proof.
  intros Ha Hb Hnew.
  apply ValidationFacts2.Image_new_Return in Hnew.
  destruct Hnew as (Hd & _ & _ & -> & _).
  apply ValidationFacts.validateDimensions_of_Z in Hd; [|assumption|assumption].
  assert (Hprod : 0 < a * b < 2 ^ 53).
  { split; [apply Z.mul_pos_pos; lia|].
    assert (a * b <= 10000 * 10000) by (apply Z.mul_le_mono_nonneg; lia).
    simpl; lia. }
  assert (Hmp : Image.megapixels
                  (Image.mk id (of_Z a) (of_Z b) fmt size
                     (clock world (ticks world)))
                = div (of_Z (a * b)) (of_Z 1000000)).
  { unfold Image.megapixels. cbn [Image._width Image._height].
    rewrite ExactFacts.mul_of_Z by lia. reflexivity. }
  split; [exact Hmp|]. split.
  - unfold Image.isLowResolution. rewrite Hmp.
    apply DivFacts.lt_div_one; [assumption | simpl; lia].
  - intros Hone. rewrite Hmp, Hone. apply DivFacts.div_same. simpl; lia.
Qed.

Lemma isLowResolution_integers_witness :
  Image.isLowResolution sampleImage = false.
Proof.
  destruct (isLowResolution_integers "img-123" 1920 1080 "jpeg" (of_Z 500000)
              sampleWorld (snd (Date_now sampleWorld)) sampleImage
              eq_refl eq_refl eq_refl) as (_ & Hlow & _).
  exact Hlow.
Defined.

(** X13: for integer dimensions [a] and [b] that pass the validation, the
    aspect ratio, of the value object and of the image alike, is below 1
    exactly when the width is below the height, and is exactly 1 when they
    are equal. *)
Theorem aspectRatio_orientation (id : string) (a b : Z) (fmt : string)
    (size : number) (world world' : World) (img : Image.t)
    (d : ImageDimensions.t) :
  Z.abs a < 2 ^ 53 -> Z.abs b < 2 ^ 53 ->
  ImageDimensions.new (of_Z a) (of_Z b) = Return d ->
  Image.new id (of_Z a) (of_Z b) fmt size world = (Return img, world') ->
  Image.aspectRatio img = ImageDimensions.aspectRatio d
  /\ lt (ImageDimensions.aspectRatio d) (of_Z 1) = (a <? b)
  /\ (a = b -> ImageDimensions.aspectRatio d = of_Z 1).
Proof.
  intros Ha Hb Hdims Hnew.
  apply ValidationFacts2.Image_new_Return in Hnew.
  destruct Hnew as (Hd & _ & _ & -> & _).
  apply ValidationFacts2.ImageDimensions_new_Return in Hdims.
  destruct Hdims as [_ ->].
  apply ValidationFacts.validateDimensions_of_Z in Hd; [|assumption|assumption].
  unfold Image.aspectRatio, ImageDimensions.aspectRatio.
  cbn [Image._width Image._height ImageDimensions._width ImageDimensions._height].
  split; [reflexivity|]. split.
  - apply DivFacts.lt_div_one; simpl; lia.
  - intros <-. apply DivFacts.div_same. simpl; lia.
Qed.

Lemma aspectRatio_orientation_witness :
  lt (ImageDimensions.aspectRatio sampleDimensions) (of_Z 1) = false.
Proof.
  destruct (aspectRatio_orientation "img-4k" 3840 2160 "jpeg" (of_Z 500000)
              sampleWorld (snd (Date_now sampleWorld))
              (Image.mk "img-4k" (of_Z 3840) (of_Z 2160) "jpeg" (of_Z 500000)
                 (clock sampleWorld (ticks sampleWorld)))
              sampleDimensions eq_refl eq_refl eq_refl eq_refl)
    as (_ & Hlt & _).
  exact Hlt.
Defined.

(** ** The use case, path by path *)

Module UseCaseFacts2.

Import EnhanceImageUseCase.

Ltac step_run H :=
  cbv beta iota zeta delta [bind eval ret gets modify throw
    EnhanceImageUseCase.in_world
    set_originalImage set_job on_job generateImageId generateJobId
    Date_now Math_random_chunk new_Date loadImage enhanceImage
    Image.new ProcessingJob.new ProcessingJob.startProcessing
    ProcessingJob.completeSuccessfully ProcessingJob.fail
    ProcessingJob.this ProcessingJob.assign ProcessingJob.in_world
    ProcessingJob.set_status ProcessingJob.set_enhancedDimensions
    ProcessingJob.set_processingTimeMs ProcessingJob.set_errorMessage
    ProcessingJob.set_completedAt ProcessingStatus_eqb negb fst snd] in H;
  cbn [world job originalImage clock ticks entropy draws loaderCalls
    enhancerCalls ProcessingJob._status ProcessingJob._id
    ProcessingJob._sourceImage ProcessingJob._enhancedDimensions
    ProcessingJob._processingTimeMs ProcessingJob._errorMessage
    ProcessingJob._createdAt ProcessingJob._completedAt] in H.

Section Paths.

Variable imageLoader : ImageLoaderPort.
Variable superResolution : SuperResolutionPort.
Variable request : EnhanceImageRequest.t.

(** The run up to the call of the resolution port, with the identifiers,
    the dates and the world written out. *)
Lemma started_run_at (w : World) (startTime : Z) (upscaleFactor : number)
    (li : LoadedImageData) :
  ImageValidation.validateUpscaleFactor upscaleFactor = Return tt ->
  imageLoader (EnhanceImageRequest.imageInput request) = Return li ->
  ImageValidation.validateDimensions (width li) (height li) = Return tt ->
  ImageValidation.validateFileSize (sizeBytes li) = Return tt ->
  ImageValidation.validateFormat (VString (format li)) = Return tt ->
  let img :=
    Image.mk ("img-" ++ string_of_Z (clock w (ticks w)) ++ "-"
              ++ entropy w (draws w))
      (width li) (height li) (format li) (sizeBytes li)
      (clock w (S (ticks w))) in
  let j :=
    ProcessingJob.mk ("job-" ++ string_of_Z (clock w (S (S (ticks w)))) ++ "-"
                      ++ entropy w (S (draws w)))
      img IN_PROGRESS None None None (clock w (S (S (S (ticks w))))) None in
  let w' :=
    {| clock := clock w; ticks := S (S (S (S (ticks w))));
       entropy := entropy w; draws := S (S (draws w));
       loaderCalls := loaderCalls w ++ [EnhanceImageRequest.imageInput request];
       enhancerCalls := enhancerCalls w ++ [(data li, upscaleFactor)] |} in
  (forall e, superResolution (data li) upscaleFactor = Throw e ->
     try_block imageLoader superResolution request startTime upscaleFactor
       (entry w)
     = (Throw e, {| originalImage := Some img; job := Some j; world := w' |}))
  /\ (forall res e,
        superResolution (data li) upscaleFactor = Return res ->
        Image.getUpscaledDimensions img upscaleFactor = Throw e ->
        try_block imageLoader superResolution request startTime upscaleFactor
          (entry w)
        = (Throw e, {| originalImage := Some img; job := Some j; world := w' |}))
  /\ (forall res d,
        superResolution (data li) upscaleFactor = Return res ->
        Image.getUpscaledDimensions img upscaleFactor = Return d ->
        let total := elapsed (clock w (S (S (S (S (ticks w)))))) startTime in
        let done :=
          ProcessingJob.mk (ProcessingJob._id j) img COMPLETED (Some d)
            (Some total) None (ProcessingJob._createdAt j)
            (Some (clock w (S (S (S (S (S (ticks w)))))))) in
        try_block imageLoader superResolution request startTime upscaleFactor
          (entry w)
        = (Return
             {| EnhanceImageResponse.success := true;
                EnhanceImageResponse.enhancedImageData :=
                  Some (enhancedImageData res);
                EnhanceImageResponse.originalImage := Some img;
                EnhanceImageResponse.job := Some done;
                EnhanceImageResponse.enhancedDimensions := Some d;
                EnhanceImageResponse.processingTimeMs := total;
                EnhanceImageResponse.errorMessage := None |},
           {| originalImage := Some img; job := Some done;
              world := snd (Date_now (snd (Date_now w'))) |})).
Proof.
  intros Hf Hl Hd Hs Hfmt img j w'.
  remember (try_block imageLoader superResolution request startTime
              upscaleFactor (entry w)) as r eqn:Hr.
  unfold try_block, entry in Hr.
  unfold bind at 1 in Hr. unfold eval at 1 in Hr. rewrite Hf in Hr.
  unfold bind at 1 in Hr. unfold EnhanceImageUseCase.in_world at 1 in Hr.
  unfold loadImage in Hr.
  cbn [world originalImage job] in Hr. rewrite Hl in Hr.
  unfold bind at 1 in Hr. unfold eval at 1 in Hr. rewrite Hd in Hr.
  unfold bind at 1 in Hr. unfold eval at 1 in Hr. rewrite Hs in Hr.
  unfold bind at 1 in Hr. unfold eval at 1 in Hr. rewrite Hfmt in Hr.
  step_run Hr. rewrite Hd, Hfmt, Hs in Hr. step_run Hr.
  split; [intros e He; rewrite Hr, He; reflexivity|].
  split; [intros res e He Hg; rewrite Hr, He; fold img; rewrite Hg; reflexivity|].
  intros res d He Hg. cbv zeta. rewrite Hr, He. fold img. rewrite Hg.
  reflexivity.
Qed.

Variable w : World.

Lemma upscaled_by_fields (img img' : Image.t) (f : number) :
  Image._width img = Image._width img' ->
  Image._height img = Image._height img' ->
  Image.getUpscaledDimensions img f = Image.getUpscaledDimensions img' f.
Proof.
  intros Hw Hh. unfold Image.getUpscaledDimensions. rewrite Hw, Hh. reflexivity.
Qed.

(** [execute] when the factor is refused. *)
Lemma execute_invalid_factor (e : Thrown) :
  ImageValidation.validateUpscaleFactor (resolveUpscaleFactor request) = Throw e ->
  execute imageLoader superResolution request w
  = (Return
       {| EnhanceImageResponse.success := false;
          EnhanceImageResponse.enhancedImageData := None;
          EnhanceImageResponse.originalImage := None;
          EnhanceImageResponse.job := None;
          EnhanceImageResponse.enhancedDimensions := None;
          EnhanceImageResponse.processingTimeMs :=
            elapsed (clock w (S (ticks w))) (clock w (ticks w));
          EnhanceImageResponse.errorMessage := Some (messageOf e) |},
     snd (Date_now (snd (Date_now w)))).
Proof.
  intros Hf. unfold execute, enter.
  rewrite (UseCaseFacts.invalid_factor_run imageLoader superResolution request
             _ _ e _ Hf).
  unfold entry. rewrite UseCaseFacts.catch_without_job. reflexivity.
Qed.

(** [execute] when the loader rejects, or resolves to data that fail one
    of the three checks. *)
Lemma execute_before_job (e : Thrown) :
  ImageValidation.validateUpscaleFactor (resolveUpscaleFactor request)
  = Return tt ->
  (imageLoader (EnhanceImageRequest.imageInput request) = Throw e
   \/ exists li,
        imageLoader (EnhanceImageRequest.imageInput request) = Return li
        /\ (ImageValidation.validateDimensions (width li) (height li) ;;;
            ImageValidation.validateFileSize (sizeBytes li) ;;;
            ImageValidation.validateFormat (VString (format li)))%js
           = Throw e) ->
  execute imageLoader superResolution request w
  = (Return
       {| EnhanceImageResponse.success := false;
          EnhanceImageResponse.enhancedImageData := None;
          EnhanceImageResponse.originalImage := None;
          EnhanceImageResponse.job := None;
          EnhanceImageResponse.enhancedDimensions := None;
          EnhanceImageResponse.processingTimeMs :=
            elapsed (clock w (S (ticks w))) (clock w (ticks w));
          EnhanceImageResponse.errorMessage := Some (messageOf e) |},
     snd (Date_now (loaded imageLoader request (snd (Date_now w))))).
Proof.
  intros Hf Hcase. unfold execute, enter.
  assert (Hrun : try_block imageLoader superResolution request
                   (clock w (ticks w)) (resolveUpscaleFactor request)
                   (entry (snd (Date_now w)))
                 = (Throw e, entry (loaded imageLoader request
                                      (snd (Date_now w))))).
  { destruct Hcase as [Hl | (li & Hl & Hv)].
    - apply UseCaseFacts.loader_rejects_run; assumption.
    - apply (UseCaseFacts.invalid_data_run _ _ _ _ _ li); assumption. }
  rewrite Hrun. unfold entry. rewrite UseCaseFacts.catch_without_job.
  reflexivity.
Qed.

(** [execute] when an error is raised after the job was started: by the
    resolution port, or by the computation of the enhanced dimensions. *)
Lemma execute_after_start (li : LoadedImageData) (e : Thrown) :
  ImageValidation.validateUpscaleFactor (resolveUpscaleFactor request)
  = Return tt ->
  imageLoader (EnhanceImageRequest.imageInput request) = Return li ->
  ImageValidation.validateDimensions (width li) (height li) = Return tt ->
  ImageValidation.validateFileSize (sizeBytes li) = Return tt ->
  ImageValidation.validateFormat (VString (format li)) = Return tt ->
  let factor := resolveUpscaleFactor request in
  let img :=
    Image.mk ("img-" ++ string_of_Z (clock w (S (ticks w))) ++ "-"
              ++ entropy w (draws w))
      (width li) (height li) (format li) (sizeBytes li)
      (clock w (S (S (ticks w)))) in
  (superResolution (data li) factor = Throw e
   \/ exists res,
        superResolution (data li) factor = Return res
        /\ Image.getUpscaledDimensions img factor = Throw e) ->
  let failed :=
    ProcessingJob.mk
      ("job-" ++ string_of_Z (clock w (S (S (S (ticks w))))) ++ "-"
       ++ entropy w (S (draws w)))
      img FAILED None None (Some (messageOf e))
      (clock w (S (S (S (S (ticks w))))))
      (Some (clock w (S (S (S (S (S (S (ticks w))))))))) in
  execute imageLoader superResolution request w
  = (Return
       {| EnhanceImageResponse.success := false;
          EnhanceImageResponse.enhancedImageData := None;
          EnhanceImageResponse.originalImage := Some img;
          EnhanceImageResponse.job := Some failed;
          EnhanceImageResponse.enhancedDimensions := None;
          EnhanceImageResponse.processingTimeMs :=
            elapsed (clock w (S (S (S (S (S (ticks w)))))))
              (clock w (ticks w));
          EnhanceImageResponse.errorMessage := Some (messageOf e) |},
     {| clock := clock w; ticks := S (S (S (S (S (S (S (ticks w)))))));
        entropy := entropy w; draws := S (S (draws w));
        loaderCalls := loaderCalls w ++ [EnhanceImageRequest.imageInput request];
        enhancerCalls := enhancerCalls w ++ [(data li, factor)] |}).
Proof.
  intros Hf Hl Hd Hs Hfmt factor img Hcase failed.
  destruct (started_run_at (snd (Date_now w)) (clock w (ticks w)) factor li
              Hf Hl Hd Hs Hfmt) as (Hrej & Hdim & _).
  unfold execute, enter. fold factor.
  destruct Hcase as [Hr | (res & Hr & Hg)].
  - rewrite (Hrej e Hr).
    rewrite UseCaseFacts.catch_in_progress by reflexivity. reflexivity.
  - rewrite (Hdim res e Hr Hg).
    rewrite UseCaseFacts.catch_in_progress by reflexivity. reflexivity.
Qed.

(** [execute] when nothing fails. *)
Lemma execute_success (li : LoadedImageData) (res : SuperResolutionResult)
    (d : ImageDimensions.t) :
  ImageValidation.validateUpscaleFactor (resolveUpscaleFactor request)
  = Return tt ->
  imageLoader (EnhanceImageRequest.imageInput request) = Return li ->
  ImageValidation.validateDimensions (width li) (height li) = Return tt ->
  ImageValidation.validateFileSize (sizeBytes li) = Return tt ->
  ImageValidation.validateFormat (VString (format li)) = Return tt ->
  let factor := resolveUpscaleFactor request in
  let img :=
    Image.mk ("img-" ++ string_of_Z (clock w (S (ticks w))) ++ "-"
              ++ entropy w (draws w))
      (width li) (height li) (format li) (sizeBytes li)
      (clock w (S (S (ticks w)))) in
  superResolution (data li) factor = Return res ->
  Image.getUpscaledDimensions img factor = Return d ->
  let total :=
    elapsed (clock w (S (S (S (S (S (ticks w))))))) (clock w (ticks w)) in
  let done :=
    ProcessingJob.mk
      ("job-" ++ string_of_Z (clock w (S (S (S (ticks w))))) ++ "-"
       ++ entropy w (S (draws w)))
      img COMPLETED (Some d) (Some total) None
      (clock w (S (S (S (S (ticks w))))))
      (Some (clock w (S (S (S (S (S (S (ticks w))))))))) in
  execute imageLoader superResolution request w
  = (Return
       {| EnhanceImageResponse.success := true;
          EnhanceImageResponse.enhancedImageData := Some (enhancedImageData res);
          EnhanceImageResponse.originalImage := Some img;
          EnhanceImageResponse.job := Some done;
          EnhanceImageResponse.enhancedDimensions := Some d;
          EnhanceImageResponse.processingTimeMs := total;
          EnhanceImageResponse.errorMessage := None |},
     {| clock := clock w; ticks := S (S (S (S (S (S (S (ticks w)))))));
        entropy := entropy w; draws := S (S (draws w));
        loaderCalls := loaderCalls w ++ [EnhanceImageRequest.imageInput request];
        enhancerCalls := enhancerCalls w ++ [(data li, factor)] |}).
Proof.
  intros Hf Hl Hd Hs Hfmt factor img Hr Hg total done.
  destruct (started_run_at (snd (Date_now w)) (clock w (ticks w)) factor li
              Hf Hl Hd Hs Hfmt) as (_ & _ & Hok).
  unfold execute, enter. fold factor.
  rewrite (Hok res d Hr Hg). reflexivity.
Qed.

(** The paths are exhaustive. *)
Lemma paths_exhaustive (image_of : LoadedImageData -> Image.t) :
  let factor := resolveUpscaleFactor request in
  let input := EnhanceImageRequest.imageInput request in
  (exists e, ImageValidation.validateUpscaleFactor factor = Throw e)
  \/ (ImageValidation.validateUpscaleFactor factor = Return tt
      /\ exists e,
           imageLoader input = Throw e
           \/ exists li,
                imageLoader input = Return li
                /\ (ImageValidation.validateDimensions (width li) (height li) ;;;
                    ImageValidation.validateFileSize (sizeBytes li) ;;;
                    ImageValidation.validateFormat (VString (format li)))%js
                   = Throw e)
  \/ (ImageValidation.validateUpscaleFactor factor = Return tt
      /\ exists li,
           imageLoader input = Return li
           /\ ImageValidation.validateDimensions (width li) (height li) = Return tt
           /\ ImageValidation.validateFileSize (sizeBytes li) = Return tt
           /\ ImageValidation.validateFormat (VString (format li)) = Return tt
           /\ ((exists e,
                  superResolution (data li) factor = Throw e
                  \/ exists res,
                       superResolution (data li) factor = Return res
                       /\ Image.getUpscaledDimensions (image_of li) factor
                          = Throw e)
               \/ (exists res d,
                     superResolution (data li) factor = Return res
                     /\ Image.getUpscaledDimensions (image_of li) factor
                        = Return d))).
Proof.
  intros factor input.
  destruct (ImageValidation.validateUpscaleFactor factor) as [[]|e] eqn:Hf;
    [|left; exists e; reflexivity].
  right.
  destruct (imageLoader input) as [li|e] eqn:Hl;
    [|left; split; [reflexivity|]; exists e; left; reflexivity].
  destruct (ImageValidation.validateDimensions (width li) (height li) ;;;
            ImageValidation.validateFileSize (sizeBytes li) ;;;
            ImageValidation.validateFormat (VString (format li)))%js
    as [[]|e] eqn:Hv;
    [|left; split; [reflexivity|]; exists e; right; exists li; split;
      [reflexivity | exact Hv]].
  right. split; [reflexivity|]. exists li. split; [reflexivity|].
  unfold andThen in Hv.
  destruct (ImageValidation.validateDimensions (width li) (height li))
    as [[]|] eqn:Hd; [|discriminate Hv].
  destruct (ImageValidation.validateFileSize (sizeBytes li))
    as [[]|] eqn:Hs; [|discriminate Hv].
  split; [reflexivity|]. split; [reflexivity|]. split; [exact Hv|].
  destruct (superResolution (data li) factor) as [res|e] eqn:Hr;
    [|left; exists e; left; reflexivity].
  destruct (Image.getUpscaledDimensions (image_of li) factor) as [d|e] eqn:Hg.
  - right. exists res, d. split; reflexivity.
  - left. exists e. right. exists res. split; reflexivity.
Qed.

End Paths.

End UseCaseFacts2.

(** X14: when the factor is valid and the image loader rejects, [execute]
    answers [success = false] with the message of the rejection (the
    [message] of a thrown [Error], 'Unknown error' for any other thrown
    value) and nothing else: no image, no job, no enhanced data or
    dimensions.  The loader was called once, on the input of the request;
    the resolution port was not called and no identifier was generated. *)
Theorem loader_rejection_stops_run (imageLoader : ImageLoaderPort)
    (superResolution : SuperResolutionPort) (request : EnhanceImageRequest.t)
    (w : World) (e : Thrown) :
  ImageValidation.validateUpscaleFactor
    (EnhanceImageUseCase.resolveUpscaleFactor request) = Return tt ->
  imageLoader (EnhanceImageRequest.imageInput request) = Throw e ->
  exists response w',
    EnhanceImageUseCase.execute imageLoader superResolution request w
    = (Return response, w')
    /\ EnhanceImageResponse.success response = false
    /\ EnhanceImageResponse.errorMessage response
       = Some (match e with
               | ErrorObject message => message
               | NonError _ => "Unknown error"%string
               end)
    /\ EnhanceImageResponse.originalImage response = None
    /\ EnhanceImageResponse.job response = None
    /\ EnhanceImageResponse.enhancedImageData response = None
    /\ EnhanceImageResponse.enhancedDimensions response = None
    /\ loaderCalls w' = loaderCalls w ++ [EnhanceImageRequest.imageInput request]
    /\ enhancerCalls w' = enhancerCalls w
    /\ draws w' = draws w.
Proof.
  intros Hf Hl.
  rewrite (UseCaseFacts2.execute_before_job imageLoader superResolution request
             w e Hf (or_introl Hl)).
  eexists _, _. split; [reflexivity|]. cbn. repeat split.
Qed.

Lemma loader_rejection_stops_run_witness :
  exists response w',
    EnhanceImageUseCase.execute rejectingLoader sampleResolver sampleRequest
      sampleWorld = (Return response, w')
    /\ EnhanceImageResponse.success response = false
    /\ EnhanceImageResponse.errorMessage response
       = Some "Failed to load image"%string.
Proof.
  destruct (loader_rejection_stops_run rejectingLoader sampleResolver
              sampleRequest sampleWorld (Error "Failed to load image")
              eq_refl eq_refl)
    as (response & w' & Hrun & Hsucc & Hmsg & _).
  exists response, w'. repeat split; assumption.
Defined.

(** X15: when the loader resolves to data that fail the checks of step 3,
    which are made in the order dimensions, file size, format (not the order
    of the [Image] constructor) and stop at the first failure, [execute]
    answers [success = false] with the message of that failure (the
    [message] of the thrown [Error]); no identifier was generated, no image
    and no job were created and the resolution port was not called. *)
Theorem invalid_loaded_data_creates_nothing (imageLoader : ImageLoaderPort)
    (superResolution : SuperResolutionPort) (request : EnhanceImageRequest.t)
    (w : World) (li : LoadedImageData) (e : Thrown) :
  ImageValidation.validateUpscaleFactor
    (EnhanceImageUseCase.resolveUpscaleFactor request) = Return tt ->
  imageLoader (EnhanceImageRequest.imageInput request) = Return li ->
  (ImageValidation.validateDimensions (width li) (height li) ;;;
   ImageValidation.validateFileSize (sizeBytes li) ;;;
   ImageValidation.validateFormat (VString (format li)))%js = Throw e ->
  exists response w',
    EnhanceImageUseCase.execute imageLoader superResolution request w
    = (Return response, w')
    /\ EnhanceImageResponse.success response = false
    /\ EnhanceImageResponse.errorMessage response
       = Some (match e with
               | ErrorObject message => message
               | NonError _ => "Unknown error"%string
               end)
    /\ EnhanceImageResponse.originalImage response = None
    /\ EnhanceImageResponse.job response = None
    /\ EnhanceImageResponse.enhancedImageData response = None
    /\ EnhanceImageResponse.enhancedDimensions response = None
    /\ loaderCalls w' = loaderCalls w ++ [EnhanceImageRequest.imageInput request]
    /\ enhancerCalls w' = enhancerCalls w
    /\ draws w' = draws w.
Proof.
  intros Hf Hl Hv.
  rewrite (UseCaseFacts2.execute_before_job imageLoader superResolution request
             w e Hf (or_intror (ex_intro _ li (conj Hl Hv)))).
  eexists _, _. split; [reflexivity|]. cbn. repeat split.
Qed.

Lemma invalid_loaded_data_creates_nothing_witness :
  exists response w',
    EnhanceImageUseCase.execute (fun _ => Return sampleLoadedTiff)
      sampleResolver sampleRequest sampleWorld = (Return response, w')
    /\ EnhanceImageResponse.success response = false
    /\ EnhanceImageResponse.errorMessage response
       = Some "File size exceeds maximum allowed (50MB)"%string
    /\ EnhanceImageResponse.job response = None
    /\ enhancerCalls w' = [].
Proof.
  destruct (invalid_loaded_data_creates_nothing
              (fun _ => Return sampleLoadedTiff) sampleResolver sampleRequest
              sampleWorld sampleLoadedTiff
              (Error "File size exceeds maximum allowed (50MB)")
              eq_refl eq_refl eq_refl)
    as (response & w' & Hrun & Hsucc & Hmsg & _ & Hjob & _ & _ & _ & Hcalls & _).
  exists response, w'. repeat split; assumption.
Defined.

(** X16: the enhanced dimensions are computed only after the resolution
    port has answered.  For loaded data that are valid, with integer
    dimensions [a] and [b], and an integer factor [k] from 2 to 4 such that
    [a * k] or [b * k] exceeds 10000, the port is called and fulfils, and
    then [execute] answers [success = false] with the message of the
    dimension limit: the enhanced data are dropped and the job is FAILED
    with that message. *)
Theorem oversized_result_fails_after_enhancing (imageLoader : ImageLoaderPort)
    (superResolution : SuperResolutionPort) (request : EnhanceImageRequest.t)
    (w : World) (li : LoadedImageData) (res : SuperResolutionResult)
    (a b k : Z) :
  EnhanceImageUseCase.resolveUpscaleFactor request = of_Z k ->
  2 <= k <= 4 ->
  imageLoader (EnhanceImageRequest.imageInput request) = Return li ->
  width li = of_Z a -> height li = of_Z b ->
  0 < a <= 10000 -> 0 < b <= 10000 ->
  ImageValidation.validateFileSize (sizeBytes li) = Return tt ->
  ImageValidation.validateFormat (VString (format li)) = Return tt ->
  superResolution (data li) (of_Z k) = Return res ->
  10000 < a * k \/ 10000 < b * k ->
  exists response w' j,
    EnhanceImageUseCase.execute imageLoader superResolution request w
    = (Return response, w')
    /\ EnhanceImageResponse.success response = false
    /\ EnhanceImageResponse.errorMessage response
       = Some ImageValidation.dimensionsTooLarge
    /\ EnhanceImageResponse.enhancedImageData response = None
    /\ EnhanceImageResponse.enhancedDimensions response = None
    /\ EnhanceImageResponse.job response = Some j
    /\ ProcessingJob.status j = FAILED
    /\ ProcessingJob.errorMessage j = Some ImageValidation.dimensionsTooLarge
    /\ ProcessingJob.enhancedDimensions j = None
    /\ enhancerCalls w' = enhancerCalls w ++ [(data li, of_Z k)].
Proof.
  intros Hk Hk24 Hl Hwidth Hheight Ha Hb Hs Hfmt Hr Hbig.
  assert (Hf : ImageValidation.validateUpscaleFactor
                 (EnhanceImageUseCase.resolveUpscaleFactor request) = Return tt).
  { rewrite Hk. assert (Hc : k = 2 \/ k = 3 \/ k = 4) by lia.
    destruct Hc as [->|[->| ->]]; reflexivity. }
  assert (Hd : ImageValidation.validateDimensions (width li) (height li)
               = Return tt).
  { rewrite Hwidth, Hheight.
    apply ValidationFacts.validateDimensions_of_Z; lia. }
  pose proof (UseCaseFacts2.execute_after_start imageLoader superResolution
                request w li (Error ImageValidation.dimensionsTooLarge)
                Hf Hl Hd Hs Hfmt) as Hrun.
  cbv zeta in Hrun. rewrite Hk in Hrun. rewrite Hrun.
  - eexists _, _, _. split; [reflexivity|]. cbn. repeat split.
  - right. exists res. split; [exact Hr|].
    rewrite (UpscaleFacts.upscale_integers _ a b k)
      by (assumption || reflexivity).
    replace ((a * k <=? 10000) && (b * k <=? 10000)) with false; [reflexivity|].
    symmetry. apply andb_false_iff.
    destruct Hbig; [left|right]; apply Z.leb_gt; assumption.
Qed.

Lemma oversized_result_fails_after_enhancing_witness :
  exists response w' j,
    EnhanceImageUseCase.execute (fun _ => Return sampleLoadedLarge)
      sampleResolver factorFourRequest sampleWorld = (Return response, w')
    /\ EnhanceImageResponse.success response = false
    /\ EnhanceImageResponse.job response = Some j
    /\ ProcessingJob.status j = FAILED
    /\ enhancerCalls w' = [(data sampleLoadedLarge, of_Z 4)].
Proof.
  destruct (oversized_result_fails_after_enhancing
              (fun _ => Return sampleLoadedLarge) sampleResolver
              factorFourRequest sampleWorld sampleLoadedLarge
              (Build_SuperResolutionResult
                 (data sampleLoadedLarge ++ data sampleLoadedLarge) (of_Z 1500))
              5000 5000 4
              eq_refl ltac:(lia) eq_refl eq_refl eq_refl ltac:(lia) ltac:(lia)
              eq_refl eq_refl eq_refl ltac:(lia))
    as (response & w' & j & Hrun & Hsucc & _ & _ & _ & Hjob & Hst & _ & _ & Hcalls).
  exists response, w', j. repeat split; assumption.
Defined.

(** X17: whatever the ports do, [execute] fulfils with a response of one of
    two shapes.  A success has no error message and has enhanced data,
    enhanced dimensions, an image and a COMPLETED job that holds the same
    dimensions and the same processing time as the response.  A failure has
    a message and neither enhanced data nor dimensions.  A job in a response
    is COMPLETED on success and FAILED, with the message of the response, on
    failure; its fields agree with its status; its source image is the image
    of the response; and a response has a job exactly when it has an image.
    The loader is called at most once; the resolution port is called at most
    once, with the bytes the loader gave and the resolved factor, and it is
    called exactly when the response has a job. *)
Theorem response_well_formed (imageLoader : ImageLoaderPort)
    (superResolution : SuperResolutionPort) (request : EnhanceImageRequest.t)
    (w : World) :
  exists response w',
    EnhanceImageUseCase.execute imageLoader superResolution request w
    = (Return response, w')
    /\ (EnhanceImageResponse.success response = true
        <-> EnhanceImageResponse.errorMessage response = None)
    /\ (EnhanceImageResponse.success response = true
        <-> EnhanceImageResponse.enhancedImageData response <> None)
    /\ (EnhanceImageResponse.success response = true
        <-> EnhanceImageResponse.enhancedDimensions response <> None)
    /\ (EnhanceImageResponse.success response = true ->
        exists j,
          EnhanceImageResponse.job response = Some j
          /\ ProcessingJob.status j = COMPLETED
          /\ ProcessingJob.enhancedDimensions j
             = EnhanceImageResponse.enhancedDimensions response
          /\ ProcessingJob.processingTimeMs j
             = Some (EnhanceImageResponse.processingTimeMs response))
    /\ (forall j,
          EnhanceImageResponse.job response = Some j ->
          EnhanceImageResponse.originalImage response
          = Some (ProcessingJob.sourceImage j)
          /\ fields_match_status j
          /\ (ProcessingJob.status j = COMPLETED
              /\ EnhanceImageResponse.success response = true
              \/ ProcessingJob.status j = FAILED
                 /\ EnhanceImageResponse.success response = false
                 /\ ProcessingJob.errorMessage j
                    = EnhanceImageResponse.errorMessage response))
    /\ (EnhanceImageResponse.job response = None
        <-> EnhanceImageResponse.originalImage response = None)
    /\ (loaderCalls w' = loaderCalls w
        \/ loaderCalls w'
           = loaderCalls w ++ [EnhanceImageRequest.imageInput request])
    /\ match EnhanceImageResponse.job response with
       | None => enhancerCalls w' = enhancerCalls w
       | Some _ =>
           exists li,
             imageLoader (EnhanceImageRequest.imageInput request) = Return li
             /\ loaderCalls w'
                = loaderCalls w ++ [EnhanceImageRequest.imageInput request]
             /\ enhancerCalls w'
                = enhancerCalls w
                  ++ [(data li, EnhanceImageUseCase.resolveUpscaleFactor request)]
       end.
Proof.
  pose proof (UseCaseFacts2.paths_exhaustive imageLoader superResolution
                request
                (fun li =>
                   Image.mk ("img-" ++ string_of_Z (clock w (S (ticks w)))
                             ++ "-" ++ entropy w (draws w))
                     (width li) (height li) (format li) (sizeBytes li)
                     (clock w (S (S (ticks w)))))) as Hpaths.
  cbv zeta beta in Hpaths.
  destruct Hpaths
    as [(e & Hf)
       | [(Hf & e & Hcase)
         | (Hf & li & Hl & Hd & Hs & Hfmt
            & [(e & Hcase) | (res & d & Hr & Hg)])]].
  - rewrite (UseCaseFacts2.execute_invalid_factor imageLoader superResolution
               request w e Hf).
    eexists _, _. split; [reflexivity|]. cbn.
    repeat split; try discriminate; try congruence; auto.
  - rewrite (UseCaseFacts2.execute_before_job imageLoader superResolution
               request w e Hf Hcase).
    eexists _, _. split; [reflexivity|]. cbn.
    repeat split; try discriminate; try congruence; auto.
  - pose proof (UseCaseFacts2.execute_after_start imageLoader superResolution
                  request w li e Hf Hl Hd Hs Hfmt Hcase) as Hrun.
    cbv zeta in Hrun. rewrite Hrun.
    eexists _, _. split; [reflexivity|]. cbn.
    split; [split; [discriminate | discriminate]|].
    split; [split; [discriminate | congruence]|].
    split; [split; [discriminate | congruence]|].
    split; [discriminate|].
    split.
    { intros j Hj. injection Hj as <-. cbn.
      split; [reflexivity|].
      split; [|right; repeat split].
      unfold fields_match_status. cbn.
      repeat split; try discriminate; try congruence; auto. }
    split; [split; discriminate|].
    split; [right; reflexivity|].
    exists li. repeat split. exact Hl.
  - pose proof (UseCaseFacts2.execute_success imageLoader superResolution
                  request w li res d Hf Hl Hd Hs Hfmt Hr Hg) as Hrun.
    cbv zeta in Hrun. rewrite Hrun.
    eexists _, _. split; [reflexivity|]. cbn.
    split; [split; reflexivity|].
    split; [split; [discriminate | reflexivity]|].
    split; [split; [discriminate | reflexivity]|].
    split; [intros _; eexists; repeat split|].
    split.
    { intros j Hj. injection Hj as <-. cbn.
      split; [reflexivity|].
      split; [|left; split; reflexivity].
      unfold fields_match_status. cbn.
      repeat split; try discriminate; try congruence; auto. }
    split; [split; discriminate|].
    split; [right; reflexivity|].
    exists li. repeat split. exact Hl.
Qed.

(** X18: a response with [success = true] is obtained in one way only.  The
    resolved factor was valid, the loader resolved to data that passed the
    three checks, and the resolution port fulfilled the call made on those
    bytes with that factor.  The response carries the bytes the port
    returned; its image has the dimensions, the format and the size the
    loader reported; its enhanced dimensions are those
    [getUpscaledDimensions] computes for that image.  The identifiers are
    [img-] and [job-] followed by the second and the fourth reading of the
    clock and by a random chunk each; the job was created at the fifth
    reading, the time of the response was taken at the sixth and the job was
    completed at the seventh. *)
Theorem success_explains_itself (imageLoader : ImageLoaderPort)
    (superResolution : SuperResolutionPort) (request : EnhanceImageRequest.t)
    (w w' : World) (response : EnhanceImageResponse.t) :
  EnhanceImageUseCase.execute imageLoader superResolution request w
  = (Return response, w') ->
  EnhanceImageResponse.success response = true ->
  let factor := EnhanceImageUseCase.resolveUpscaleFactor request in
  exists li res img j d,
    ImageValidation.validateUpscaleFactor factor = Return tt
    /\ imageLoader (EnhanceImageRequest.imageInput request) = Return li
    /\ ImageValidation.validateDimensions (width li) (height li) = Return tt
    /\ ImageValidation.validateFileSize (sizeBytes li) = Return tt
    /\ ImageValidation.validateFormat (VString (format li)) = Return tt
    /\ superResolution (data li) factor = Return res
    /\ EnhanceImageResponse.enhancedImageData response
       = Some (enhancedImageData res)
    /\ EnhanceImageResponse.originalImage response = Some img
    /\ Image.width img = width li /\ Image.height img = height li
    /\ Image.format img = format li /\ Image.sizeInBytes img = sizeBytes li
    /\ Image.id img
       = ("img-" ++ string_of_Z (clock w (S (ticks w))) ++ "-"
          ++ entropy w (draws w))%string
    /\ Image.getUpscaledDimensions img factor = Return d
    /\ EnhanceImageResponse.enhancedDimensions response = Some d
    /\ EnhanceImageResponse.job response = Some j
    /\ ProcessingJob.id j
       = ("job-" ++ string_of_Z (clock w (S (S (S (ticks w))))) ++ "-"
          ++ entropy w (S (draws w)))%string
    /\ ProcessingJob.createdAt j = clock w (S (S (S (S (ticks w)))))
    /\ ProcessingJob.completedAt j
       = Some (clock w (S (S (S (S (S (S (ticks w))))))))
    /\ EnhanceImageResponse.processingTimeMs response
       = sub (of_Z (clock w (S (S (S (S (S (ticks w))))))))
           (of_Z (clock w (ticks w)))
    /\ loaderCalls w'
       = loaderCalls w ++ [EnhanceImageRequest.imageInput request]
    /\ enhancerCalls w' = enhancerCalls w ++ [(data li, factor)].
Proof.
  intros Hexec Hsucc factor.
  pose proof (UseCaseFacts2.paths_exhaustive imageLoader superResolution
                request
                (fun li =>
                   Image.mk ("img-" ++ string_of_Z (clock w (S (ticks w)))
                             ++ "-" ++ entropy w (draws w))
                     (width li) (height li) (format li) (sizeBytes li)
                     (clock w (S (S (ticks w)))))) as Hpaths.
  cbv zeta beta in Hpaths. fold factor in Hpaths.
  destruct Hpaths
    as [(e & Hf)
       | [(Hf & e & Hcase)
         | (Hf & li & Hl & Hd & Hs & Hfmt
            & [(e & Hcase) | (res & d & Hr & Hg)])]].
  - rewrite (UseCaseFacts2.execute_invalid_factor imageLoader superResolution
               request w e Hf) in Hexec.
    injection Hexec as <- _. discriminate Hsucc.
  - rewrite (UseCaseFacts2.execute_before_job imageLoader superResolution
               request w e Hf Hcase) in Hexec.
    injection Hexec as <- _. discriminate Hsucc.
  - pose proof (UseCaseFacts2.execute_after_start imageLoader superResolution
                  request w li e Hf Hl Hd Hs Hfmt Hcase) as Hrun.
    cbv zeta in Hrun. rewrite Hrun in Hexec.
    injection Hexec as <- _. discriminate Hsucc.
  - pose proof (UseCaseFacts2.execute_success imageLoader superResolution
                  request w li res d Hf Hl Hd Hs Hfmt Hr Hg) as Hrun.
    cbv zeta in Hrun. rewrite Hrun in Hexec.
    injection Hexec as <- <-.
    eexists li, res, _, _, d. cbn.
    repeat split; try assumption.
Qed.

Lemma success_explains_itself_witness :
  exists li res,
    sampleLoader (EnhanceImageRequest.imageInput sampleRequest) = Return li
    /\ sampleResolver (data li) (of_Z 2) = Return res.
Proof.
  destruct (EnhanceImageUseCase.execute sampleLoader sampleResolver
              sampleRequest sampleWorld) as [c w'] eqn:Hrun.
  pose proof (f_equal fst Hrun) as Hc. cbn [fst] in Hc.
  vm_compute in Hc. subst c.
  destruct (success_explains_itself sampleLoader sampleResolver sampleRequest
              sampleWorld w' _ Hrun eq_refl)
    as (li & res & img & j & d & _ & Hl & _ & _ & _ & Hr & _).
  exists li, res. split; [exact Hl | exact Hr].
Defined.

(** X19: the processing time of a response is the difference of two
    readings of the clock: the one [execute] makes on entry and the one made
    just before the response is built, which is the next reading when the
    response has no job and the fifth after it when it has one.  For
    readings that are time values the subtraction is exact, so the time is
    an integer; it is the same whatever time the resolution port reports;
    and it is not negative when the clock never goes back. *)
Theorem execute_measures_elapsed_time (imageLoader : ImageLoaderPort)
    (superResolution : SuperResolutionPort) (request : EnhanceImageRequest.t)
    (w : World) :
  time_values (clock w) (5 + ticks w) ->
  exists response w',
    EnhanceImageUseCase.execute imageLoader superResolution request w
    = (Return response, w')
    /\ (let k := match EnhanceImageResponse.job response with
                 | None => 1%nat
                 | Some _ => 5%nat
                 end in
        EnhanceImageResponse.processingTimeMs response
        = of_Z (clock w (k + ticks w) - clock w (ticks w)))
    /\ isInteger (EnhanceImageResponse.processingTimeMs response) = true
    /\ (monotone (clock w) ->
        le (of_Z 0) (EnhanceImageResponse.processingTimeMs response) = true).
Proof.
  intros Htime.
  assert (Hexact : forall k : nat, (k <= 5)%nat ->
            EnhanceImageUseCase.elapsed (clock w (k + ticks w)) (clock w (ticks w))
            = of_Z (clock w (k + ticks w) - clock w (ticks w))).
  { intros k Hk. unfold EnhanceImageUseCase.elapsed.
    apply SubFacts.sub_of_Z; apply Htime; lia. }
  assert (Hint : forall k : nat, (k <= 5)%nat ->
            isInteger (of_Z (clock w (k + ticks w) - clock w (ticks w))) = true).
  { intros k Hk. apply NumberFacts.isInteger_of_Z.
    pose proof (Htime (k + ticks w)%nat ltac:(lia)).
    pose proof (Htime (ticks w) ltac:(lia)). lia. }
  assert (Hpos : forall k : nat, (k <= 5)%nat -> monotone (clock w) ->
            le (of_Z 0) (of_Z (clock w (k + ticks w) - clock w (ticks w))) = true).
  { intros k Hk Hmono. rewrite NumberFacts.le_of_Z.
    - apply Z.leb_le. pose proof (Hmono (ticks w) (k + ticks w)%nat ltac:(lia)).
      lia.
    - simpl. lia.
    - pose proof (Htime (k + ticks w)%nat ltac:(lia)).
      pose proof (Htime (ticks w) ltac:(lia)). lia. }
  pose proof (UseCaseFacts2.paths_exhaustive imageLoader superResolution
                request
                (fun li =>
                   Image.mk ("img-" ++ string_of_Z (clock w (S (ticks w)))
                             ++ "-" ++ entropy w (draws w))
                     (width li) (height li) (format li) (sizeBytes li)
                     (clock w (S (S (ticks w)))))) as Hpaths.
  cbv zeta beta in Hpaths.
  destruct Hpaths
    as [(e & Hf)
       | [(Hf & e & Hcase)
         | (Hf & li & Hl & Hd & Hs & Hfmt
            & [(e & Hcase) | (res & d & Hr & Hg)])]].
  - rewrite (UseCaseFacts2.execute_invalid_factor imageLoader superResolution
               request w e Hf).
    eexists _, _. split; [reflexivity|].
    cbn [EnhanceImageResponse.job EnhanceImageResponse.processingTimeMs].
    cbv zeta. cbn [Nat.add].
    pose proof (Hexact 1%nat ltac:(lia)) as E. cbn [Nat.add] in E. rewrite E.
    split; [reflexivity|].
    split; [apply (Hint 1%nat); lia | apply (Hpos 1%nat); lia].
  - rewrite (UseCaseFacts2.execute_before_job imageLoader superResolution
               request w e Hf Hcase).
    eexists _, _. split; [reflexivity|].
    cbn [EnhanceImageResponse.job EnhanceImageResponse.processingTimeMs].
    cbv zeta. cbn [Nat.add].
    pose proof (Hexact 1%nat ltac:(lia)) as E. cbn [Nat.add] in E. rewrite E.
    split; [reflexivity|].
    split; [apply (Hint 1%nat); lia | apply (Hpos 1%nat); lia].
  - pose proof (UseCaseFacts2.execute_after_start imageLoader superResolution
                  request w li e Hf Hl Hd Hs Hfmt Hcase) as Hrun.
    cbv zeta in Hrun. rewrite Hrun.
    eexists _, _. split; [reflexivity|].
    cbn [EnhanceImageResponse.job EnhanceImageResponse.processingTimeMs].
    cbv zeta. cbn [Nat.add].
    pose proof (Hexact 5%nat ltac:(lia)) as E. cbn [Nat.add] in E. rewrite E.
    split; [reflexivity|].
    split; [apply (Hint 5%nat); lia | apply (Hpos 5%nat); lia].
  - pose proof (UseCaseFacts2.execute_success imageLoader superResolution
                  request w li res d Hf Hl Hd Hs Hfmt Hr Hg) as Hrun.
    cbv zeta in Hrun. rewrite Hrun.
    eexists _, _. split; [reflexivity|].
    cbn [EnhanceImageResponse.job EnhanceImageResponse.processingTimeMs].
    cbv zeta. cbn [Nat.add].
    pose proof (Hexact 5%nat ltac:(lia)) as E. cbn [Nat.add] in E. rewrite E.
    split; [reflexivity|].
    split; [apply (Hint 5%nat); lia | apply (Hpos 5%nat); lia].
Qed.

Lemma execute_measures_elapsed_time_witness :
  time_values (clock sampleWorld) 5
  /\ exists response w',
       EnhanceImageUseCase.execute sampleLoader sampleResolver sampleRequest
         sampleWorld = (Return response, w')
       /\ isInteger (EnhanceImageResponse.processingTimeMs response) = true.
Proof.
  assert (Htime : time_values (clock sampleWorld) 5).
  { intros n Hn. unfold sampleWorld. cbn [clock]. lia. }
  split; [exact Htime|].
  destruct (execute_measures_elapsed_time sampleLoader sampleResolver
              sampleRequest sampleWorld Htime)
    as (response & w' & Hrun & _ & Hint & _).
  exists response, w'. split; [exact Hrun | exact Hint].
Defined.

(** C2: [execute] never throws.  Whatever error the [try] block raises, the
    response has [success = false]; its message is the [message] of the
    thrown [Error], and 'Unknown error' when the thrown value is not an
    [Error]; its time is the reading of the clock made on entering the
    [catch] clause, which is the first reading after the start when no job
    exists and the fifth when one does, minus the reading made at the
    start, and for readings that are time values it is that integer
    difference.  When the error is raised the job either does not exist,
    and then no transition is attempted and the response carries no job,
    or is IN_PROGRESS, and then the response carries it FAILED with that
    message.  In particular a rejection by the resolution port, which comes
    after the job was started, gives a FAILED job with the message of the
    rejection. *)
Theorem execute_catches_every_error (imageLoader : ImageLoaderPort)
    (superResolution : SuperResolutionPort) (request : EnhanceImageRequest.t)
    (w : World) :
  let startTime := clock w (ticks w) in
  let factor := EnhanceImageUseCase.resolveUpscaleFactor request in
  let attempt :=
    EnhanceImageUseCase.try_block imageLoader superResolution request
      startTime factor (EnhanceImageUseCase.entry (snd (Date_now w))) in
  let message_of (e : Thrown) : string :=
    match e with
    | ErrorObject message => message
    | NonError _ => "Unknown error"%string
    end in
  exists response w',
    EnhanceImageUseCase.execute imageLoader superResolution request w
    = (Return response, w')
    /\ (forall e fr,
          attempt = (Throw e, fr) ->
          let k := match EnhanceImageUseCase.job fr with
                   | None => 1%nat
                   | Some _ => 5%nat
                   end in
          EnhanceImageResponse.success response = false
          /\ EnhanceImageResponse.errorMessage response = Some (message_of e)
          /\ EnhanceImageResponse.processingTimeMs response
             = sub (of_Z (clock w (k + ticks w))) (of_Z (clock w (ticks w)))
          /\ (time_values (clock w) (5 + ticks w) ->
              EnhanceImageResponse.processingTimeMs response
              = of_Z (clock w (k + ticks w) - clock w (ticks w)))
          /\ EnhanceImageResponse.enhancedImageData response = None
          /\ EnhanceImageResponse.enhancedDimensions response = None
          /\ match EnhanceImageUseCase.job fr with
             | Some j =>
                 ProcessingJob.status j = IN_PROGRESS
                 /\ exists j',
                      EnhanceImageResponse.job response = Some j'
                      /\ ProcessingJob.status j' = FAILED
                      /\ ProcessingJob.errorMessage j' = Some (message_of e)
                      /\ ProcessingJob.completedAt j'
                         = Some (clock w (6 + ticks w))
                      /\ ProcessingJob.id j' = ProcessingJob.id j
                      /\ ProcessingJob.sourceImage j' = ProcessingJob.sourceImage j
                      /\ ProcessingJob.createdAt j' = ProcessingJob.createdAt j
             | None => EnhanceImageResponse.job response = None
             end)
    /\ (forall li e,
          ImageValidation.validateUpscaleFactor factor = Return tt ->
          imageLoader (EnhanceImageRequest.imageInput request) = Return li ->
          ImageValidation.validateDimensions (width li) (height li) = Return tt ->
          ImageValidation.validateFileSize (sizeBytes li) = Return tt ->
          ImageValidation.validateFormat (VString (format li)) = Return tt ->
          superResolution (data li) factor = Throw e ->
          EnhanceImageResponse.success response = false
          /\ EnhanceImageResponse.errorMessage response = Some (message_of e)
          /\ EnhanceImageResponse.processingTimeMs response
             = sub (of_Z (clock w (5 + ticks w))) (of_Z (clock w (ticks w)))
          /\ exists j',
               EnhanceImageResponse.job response = Some j'
               /\ ProcessingJob.status j' = FAILED
               /\ ProcessingJob.errorMessage j' = Some (message_of e)).
Proof.
  cbv zeta.
  set (startTime := clock w (ticks w)).
  set (factor := EnhanceImageUseCase.resolveUpscaleFactor request).
  assert (Hexact : forall k : nat, (k <= 5)%nat ->
            time_values (clock w) (5 + ticks w) ->
            sub (of_Z (clock w (k + ticks w))) (of_Z (clock w (ticks w)))
            = of_Z (clock w (k + ticks w) - clock w (ticks w))).
  { intros k Hk Htime. apply SubFacts.sub_of_Z; apply Htime; lia. }
  pose proof (UseCaseFacts2.paths_exhaustive imageLoader superResolution
                request
                (fun li =>
                   Image.mk ("img-" ++ string_of_Z (clock w (S (ticks w)))
                             ++ "-" ++ entropy w (draws w))
                     (width li) (height li) (format li) (sizeBytes li)
                     (clock w (S (S (ticks w)))))) as Hpaths.
  cbv zeta beta in Hpaths. fold factor in Hpaths.
  destruct Hpaths
    as [(e & Hf)
       | [(Hf & e & Hcase)
         | (Hf & li & Hl & Hd & Hs & Hfmt
            & [(e & Hcase) | (res & d & Hr & Hg)])]].
  - (* the factor is refused *)
    rewrite (UseCaseFacts2.execute_invalid_factor imageLoader superResolution
               request w e Hf).
    rewrite (UseCaseFacts.invalid_factor_run imageLoader superResolution
               request startTime factor e _ Hf).
    eexists _, _. split; [reflexivity|]. split.
    + intros e' fr' H. injection H as <- <-.
      cbn [EnhanceImageUseCase.job EnhanceImageUseCase.entry].
      cbv zeta. cbn [EnhanceImageResponse.success EnhanceImageResponse.errorMessage
        EnhanceImageResponse.processingTimeMs EnhanceImageResponse.job
        EnhanceImageResponse.enhancedImageData
        EnhanceImageResponse.enhancedDimensions].
      split; [reflexivity|]. split; [reflexivity|]. split; [reflexivity|].
      split; [intros Htime; exact (Hexact 1%nat ltac:(lia) Htime)|].
      repeat split.
    + intros li e' Hf'. rewrite Hf in Hf'. discriminate Hf'.
  - (* the loader rejects, or the data are refused *)
    rewrite (UseCaseFacts2.execute_before_job imageLoader superResolution
               request w e Hf Hcase).
    assert (Hrun : EnhanceImageUseCase.try_block imageLoader superResolution
                     request startTime factor
                     (EnhanceImageUseCase.entry (snd (Date_now w)))
                   = (Throw e,
                      EnhanceImageUseCase.entry
                        (EnhanceImageUseCase.loaded imageLoader request
                           (snd (Date_now w))))).
    { destruct Hcase as [Hl | (li & Hl & Hv)].
      - apply UseCaseFacts.loader_rejects_run; assumption.
      - apply (UseCaseFacts.invalid_data_run _ _ _ _ _ li); assumption. }
    rewrite Hrun.
    eexists _, _. split; [reflexivity|]. split.
    + intros e' fr' H. injection H as <- <-.
      cbn [EnhanceImageUseCase.job EnhanceImageUseCase.entry].
      cbv zeta. cbn [EnhanceImageResponse.success EnhanceImageResponse.errorMessage
        EnhanceImageResponse.processingTimeMs EnhanceImageResponse.job
        EnhanceImageResponse.enhancedImageData
        EnhanceImageResponse.enhancedDimensions].
      split; [reflexivity|]. split; [reflexivity|]. split; [reflexivity|].
      split; [intros Htime; exact (Hexact 1%nat ltac:(lia) Htime)|].
      repeat split.
    + intros li e' _ Hl Hd Hs Hfmt _.
      destruct Hcase as [Hl' | (li' & Hl' & Hv)].
      * rewrite Hl in Hl'. discriminate Hl'.
      * rewrite Hl in Hl'. injection Hl' as <-.
        unfold andThen in Hv. rewrite Hd, Hs, Hfmt in Hv. discriminate Hv.
  - (* an error after the job was started *)
    pose proof (UseCaseFacts2.execute_after_start imageLoader superResolution
                  request w li e Hf Hl Hd Hs Hfmt Hcase) as Hexec.
    cbv zeta in Hexec. rewrite Hexec.
    destruct (UseCaseFacts2.started_run_at imageLoader superResolution request
                (snd (Date_now w)) startTime factor li Hf Hl Hd Hs Hfmt)
      as (Hrej & Hdim & _).
    assert (Hrun : exists fr,
              EnhanceImageUseCase.try_block imageLoader superResolution
                request startTime factor
                (EnhanceImageUseCase.entry (snd (Date_now w)))
              = (Throw e, fr)
              /\ exists j,
                   EnhanceImageUseCase.job fr = Some j
                   /\ ProcessingJob.status j = IN_PROGRESS
                   /\ ProcessingJob.id j
                      = ("job-"
                         ++ string_of_Z (clock w (S (S (S (ticks w))))) ++ "-"
                         ++ entropy w (S (draws w)))%string
                   /\ ProcessingJob.sourceImage j
                      = Image.mk
                          ("img-" ++ string_of_Z (clock w (S (ticks w)))
                           ++ "-" ++ entropy w (draws w))
                          (width li) (height li) (format li) (sizeBytes li)
                          (clock w (S (S (ticks w))))
                   /\ ProcessingJob.createdAt j
                      = clock w (S (S (S (S (ticks w)))))).
    { destruct Hcase as [Hr | (res & Hr & Hg)].
      - eexists. split; [exact (Hrej e Hr)|].
        eexists. split; [reflexivity|]. repeat split.
      - eexists. split; [exact (Hdim res e Hr Hg)|].
        eexists. split; [reflexivity|]. repeat split. }
    destruct Hrun as (fr & Hrun & j & Hj & Hst & Hid & Hsrc & Hcreated).
    rewrite Hrun.
    eexists _, _. split; [reflexivity|]. split.
    + intros e' fr' H. injection H as <- <-. rewrite Hj.
      cbv zeta. cbn [EnhanceImageResponse.success EnhanceImageResponse.errorMessage
        EnhanceImageResponse.processingTimeMs EnhanceImageResponse.job
        EnhanceImageResponse.enhancedImageData
        EnhanceImageResponse.enhancedDimensions].
      split; [reflexivity|]. split; [reflexivity|]. split; [reflexivity|].
      split; [intros Htime; exact (Hexact 5%nat ltac:(lia) Htime)|].
      split; [reflexivity|]. split; [reflexivity|].
      split; [exact Hst|].
      eexists. split; [reflexivity|].
      rewrite Hid, Hsrc, Hcreated. repeat split.
    + intros li' e' _ Hl' _ _ _ Hr'.
      rewrite Hl in Hl'. injection Hl' as <-.
      assert (e' = e) as ->.
      { destruct Hcase as [Hr | (res & Hr & _)]; rewrite Hr in Hr';
          [injection Hr' as <-; reflexivity | discriminate Hr']. }
      cbn [EnhanceImageResponse.success EnhanceImageResponse.errorMessage
        EnhanceImageResponse.processingTimeMs EnhanceImageResponse.job].
      split; [reflexivity|]. split; [reflexivity|]. split; [reflexivity|].
      eexists. split; [reflexivity|]. repeat split.
  - (* nothing fails *)
    pose proof (UseCaseFacts2.execute_success imageLoader superResolution
                  request w li res d Hf Hl Hd Hs Hfmt Hr Hg) as Hexec.
    cbv zeta in Hexec. rewrite Hexec.
    destruct (UseCaseFacts2.started_run_at imageLoader superResolution request
                (snd (Date_now w)) startTime factor li Hf Hl Hd Hs Hfmt)
      as (_ & _ & Hok).
    pose proof (Hok res d Hr Hg) as Hrun. cbv zeta in Hrun. rewrite Hrun.
    eexists _, _. split; [reflexivity|]. split.
    + intros e' fr' H. discriminate H.
    + intros li' e' _ Hl' _ _ _ Hr'.
      rewrite Hl in Hl'. injection Hl' as <-.
      rewrite Hr in Hr'. discriminate Hr'.
Qed.

Lemma execute_catches_every_error_witness :
  exists response w',
    EnhanceImageUseCase.execute sampleLoader failingResolver sampleRequest
      sampleWorld = (Return response, w')
    /\ EnhanceImageResponse.success response = false
    /\ EnhanceImageResponse.errorMessage response
       = Some "AI processing failed"%string
    /\ EnhanceImageResponse.processingTimeMs response = of_Z 1250
    /\ exists j',
         EnhanceImageResponse.job response = Some j'
         /\ ProcessingJob.status j' = FAILED
         /\ ProcessingJob.errorMessage j' = Some "AI processing failed"%string.
Proof.
  destruct (execute_catches_every_error sampleLoader failingResolver
              sampleRequest sampleWorld) as (response & w' & Hrun & _ & Hrej).
  exists response, w'. split; [exact Hrun|].
  apply (Hrej sampleLoadedImage (Error "AI processing failed"));
    reflexivity.
Defined.
